(** * The xv6 buffer cache of the lock lab (kernel/bio.c)

    A shallow embedding of the hashed buffer cache: the pool of [NBUF]
    buffers, the [NBUK] buckets with their singly linked lists threaded
    through [next], the spinlocks, the per-buffer sleep-locks and the
    tick counter.  Every C function of bio.c is a function of a small
    state-and-error monad; pointers are explicit, so that a null or wild
    dereference is an outcome of its own and not silently defined. *)

From Stdlib Require Import ZArith Lia String List Bool.
From stdpp Require Import base list.

Local Open Scope Z_scope.

(** ** Machine integers *)

(** [uint] arithmetic wraps modulo 2^32; [int] is its two's complement
    reading. *)
Definition to_uint (z : Z) : Z := z mod 2 ^ 32.
Definition to_int (z : Z) : Z := (z + 2 ^ 31) mod 2 ^ 32 - 2 ^ 31.

(** ** Compile-time constants

    [NBUK] is 13 in bio.c; [NBUF] comes from param.h and [BSIZE] from
    fs.h.  They are kept as parameters of the development so that the
    two-slot, one-bucket scenario of the specification can be run next to
    the kernel's own configuration. *)
Class config := Config { NBUF : nat; NBUK : nat; BSIZE : nat }.

(** ** Data *)

(** A [struct buf *]: null, the address of a bucket's [head], or the
    address of a pool slot [bcache.buf + k]. *)
Inductive ptr : Type :=
| Null
| Head (i : nat)
| Buf (k : nat).

#[global] Instance ptr_eq_dec : EqDecision ptr.
Proof. solve_decision. Defined.

Record spinlock := Spinlock { held : bool }.

Record sleeplock := Sleeplock { locked : bool; pid : Z }.

(** The fields of [struct buf] that bio.c touches.  buf.h is not part of
    the sources at hand: [timestamp] is taken to be a [uint] like the
    tick counter it is copied from, [valid] an [int], the others [uint]. *)
Record buf := mkbuf {
  valid : Z;
  dev : Z;
  blockno : Z;
  lock : sleeplock;
  refcnt : Z;
  next : ptr;
  timestamp : Z;
  data : list Z
}.

Record bucket := mkbucket { bucket_lock : spinlock; head : buf }.

Inductive io_event : Type :=
| DiskRead (b : ptr) (d bn : Z)
| DiskWrite (b : ptr) (d bn : Z).

(** The global [bcache] together with the environment bio.c reads:
    the tick counter, the disk behind [virtio_disk_rw] and the trace of
    the transfers made so far. *)
Record state := mkstate {
  bcache_lock : spinlock;
  bcache_buf : list buf;
  bcache_buckets : list bucket;
  ticks : Z;
  disk : list (Z * Z * list Z);
  io_log : list io_event
}.

Definition set_valid (v : Z) (b : buf) : buf :=
  mkbuf v (dev b) (blockno b) (lock b) (refcnt b) (next b) (timestamp b) (data b).
Definition set_dev (v : Z) (b : buf) : buf :=
  mkbuf (valid b) v (blockno b) (lock b) (refcnt b) (next b) (timestamp b) (data b).
Definition set_blockno (v : Z) (b : buf) : buf :=
  mkbuf (valid b) (dev b) v (lock b) (refcnt b) (next b) (timestamp b) (data b).
Definition set_lock (v : sleeplock) (b : buf) : buf :=
  mkbuf (valid b) (dev b) (blockno b) v (refcnt b) (next b) (timestamp b) (data b).
Definition set_refcnt (v : Z) (b : buf) : buf :=
  mkbuf (valid b) (dev b) (blockno b) (lock b) v (next b) (timestamp b) (data b).
Definition set_next (v : ptr) (b : buf) : buf :=
  mkbuf (valid b) (dev b) (blockno b) (lock b) (refcnt b) v (timestamp b) (data b).
Definition set_timestamp (v : Z) (b : buf) : buf :=
  mkbuf (valid b) (dev b) (blockno b) (lock b) (refcnt b) (next b) v (data b).
Definition set_data (v : list Z) (b : buf) : buf :=
  mkbuf (valid b) (dev b) (blockno b) (lock b) (refcnt b) (next b) (timestamp b) v.

Definition set_bucket_lock (v : spinlock) (k : bucket) : bucket :=
  mkbucket v (head k).
Definition set_head (v : buf) (k : bucket) : bucket :=
  mkbucket (bucket_lock k) v.

Definition with_bcache_lock (v : spinlock) (s : state) : state :=
  mkstate v (bcache_buf s) (bcache_buckets s) (ticks s) (disk s) (io_log s).
Definition with_buf (v : list buf) (s : state) : state :=
  mkstate (bcache_lock s) v (bcache_buckets s) (ticks s) (disk s) (io_log s).
Definition with_buckets (v : list bucket) (s : state) : state :=
  mkstate (bcache_lock s) (bcache_buf s) v (ticks s) (disk s) (io_log s).
Definition with_ticks (v : Z) (s : state) : state :=
  mkstate (bcache_lock s) (bcache_buf s) (bcache_buckets s) v (disk s) (io_log s).
Definition with_disk (v : list (Z * Z * list Z)) (s : state) : state :=
  mkstate (bcache_lock s) (bcache_buf s) (bcache_buckets s) (ticks s) v (io_log s).
Definition with_io_log (v : list io_event) (s : state) : state :=
  mkstate (bcache_lock s) (bcache_buf s) (bcache_buckets s) (ticks s) (disk s) v.

(** ** Outcomes and the monad *)

Inductive fault : Type :=
| NullDeref
| WildDeref (p : ptr)
| OutOfBounds (i : Z).

(** What a kernel call can do: return, halt in [panic], run into C
    undefined behaviour, put the caller to sleep on a sleep-lock (the
    state it leaves behind is recorded), spin for ever on a spinlock that
    nobody will release, or walk a cyclic list for ever. *)
Inductive result (A : Type) : Type :=
| Ret (a : A) (s : state)
| Panic (msg : string)
| Undefined (f : fault)
| Sleeps (s : state)
| Spins
| Diverges.
Arguments Ret {A} a s.
Arguments Panic {A} msg.
Arguments Undefined {A} f.
Arguments Sleeps {A} s.
Arguments Spins {A}.
Arguments Diverges {A}.

Definition M (A : Type) : Type := state → result A.

Definition ret {A} (a : A) : M A := λ s, Ret a s.

Definition bind {A B} (m : M A) (k : A → M B) : M B :=
  λ s, match m s with
       | Ret a s' => k a s'
       | Panic msg => Panic msg
       | Undefined f => Undefined f
       | Sleeps s' => Sleeps s'
       | Spins => Spins
       | Diverges => Diverges
       end.

Declare Scope bio_scope.
Notation "x ← y ; z" := (bind y (λ x : _, z))
  (at level 20, y at level 100, z at level 200, only parsing) : bio_scope.
Notation "x ;; z" := (bind x (λ _, z))
  (at level 100, z at level 200, only parsing, right associativity) : bio_scope.
Local Open Scope bio_scope.

Definition panic {A} (msg : string) : M A := λ _, Panic msg.
Definition undefined {A} (f : fault) : M A := λ _, Undefined f.
Definition diverges {A} : M A := λ _, Diverges.
Definition get_ticks : M Z := λ s, Ret (ticks s) s.

(** ** Memory access through a [struct buf *] *)

Definition node (p : ptr) (s : state) : option buf :=
  match p with
  | Null => None
  | Head i => head <$> bcache_buckets s !! i
  | Buf k => bcache_buf s !! k
  end.

Definition bad_deref (p : ptr) : fault :=
  match p with Null => NullDeref | _ => WildDeref p end.

(** Read [*p]. *)
Definition load (p : ptr) : M buf :=
  λ s, match node p s with
       | Some b => Ret b s
       | None => Undefined (bad_deref p)
       end.

(** Write the fields of [*p] that [f] changes. *)
Definition store (p : ptr) (f : buf → buf) : M unit :=
  λ s, match p, node p s with
       | Head i, Some _ =>
           Ret tt (with_buckets
                     (alter (λ k, set_head (f (head k)) k) i (bcache_buckets s)) s)
       | Buf k, Some _ =>
           Ret tt (with_buf (alter f k (bcache_buf s)) s)
       | _, _ => Undefined (bad_deref p)
       end.

(** ** The environment of bio.c

    spinlock.c, sleeplock.c, virtio_disk.c and the timer are not part of
    the sources at hand; what follows is their interface as the
    specification gives it. *)

(** [&bcache.lock] or [&bcache.buckets[i].lock]; the index is an [int]
    as in the code, where [lru_buk_id] may still be -1. *)
Inductive lockid : Type :=
| BcacheLock
| BucketLock (i : Z).

Definition spin_get (lk : lockid) (s : state) : option spinlock :=
  match lk with
  | BcacheLock => Some (bcache_lock s)
  | BucketLock i =>
      if 0 <=? i then bucket_lock <$> bcache_buckets s !! Z.to_nat i else None
  end.

Definition spin_set (lk : lockid) (v : spinlock) (s : state) : state :=
  match lk with
  | BcacheLock => with_bcache_lock v s
  | BucketLock i =>
      with_buckets (alter (set_bucket_lock v) (Z.to_nat i) (bcache_buckets s)) s
  end.

Definition lock_fault (lk : lockid) : fault :=
  match lk with BcacheLock => NullDeref | BucketLock i => OutOfBounds i end.

(** Modelled from the spec: [initlock] leaves the short-hold lock free. *)
Definition initlock (lk : lockid) : M unit :=
  λ s, match spin_get lk s with
       | Some _ => Ret tt (spin_set lk (Spinlock false) s)
       | None => Undefined (lock_fault lk)
       end.

(** Modelled from the spec: [acquire] takes a free short-hold lock; on a
    lock that is held it waits, which in a run where nobody else acts is
    for ever. *)
Definition acquire (lk : lockid) : M unit :=
  λ s, match spin_get lk s with
       | Some (Spinlock false) => Ret tt (spin_set lk (Spinlock true) s)
       | Some (Spinlock true) => Spins
       | None => Undefined (lock_fault lk)
       end.

(** Modelled from the spec: [release] frees the short-hold lock. *)
Definition release (lk : lockid) : M unit :=
  λ s, match spin_get lk s with
       | Some _ => Ret tt (spin_set lk (Spinlock false) s)
       | None => Undefined (lock_fault lk)
       end.

(** Modelled from the spec: [initsleeplock] leaves the exclusive lock of
    [*b] free. *)
Definition initsleeplock (b : ptr) : M unit :=
  store b (set_lock (Sleeplock false 0)).

(** Modelled from the spec: [acquiresleep] by process [me] takes the
    exclusive lock of [*b] when it is free and suspends the caller when
    it is not. *)
Definition acquiresleep (me : Z) (b : ptr) : M unit :=
  n ← load b;
  if locked (lock n) then (λ s, Sleeps s)
  else store b (set_lock (Sleeplock true me)).

(** Modelled from the spec: [releasesleep] frees the exclusive lock. *)
Definition releasesleep (b : ptr) : M unit :=
  store b (set_lock (Sleeplock false 0)).

(** Modelled from the spec: [holdingsleep] tells whether process [me]
    holds the exclusive lock of [*b]. *)
Definition holdingsleep (me : Z) (b : ptr) : M bool :=
  n ← load b;
  ret (locked (lock n) && (pid (lock n) =? me)).

Definition zero_block `{config} : list Z := repeat 0 BSIZE.

Fixpoint disk_lookup `{config} (d bn : Z) (dk : list (Z * Z * list Z)) : list Z :=
  match dk with
  | [] => zero_block
  | (d', bn', c) :: dk' =>
      if (d' =? d) && (bn' =? bn) then c else disk_lookup d bn dk'
  end.

(** Modelled from the spec: [virtio_disk_rw(b, write)] is the
    synchronous transfer between [b->data] and block
    [(b->dev, b->blockno)] of the device; each call is logged. *)
Definition virtio_disk_rw `{config} (b : ptr) (write : bool) : M unit :=
  n ← load b;
  if write then
    λ s, Ret tt (with_io_log (io_log s ++ [DiskWrite b (dev n) (blockno n)])
                  (with_disk ((dev n, blockno n, data n) :: disk s) s))
  else
    dk ← (λ s, Ret (disk s) s);
    store b (set_data (disk_lookup (dev n) (blockno n) dk));;
    λ s, Ret tt (with_io_log (io_log s ++ [DiskRead b (dev n) (blockno n)]) s).

(** Modelled from the spec: the timer interrupt advances the tick
    counter, a [uint]. *)
Definition clockintr : M unit :=
  λ s, Ret tt (with_ticks (to_uint (ticks s + 1)) s).

(** ** bio.c *)

Section Bio.
Context `{cfg : config}.

(** [#define hash(dev, blockno) ((dev * blockno) % NBUK)], on [uint]
    operands. *)
Definition hash (d bn : Z) : Z := to_uint (d * bn) mod Z.of_nat NBUK.

(** Storage of static duration is zero-initialised: the [bcache] the
    kernel boots with. *)
Definition zero_buf : buf :=
  mkbuf 0 0 0 (Sleeplock false 0) 0 Null 0 zero_block.

Definition boot : state :=
  mkstate (Spinlock false)
          (replicate NBUF zero_buf)
          (replicate NBUK (mkbucket (Spinlock false) zero_buf))
          0 [] [].

(** The bound of every list walk.  A walk that takes more than [NBUF]
    steps through pool slots has met one of them twice and, the walk
    changing nothing, will go round for ever. *)
Definition walk_fuel : nat := S NBUF.

(** The inner loop of [binit]:
    [for(b = bcache.buf; b < bcache.buf+NBUF; b++)], with [n] slots
    still to visit. *)
Fixpoint binit_bufs (n : nat) (b : nat) (prev_b : ptr) : M unit :=
  match n with
  | O => ret tt
  | S n' =>
      (if decide (S b = NBUF) then store (Buf b) (set_next Null) else ret tt);;
      store prev_b (set_next (Buf b));;
      t ← get_ticks;
      store (Buf b) (set_timestamp t);;
      initsleeplock (Buf b);;
      binit_bufs n' (S b) (Buf b)
  end.

(** The outer loop of [binit]: [for(int i=0; i<NBUK; i++)], with [n]
    buckets still to visit. *)
Fixpoint binit_buckets (n : nat) (i : nat) : M unit :=
  match n with
  | O => ret tt
  | S n' =>
      initlock (BucketLock (Z.of_nat i));;
      store (Head i) (set_next Null);;
      (if decide (i = O) then binit_bufs NBUF O (Head i) else ret tt);;
      binit_buckets n' (S i)
  end.

Definition binit : M unit :=
  initlock BcacheLock;;
  binit_buckets NBUK O.

(** The two list searches of [bget] (the [for] of the fast path and the
    [while] of the re-scan): the first node from [b] on whose identity
    is [(d, bn)], or null. *)
Fixpoint bget_find (fuel : nat) (b : ptr) (d bn : Z) : M ptr :=
  match fuel with
  | O => diverges
  | S fuel' =>
      match b with
      | Null => ret Null
      | _ =>
          n ← load b;
          if (dev n =? d) && (blockno n =? bn) then ret b
          else bget_find fuel' (next n) d bn
      end
  end.

(** The locals of the eviction scan. *)
Record scan := mkscan {
  max_timestamp : Z;
  lru_buk_id : Z;
  is_better : bool;
  prev_lru_b : ptr
}.

(** [while(prev_b->next)] over one bucket. *)
Fixpoint bget_scan_list (fuel : nat) (prev_b : ptr) (v : scan) : M scan :=
  match fuel with
  | O => diverges
  | S fuel' =>
      p ← load prev_b;
      match next p with
      | Null => ret v
      | q =>
          c ← load q;
          let v' :=
            if (refcnt c =? 0) && (to_uint (max_timestamp v) <=? timestamp c)
            then mkscan (to_int (timestamp c)) (lru_buk_id v) true prev_b
            else v in
          bget_scan_list fuel' q v'
      end
  end.

(** [for(int i=0; i<NBUK; ++i)] of the scan, with [n] buckets still to
    visit. *)
Fixpoint bget_scan_buckets (n : nat) (i : nat) (v : scan) : M scan :=
  match n with
  | O => ret v
  | S n' =>
      acquire (BucketLock (Z.of_nat i));;
      v1 ← bget_scan_list walk_fuel (Head i) v;
      v2 ← (if is_better v1 then
               (if lru_buk_id v1 =? -1 then ret tt
                     else release (BucketLock (lru_buk_id v1)));;
               ret (mkscan (max_timestamp v1) (Z.of_nat i) (is_better v1) (prev_lru_b v1))
             else
               release (BucketLock (Z.of_nat i));;
               ret v1);
      bget_scan_buckets n' (S i)
        (mkscan (max_timestamp v2) (lru_buk_id v2) false (prev_lru_b v2))
  end.

(** Lines 92-104: the fast path.  Null stands for "not cached". *)
Definition bget_cached (me : Z) (d bn : Z) : M ptr :=
  let buk_id := hash d bn in
  acquire (BucketLock buk_id);;
  h ← load (Head (Z.to_nat buk_id));
  b ← bget_find walk_fuel (next h) d bn;
  match b with
  | Null => release (BucketLock buk_id);; ret Null
  | _ =>
      n ← load b;
      store b (set_refcnt (to_uint (refcnt n + 1)));;
      release (BucketLock buk_id);;
      acquiresleep me b;;
      ret b
  end.

(** Lines 110-144: the scan of all buckets for a victim. *)
Definition bget_scan : M scan :=
  bget_scan_buckets NBUK O (mkscan 0 (-1) false Null).

(** Lines 146-152: take the victim off its list. *)
Definition bget_steal (v : scan) : M ptr :=
  p ← load (prev_lru_b v);
  let lru_b := next p in
  match lru_b with
  | Null => ret lru_b
  | _ =>
      l ← load lru_b;
      store (prev_lru_b v) (set_next (next l));;
      release (BucketLock (lru_buk_id v));;
      ret lru_b
  end.

(** Lines 154-188: put the victim into the target bucket, look again,
    and give the victim its new identity. *)
Definition bget_install (me : Z) (d bn : Z) (lru_b : ptr) : M ptr :=
  let buk_id := hash d bn in
  acquire BcacheLock;;
  acquire (BucketLock buk_id);;
  match lru_b with
  | Null => ret tt
  | _ =>
      h ← load (Head (Z.to_nat buk_id));
      store lru_b (set_next (next h));;
      store (Head (Z.to_nat buk_id)) (set_next lru_b)
  end;;
  h ← load (Head (Z.to_nat buk_id));
  b ← bget_find walk_fuel (next h) d bn;
  match b with
  | Null =>
      match lru_b with
      | Null => panic "bget: no buffers"
      | _ =>
          store lru_b (set_dev d);;
          store lru_b (set_blockno bn);;
          store lru_b (set_valid 0);;
          store lru_b (set_refcnt 1);;
          release (BucketLock buk_id);;
          release BcacheLock;;
          acquiresleep me lru_b;;
          ret lru_b
      end
  | _ =>
      n ← load b;
      store b (set_refcnt (to_uint (refcnt n + 1)));;
      release (BucketLock buk_id);;
      release BcacheLock;;
      acquiresleep me b;;
      ret b
  end.

(** [static struct buf *bget(uint dev, uint blockno)], called by process
    [me]. *)
Definition bget (me : Z) (d bn : Z) : M ptr :=
  b ← bget_cached me d bn;
  match b with
  | Null =>
      v ← bget_scan;
      lru_b ← bget_steal v;
      bget_install me d bn lru_b
  | _ => ret b
  end.

Definition bread (me : Z) (d bn : Z) : M ptr :=
  b ← bget me d bn;
  n ← load b;
  (if valid n =? 0 then
     virtio_disk_rw b false;;
     store b (set_valid 1)
   else ret tt);;
  ret b.

Definition bwrite (me : Z) (b : ptr) : M unit :=
  h ← holdingsleep me b;
  if negb h then panic "bwrite"
  else virtio_disk_rw b true.

Definition brelse (me : Z) (b : ptr) : M unit :=
  h ← holdingsleep me b;
  if negb h then panic "brelse"
  else
    releasesleep b;;
    n ← load b;
    let buk_id := hash (dev n) (blockno n) in
    acquire (BucketLock buk_id);;
    n ← load b;
    store b (set_refcnt (to_uint (refcnt n - 1)));;
    n ← load b;
    (if refcnt n =? 0 then
       t ← get_ticks;
       store b (set_timestamp t)
     else ret tt);;
    release (BucketLock buk_id).

Definition bpin (b : ptr) : M unit :=
  n ← load b;
  let buk_id := hash (dev n) (blockno n) in
  acquire (BucketLock buk_id);;
  n ← load b;
  store b (set_refcnt (to_uint (refcnt n + 1)));;
  release (BucketLock buk_id).

Definition bunpin (b : ptr) : M unit :=
  n ← load b;
  let buk_id := hash (dev n) (blockno n) in
  acquire (BucketLock buk_id);;
  n ← load b;
  store b (set_refcnt (to_uint (refcnt n - 1)));;
  release (BucketLock buk_id).

(** ** Calls, runs and schedules *)

Inductive call : Type :=
| Bget (me d bn : Z)
| Bread (me d bn : Z)
| Bwrite (me : Z) (b : ptr)
| Brelse (me : Z) (b : ptr)
| Bpin (b : ptr)
| Bunpin (b : ptr)
| Tick.

(** The state a call leaves behind: the one it returns in, or the one
    its caller went to sleep in.  A halted kernel leaves none. *)
Definition afterwards {A} (r : result A) : option state :=
  match r with
  | Ret _ s | Sleeps s => Some s
  | _ => None
  end.

Definition do_call (c : call) (s : state) : option state :=
  match c with
  | Bget me d bn => afterwards (bget me d bn s)
  | Bread me d bn => afterwards (bread me d bn s)
  | Bwrite me b => afterwards (bwrite me b s)
  | Brelse me b => afterwards (brelse me b s)
  | Bpin b => afterwards (bpin b s)
  | Bunpin b => afterwards (bunpin b s)
  | Tick => afterwards (clockintr s)
  end.

(** Calls made one after the other. *)
Fixpoint run_calls (cs : list call) (s : state) : option state :=
  match cs with
  | [] => Some s
  | c :: cs' =>
      match do_call c s with
      | Some s' => run_calls cs' s'
      | None => None
      end
  end.

Definition booted : option state := afterwards (binit boot).

Definition run_from_boot (cs : list call) : option state :=
  match booted with
  | Some s => run_calls cs s
  | None => None
  end.

(** Where a caller inside [bget] can be while others act.  [bget]
    holds no spinlock after the missed fast path (line 104); during the
    scan, between two buckets, as long as no idle slot has been met
    (line 141 lets go of each bucket's lock again while [lru_buk_id] is
    still -1); and after the victim has been taken off its list (line
    151).  At each of these places the caller has its locals: while it
    has no candidate they are the initial ones, an idle slot being a
    candidate whatever its stamp, and only the number [i] of the next
    bucket is to be kept.  From the first bucket with an idle slot to
    the steal the scan holds a bucket lock, as the fast path and the
    install do up to their last [release].  The [acquiresleep] that
    follows that [release] is taken together with it. *)
Inductive stage : Type :=
| Missed (d bn : Z)
| Scanning (d bn : Z) (i : nat)
| Stolen (d bn : Z) (lru_b : ptr).

(** The moves of a schedule: a caller enters [bget] and runs the fast
    path; a caller that missed, or that has passed some buckets, passes
    the next bucket, which has no idle slot for it; or it scans all the
    buckets left and steals; a caller that stole installs; or a whole
    call is made while nobody else acts.  Every move starts and ends
    with no spinlock held.  What the code can do beyond these schedules
    is to let a caller act while another holds a spinlock, is about to
    take a sleep-lock, or is inside a call other than [bget]. *)
Inductive move : Type :=
| Enter (me d bn : Z)
| Pass (me : Z)
| Scan (me : Z)
| Install (me : Z)
| Call (c : call).

Fixpoint stage_of (me : Z) (ts : list (Z * stage)) : option stage :=
  match ts with
  | [] => None
  | (p, g) :: ts' => if p =? me then Some g else stage_of me ts'
  end.

Fixpoint leave (me : Z) (ts : list (Z * stage)) : list (Z * stage) :=
  match ts with
  | [] => []
  | (p, g) :: ts' => if p =? me then ts' else (p, g) :: leave me ts'
  end.

(** Lines 118-144 from bucket [i] on, for [n] buckets, by a caller that
    has no candidate yet: [max_timestamp], [lru_buk_id], [is_better]
    and [prev_lru_b] are as lines 110-114 set them. *)
Definition bget_scan_from (n i : nat) : M scan :=
  bget_scan_buckets n i (mkscan 0 (-1) false Null).

(** One turn of the loop, for a caller at bucket [i]: the move is
    there when the loop has not ended and the bucket gives no
    candidate, so that line 141 releases its lock. *)
Definition do_pass (me d bn : Z) (i : nat) (s : state) (ts : list (Z * stage)) :
    option (state * list (Z * stage)) :=
  if (i <? NBUK)%nat then
    match bget_scan_from 1 i s with
    | Ret v s' =>
        if lru_buk_id v =? -1
        then Some (s', (me, Scanning d bn (S i)) :: leave me ts)
        else None
    | _ => None
    end
  else None.

Definition do_move (m : move) (c : state * list (Z * stage)) :
    option (state * list (Z * stage)) :=
  let '(s, ts) := c in
  match m with
  | Enter me d bn =>
      match stage_of me ts, bget_cached me d bn s with
      | None, Ret Null s' => Some (s', (me, Missed d bn) :: ts)
      | None, Ret _ s' => Some (s', ts)
      | None, Sleeps s' => Some (s', ts)
      | _, _ => None
      end
  | Pass me =>
      match stage_of me ts with
      | Some (Missed d bn) => do_pass me d bn O s ts
      | Some (Scanning d bn i) => do_pass me d bn i s ts
      | _ => None
      end
  | Scan me =>
      match stage_of me ts with
      | Some (Missed d bn) =>
          match (v ← bget_scan; bget_steal v) s with
          | Ret lru_b s' => Some (s', (me, Stolen d bn lru_b) :: leave me ts)
          | _ => None
          end
      | Some (Scanning d bn i) =>
          match (v ← bget_scan_from (NBUK - i) i; bget_steal v) s with
          | Ret lru_b s' => Some (s', (me, Stolen d bn lru_b) :: leave me ts)
          | _ => None
          end
      | _ => None
      end
  | Install me =>
      match stage_of me ts with
      | Some (Stolen d bn lru_b) =>
          match afterwards (bget_install me d bn lru_b s) with
          | Some s' => Some (s', leave me ts)
          | None => None
          end
      | _ => None
      end
  | Call c =>
      match do_call c s with
      | Some s' => Some (s', ts)
      | None => None
      end
  end.

Fixpoint run_moves (ms : list move) (c : state * list (Z * stage)) :
    option (state * list (Z * stage)) :=
  match ms with
  | [] => Some c
  | m :: ms' =>
      match do_move m c with
      | Some c' => run_moves ms' c'
      | None => None
      end
  end.

(** A schedule run from boot: the state it ends in and the callers that
    are still inside [bget]. *)
Definition run_schedule (ms : list move) : option (state * list (Z * stage)) :=
  match booted with
  | Some s => run_moves ms (s, [])
  | None => None
  end.

(** The slots that the callers inside [bget] carry between their steal
    and their install. *)
Fixpoint victims (ts : list (Z * stage)) : list nat :=
  match ts with
  | [] => []
  | (_, Stolen _ _ (Buf k)) :: ts' => k :: victims ts'
  | _ :: ts' => victims ts'
  end.

(** ** What the claims speak about *)

(** The slots of a list, read back by following [next] from [p]. *)
Fixpoint walk (fuel : nat) (bufs : list buf) (p : ptr) : option (list nat) :=
  match p with
  | Null => Some []
  | Head _ => None
  | Buf k =>
      match fuel with
      | O => None
      | S fuel' =>
          match bufs !! k with
          | Some b =>
              match walk fuel' bufs (next b) with
              | Some l => Some (k :: l)
              | None => None
              end
          | None => None
          end
      end
  end.

(** The lists of all buckets, in the order of the scan. *)
Definition lists_of (s : state) : option (list (list nat)) :=
  mapM (λ k, walk NBUF (bcache_buf s) (next (head k))) (bcache_buckets s).

Definition slot (s : state) (k : nat) : buf :=
  default zero_buf (bcache_buf s !! k).

Definition is_uint (z : Z) : bool := (0 <=? z) && (z <? 2 ^ 32).

(** The arrays have their declared sizes. *)
Definition shaped (s : state) : bool :=
  bool_decide (length (bcache_buf s) = NBUF) &&
  bool_decide (length (bcache_buckets s) = NBUK) &&
  bool_decide (NBUK ≠ O).

(** No spinlock is held. *)
Definition unlocked (s : state) : bool :=
  negb (held (bcache_lock s)) &&
  forallb (λ k, negb (held (bucket_lock k))) (bcache_buckets s).

(** The [uint] fields hold [uint] values. *)
Definition typed (s : state) : bool :=
  is_uint (ticks s) &&
  forallb (λ b, is_uint (refcnt b) && is_uint (timestamp b)) (bcache_buf s).

(** Every bucket's list ends in null and no slot is met twice. *)
Definition linked (s : state) : bool :=
  match lists_of s with
  | Some ls => bool_decide (NoDup (concat ls))
  | None => false
  end.

(** Membership: the lists together hold every slot of the pool, each
    once. *)
Definition complete (s : state) : bool :=
  match lists_of s with
  | Some ls =>
      forallb (λ k, bool_decide (count_occ Nat.eq_dec (concat ls) k = 1%nat)) (seq 0 NBUF)
      && bool_decide (length (concat ls) = NBUF)
  | None => false
  end.

(** A state in which no call is inside a critical section. *)
Definition wellformed (s : state) : bool :=
  shaped s && unlocked s && typed s && linked s.

(** A state between calls. *)
Definition quiescent (s : state) : bool :=
  shaped s && unlocked s && typed s && complete s.

(** The slots a scan meets, in the order it meets them, each with its
    bucket; [i] is the number of the first list. *)
Fixpoint scan_order_from (i : nat) (ls : list (list nat)) : list (nat * nat) :=
  match ls with
  | [] => []
  | l :: ls' => map (pair i) l ++ scan_order_from (S i) ls'
  end.

Definition scan_order (ls : list (list nat)) : list (nat * nat) :=
  scan_order_from O ls.

(** The slots among them that nobody references. *)
Definition idle (s : state) (ls : list (list nat)) : list (nat * nat) :=
  filter (λ ik, refcnt (slot s ik.2) = 0) (scan_order ls).

(** Those of them that a scan arrived at bucket [i] still has before
    it. *)
Definition idle_from (s : state) (ls : list (list nat)) (i : nat) : list (nat * nat) :=
  filter (λ ik, refcnt (slot s ik.2) = 0) (scan_order_from i (drop i ls)).

(** The first slot of [l] that caches block [(d, bn)]. *)
Definition cached (s : state) (d bn : Z) (l : list nat) : option nat :=
  List.find (λ k, (dev (slot s k) =? d) && (blockno (slot s k) =? bn)) l.

(** Identity uniqueness: no two referenced slots cache the same block. *)
Definition unique_identity (s : state) : Prop :=
  ∀ j k : nat,
    (j < NBUF)%nat → (k < NBUF)%nat →
    0 < refcnt (slot s j) → 0 < refcnt (slot s k) →
    dev (slot s j) = dev (slot s k) →
    blockno (slot s j) = blockno (slot s k) →
    j = k.

(** Membership, as the specification words it. *)
Definition membership (s : state) : Prop :=
  ∃ ls, lists_of s = Some ls ∧
        length ls = NBUK ∧
        (∀ k, (k < NBUF)%nat →
              ∃ i, (∃ l, ls !! i = Some l ∧ k ∈ l) ∧
                   ∀ i', (∃ l, ls !! i' = Some l ∧ k ∈ l) → i' = i) ∧
        length (concat ls) = NBUF.

(** ** Vocabulary of the proofs *)

(** The effect of a [store] that succeeds. *)
Definition poke (p : ptr) (f : buf → buf) (s : state) : state :=
  match p with
  | Null => s
  | Head i =>
      with_buckets (alter (λ k, set_head (f (head k)) k) i (bcache_buckets s)) s
  | Buf k => with_buf (alter f k (bcache_buf s)) s
  end.

(** The state in which the scan holds the lock of bucket [i], -1 standing
    for none. *)
Definition hold (i : Z) (s : state) : state :=
  if i =? -1 then s else spin_set (BucketLock i) (Spinlock true) s.

(** [b->refcnt++] on slot [k]. *)
Definition bump (k : nat) (s : state) : state :=
  poke (Buf k) (set_refcnt (to_uint (refcnt (slot s k) + 1))) s.

(** [bcache.buckets[t].head]. *)
Definition bucket_head (s : state) (t : nat) : buf :=
  default zero_buf (node (Head t) s).

(** The victim [k], which follows [prev], taken off its list. *)
Definition unlink (prev : ptr) (k : nat) (s : state) : state :=
  poke prev (set_next (next (slot s k))) s.

(** Slot [k] put at the head of bucket [t]. *)
Definition link (t k : nat) (s : state) : state :=
  poke (Head t) (set_next (Buf k))
       (poke (Buf k) (set_next (next (bucket_head s t))) s).

(** Slot [k] given the identity [(d, bn)], not valid, referenced once. *)
Definition rename (d bn : Z) (k : nat) (s : state) : state :=
  poke (Buf k) (set_refcnt 1)
       (poke (Buf k) (set_valid 0)
             (poke (Buf k) (set_blockno bn)
                   (poke (Buf k) (set_dev d) s))).

(** What the second half of [bget] does with the victim [k] once it is
    off its list: the slot it will return and the state it leaves when it
    lets go of the spinlocks.  [lt] is the target bucket's list. *)
Definition installed (d bn : Z) (k : nat) (lt : list nat) (s : state) : ptr * state :=
  let t := Z.to_nat (hash d bn) in
  match cached (link t k s) d bn (k :: lt) with
  | Some m => (Buf m, bump m (link t k s))
  | None => (Buf k, rename d bn k (link t k s))
  end.

(** The state [brelse] returns in, [n] being [*b] at the call. *)
Definition released (b : ptr) (n : buf) (s : state) : state :=
  let s2 := poke b (set_refcnt (to_uint (refcnt n - 1)))
                 (poke b (set_lock (Sleeplock false 0)) s) in
  if to_uint (refcnt n - 1) =? 0 then poke b (set_timestamp (ticks s)) s2 else s2.

(** The state [bread] returns in, [n] being [*b] when [bget] returned
    it in [s]. *)
Definition read_in (b : ptr) (n : buf) (s : state) : state :=
  if valid n =? 0 then
    poke b (set_valid 1)
         (with_io_log (io_log s ++ [DiskRead b (dev n) (blockno n)])
            (poke b (set_data (disk_lookup (dev n) (blockno n) (disk s))) s))
  else s.

(** The pointer a search returns for what [cached] finds. *)
Definition found (o : option nat) : ptr :=
  match o with
  | Some k => Buf k
  | None => Null
  end.

(** [chain bufs p l]: following [next] from [p] meets the slots [l] and
    then null. *)
Inductive chain (bufs : list buf) : ptr → list nat → Prop :=
| chain_nil : chain bufs Null []
| chain_cons k b l :
    bufs !! k = Some b → chain bufs (next b) l → chain bufs (Buf k) (k :: l).

(** The node in front of the slot that follows [l1] in bucket [i]. *)
Definition last_ptr (i : nat) (l1 : list nat) : ptr :=
  match last l1 with
  | Some k => Buf k
  | None => Head i
  end.

(** The comparison of the scan, on the slot [c] that follows [prev_b]. *)
Definition scan_step (c : buf) (prev_b : ptr) (v : scan) : scan :=
  if (refcnt c =? 0) && (to_uint (max_timestamp v) <=? timestamp c)
  then mkscan (to_int (timestamp c)) (lru_buk_id v) true prev_b
  else v.

Fixpoint scan_fold (s : state) (prev_b : ptr) (l : list nat) (v : scan) : scan :=
  match l with
  | [] => v
  | k :: l' => scan_fold s (Buf k) l' (scan_step (slot s k) prev_b v)
  end.

(** The end of the scan's iteration for bucket [i]. *)
Definition scan_close (i : nat) (v : scan) : scan :=
  mkscan (max_timestamp v)
         (if is_better v then Z.of_nat i else lru_buk_id v)
         false (prev_lru_b v).

Fixpoint scan_all (s : state) (i : nat) (ls : list (list nat)) (v : scan) : scan :=
  match ls with
  | [] => v
  | l :: ls' => scan_all s (S i) ls' (scan_close i (scan_fold s (Head i) l v))
  end.

(** What the scan has picked after it met [seen], while in (or just
    before) bucket [cur]: nothing, no met slot being idle; or the slot
    [k] of bucket [i], which is idle, whose stamp is the largest among
    the idle slots met before it and strictly larger than that of those
    met after it. *)
Inductive picked (s : state) (ls : list (list nat)) (cur : nat)
    (seen : list (nat * nat)) (v : scan) : Prop :=
| picked_none :
    (∀ ik, ik ∈ seen → refcnt (slot s ik.2) ≠ 0) →
    v = mkscan 0 (-1) false Null →
    picked s ls cur seen v
| picked_some pre i k post l1 l2 :
    seen = pre ++ (i, k) :: post →
    ls !! i = Some (l1 ++ k :: l2) →
    prev_lru_b v = last_ptr i l1 →
    refcnt (slot s k) = 0 →
    to_uint (max_timestamp v) = timestamp (slot s k) →
    (∀ ik, ik ∈ pre → refcnt (slot s ik.2) = 0 →
           timestamp (slot s ik.2) ≤ timestamp (slot s k)) →
    (∀ ik, ik ∈ post → refcnt (slot s ik.2) = 0 →
           timestamp (slot s ik.2) < timestamp (slot s k)) →
    (if is_better v then i = cur else lru_buk_id v = Z.of_nat i ∧ (i < cur)%nat) →
    picked s ls cur seen v.

(** The pool after [b] rounds of the inner loop of [binit] on the
    zeroed [bcache]: the first [b] slots are chained, the last of them
    ending the list. *)
Definition init_next (b j : nat) : ptr :=
  if decide (S j = b) then Null else Buf (S j).

Definition init_bufs (b : nat) : list buf :=
  map (λ j, set_next (init_next b j) zero_buf) (seq 0 b)
  ++ replicate (NBUF - b) zero_buf.

Definition zero_bucket : bucket := mkbucket (Spinlock false) zero_buf.

Definition init_buckets (b : nat) : list bucket :=
  match b with
  | O => replicate NBUK zero_bucket
  | S _ => alter (set_head (set_next (Buf 0) zero_buf)) O (replicate NBUK zero_bucket)
  end.

Definition chained (b : nat) : state :=
  mkstate (Spinlock false) (init_bufs b) (init_buckets b) 0 [] [].

(** The lists [binit] builds: every slot in bucket 0, in order. *)
Definition init_lists : list (list nat) :=
  <[O := seq 0 NBUF]> (replicate NBUK []).

Definition in_range (b : buf) : Prop :=
  0 ≤ refcnt b < 2 ^ 32 ∧ 0 ≤ timestamp b < 2 ^ 32.

(** A state whose lists are [ls]: the arrays have their sizes, every
    bucket's list is a chain, no slot is met twice, no spinlock is held
    and the [uint] fields are in range. *)
Record Wf (s : state) (ls : list (list nat)) : Prop := mkWf {
  wf_buf : length (bcache_buf s) = NBUF;
  wf_buckets : length (bcache_buckets s) = NBUK;
  wf_nbuk : NBUK ≠ O;
  wf_lists : length ls = NBUK;
  wf_chain : ∀ i l, ls !! i = Some l →
             ∃ h, node (Head i) s = Some h ∧ chain (bcache_buf s) (next h) l;
  wf_nodup : NoDup (concat ls);
  wf_unlocked : ∀ lk l, spin_get lk s = Some l → l = Spinlock false;
  wf_ticks : 0 ≤ ticks s < 2 ^ 32;
  wf_typed : ∀ k b, bcache_buf s !! k = Some b →
             0 ≤ refcnt b < 2 ^ 32 ∧ 0 ≤ timestamp b < 2 ^ 32
}.

(** [y] comes before [x] in [l]. *)
Definition before (l : list nat) (y x : nat) : Prop :=
  ∃ a b, l = a ++ x :: b ∧ y ∈ a.

(** Every listed slot is on the list of the bucket its identity hashes
    to. *)
Definition placed (s : state) (ls : list (list nat)) : Prop :=
  ∀ i l k, ls !! i = Some l → k ∈ l →
           Z.to_nat (hash (dev (slot s k)) (blockno (slot s k))) = i.

(** No slot in front of a referenced slot caches the same block. *)
Definition first_pinned (s : state) (ls : list (list nat)) : Prop :=
  ∀ i l y x, ls !! i = Some l → before l y x → refcnt (slot s x) ≠ 0 →
             ¬ (dev (slot s y) = dev (slot s x) ∧
                blockno (slot s y) = blockno (slot s x)).

(** A state in which slot [k] is off every list, as it is between the
    steal and the install of the caller that picked it, and nobody is
    inside a critical section. *)
Definition stolen (s : state) (k : nat) : bool :=
  wellformed s && bool_decide (k < NBUF)%nat &&
  match lists_of s with
  | Some ls => bool_decide (k ∉ concat ls)
  | None => false
  end.

(** The test of both searches of [bget], on slot [k]. *)
Definition caches (s : state) (k : nat) (d bn : Z) : bool :=
  (dev (slot s k) =? d) && (blockno (slot s k) =? bn).

(** What a schedule keeps true: every caller that has stolen carries a
    slot, and the lists together with the slots carried hold each slot
    of the pool once. *)
Definition accounted (s : state) (ts : list (Z * stage)) : Prop :=
  (∀ me d bn p, (me, Stolen d bn p) ∈ ts → ∃ k, p = Buf k) ∧
  ∃ ls, Wf s ls ∧ concat ls ++ victims ts ≡ₚ seq 0 NBUF.

(** The invariant of runs in which calls do not overlap. *)
Definition tidy (s : state) : Prop :=
  ∃ ls, Wf s ls ∧ concat ls ≡ₚ seq 0 NBUF ∧ placed s ls ∧ first_pinned s ls.

(** The fields [binit] has no business with are the same in [s] and
    [s']. *)
Definition same_identity (s s' : state) : Prop :=
  ∀ k, dev (slot s' k) = dev (slot s k) ∧ blockno (slot s' k) = blockno (slot s k) ∧
       valid (slot s' k) = valid (slot s k) ∧ refcnt (slot s' k) = refcnt (slot s k).

End Bio.

(** ** Configurations and scenarios *)

(** The kernel as it is built: NBUF is MAXOPBLOCKS*3 = 30 in param.h,
    NBUK is 13, BSIZE is 1024. *)
Definition xv6 : config := Config 30 13 1024.

(** The pool of the specification's scenario 8.6: two slots, one
    bucket. *)
Definition tiny : config := Config 2 1 4.

(** Scenario 8.6: two blocks are acquired, released one tick apart in
    the order of their acquisition, and a third block is acquired.  The
    result is the three slots returned. *)
Definition scenario_8_6 `{config} : M (ptr * ptr * ptr) :=
  binit;;
  a ← bget 1 1 10;
  b ← bget 1 1 20;
  clockintr;;
  brelse 1 a;;
  clockintr;;
  brelse 1 b;;
  c ← bget 1 1 30;
  ret (a, b, c).

(** The same with both releases in one tick. *)
Definition scenario_8_6_same_tick `{config} : M (ptr * ptr * ptr) :=
  binit;;
  a ← bget 1 1 10;
  b ← bget 1 1 20;
  clockintr;;
  brelse 1 a;;
  brelse 1 b;;
  c ← bget 1 1 30;
  ret (a, b, c).

(** A buffer is pinned, released at tick 1 and unpinned at tick 2. *)
Definition pin_release_unpin `{config} : M ptr :=
  binit;;
  a ← bget 1 1 10;
  bpin a;;
  clockintr;;
  brelse 1 a;;
  clockintr;;
  bunpin a;;
  ret a.

(** A buffer is released at tick 2 by [brelse] alone. *)
Definition release_at_2 `{config} : M ptr :=
  binit;;
  a ← bget 1 1 10;
  clockintr;;
  clockintr;;
  brelse 1 a;;
  ret a.

(** Blocks [1 .. n] of device 1, acquired by process 7 and kept. *)
Definition hoard (n : nat) : list call :=
  map (λ k, Bget 7 1 (Z.of_nat k)) (seq 1 n).

(** Two callers miss on block (1,1) one after the other and both steal
    a victim; the first installs its victim.  The second caller is then
    about to install, with a duplicate in the target bucket. *)
Definition race_for_1_1 : list move :=
  [Enter 1 1 1; Enter 2 1 1; Scan 1; Scan 2; Install 1].

(** Blocks (1,2) .. (1,28) are acquired and kept, which leaves three
    idle slots.  Three callers then miss on block (1,1) and steal one
    slot each; the first installs the block, the other two find it and
    leave their victims, with identity (0,0), in bucket 1.  Two callers
    then miss on block (0,0), and each takes one of the leftovers. *)
Definition double_race : list move :=
  map (λ k, Call (Bget 7 1 (Z.of_nat k))) (seq 2 27) ++
  [Enter 1 1 1; Enter 2 1 1; Enter 3 1 1;
   Scan 1; Scan 2; Scan 3;
   Install 1; Install 2; Install 3;
   Enter 4 0 0; Enter 5 0 0;
   Scan 4; Install 4; Scan 5; Install 5].

(** Block (1,2) is read into a slot, X, and released at tick 1.  Two
    callers miss on block (1,3): the first steals X, whose stamp is the
    largest, the second steals another slot and installs the block; the
    first finds it and leaves X in bucket 3, idle, with identity (1,2).
    Two callers then miss on block (1,2), bucket 2 being empty: the
    first steals X again, the second steals a slot Z and makes it block
    (1,2).  The first caller is then about to install X. *)
Definition reuse_race_before_install : list move :=
  [Call (Bread 1 1 2); Call Tick; Call (Brelse 1 (Buf 29));
   Enter 2 1 3; Enter 3 1 3; Scan 2; Scan 3; Install 3; Install 2;
   Enter 4 1 2; Enter 5 1 2; Scan 4; Scan 5; Install 5].

Definition reuse_race : list move :=
  reuse_race_before_install ++ [Install 4].

(** A schedule with calls of every kind around two overlapping misses
    on one block. *)
Definition mixed_schedule : list move :=
  [Call (Bget 1 1 10); Call (Bread 2 1 20); Call (Bpin (Buf 29)); Call Tick;
   Enter 3 1 30; Enter 4 1 30; Scan 3; Call (Bwrite 2 (Buf 28));
   Scan 4; Install 4; Call (Brelse 1 (Buf 29)); Install 3;
   Call (Bunpin (Buf 29)); Call (Brelse 2 (Buf 28)); Call (Bget 5 1 40)].

(** Process 7 holds all thirty slots and releases slot 5, of bucket 12.
    Process 1 misses on block (1,31) and finds nothing idle in bucket 0.
    Before it looks at bucket 1, process 8 takes slot 5 for block (1,25)
    and process 7 releases slot 4, of bucket 0. *)
Definition overtaken_scan : list move :=
  map Call (hoard 30) ++
  [Call Tick; Call (Brelse 7 (Buf 5)); Enter 1 1 31; Pass 1;
   Call (Bget 8 1 25); Call (Brelse 7 (Buf 4))].

(** The state in which a run from boot ends (the zeroed state if the
    kernel halts on the way). *)
Definition state_after `{config} (cs : list call) : state :=
  default boot (run_from_boot cs).

(** [dev], [blockno], [valid], [refcnt] and [timestamp] of slot [k]. *)
Definition view `{config} (s : state) (k : nat) : Z * Z * Z * Z * Z :=
  (dev (slot s k), blockno (slot s k), valid (slot s k),
   refcnt (slot s k), timestamp (slot s k)).

Definition schedule_state `{config} (ms : list move) : state :=
  match run_schedule ms with
  | Some (s, _) => s
  | None => boot
  end.

(** A store to a field other than [dev], [blockno], [valid] and
    [refcnt] keeps these four. *)
Ltac keeps := intros ?; repeat split; reflexivity.

(** ** Vocabulary of the further properties *)

Section More.
Context `{cfg : config}.

(** What [*b] holds apart from its link. *)
Definition payload (b : buf) : buf := set_next Null b.

(** [brelse], [bpin] and [bunpin] are meant for buffers that somebody
    references.  [referenced c s] tells whether the call [c] keeps to
    that in [s]; the other calls always do. *)
Definition referenced (c : call) (s : state) : bool :=
  match c with
  | Brelse _ (Buf k) | Bpin (Buf k) | Bunpin (Buf k) => 0 <? refcnt (slot s k)
  | _ => true
  end.

(** A run in which every call keeps to it. *)
Fixpoint careful (cs : list call) (s : state) : bool :=
  match cs with
  | [] => true
  | c :: cs' =>
      referenced c s &&
      match do_call c s with
      | Some s' => careful cs' s'
      | None => true
      end
  end.

End More.

(** * Proofs *)

Local Open Scope bio_scope.

(** ** Machine integers *)

Lemma to_uint_range z : 0 ≤ to_uint z < 2 ^ 32.
Proof. unfold to_uint. apply Z.mod_pos_bound. lia. Qed.

Lemma to_uint_id z : 0 ≤ z < 2 ^ 32 → to_uint z = z.
Proof. intros. unfold to_uint. apply Z.mod_small. lia. Qed.

Lemma to_uint_to_int z : to_uint (to_int z) = to_uint z.
Proof.
  unfold to_uint, to_int.
  rewrite Zminus_mod, Zmod_mod, <- Zminus_mod.
  replace (z + 2 ^ 31 - 2 ^ 31) with z by lia. reflexivity.
Qed.

Lemma is_uint_spec z : is_uint z = true ↔ 0 ≤ z < 2 ^ 32.
Proof. unfold is_uint. rewrite andb_true_iff, Z.leb_le, Z.ltb_lt. tauto. Qed.

(** ** The monad *)

Lemma bind_Ret {A B} (m : M A) (k : A → M B) s a s' :
  m s = Ret a s' → bind m k s = k a s'.
Proof. unfold bind. intros ->. reflexivity. Qed.

Lemma bind_Ret_inv {A B} (m : M A) (k : A → M B) s b s2 :
  bind m k s = Ret b s2 → ∃ a s1, m s = Ret a s1 ∧ k a s1 = Ret b s2.
Proof. unfold bind. destruct (m s); try discriminate. eauto. Qed.

Lemma bind_Sleeps_inv {A B} (m : M A) (k : A → M B) s s2 :
  bind m k s = Sleeps s2 →
  m s = Sleeps s2 ∨ ∃ a s1, m s = Ret a s1 ∧ k a s1 = Sleeps s2.
Proof. unfold bind. destruct (m s); try discriminate; eauto; intros [= <-]; eauto. Qed.

Lemma bind_assoc {A B C} (m : M A) (k : A → M B) (h : B → M C) s :
  bind (bind m k) h s = bind m (λ a, bind (k a) h) s.
Proof. unfold bind. destruct (m s); reflexivity. Qed.

Lemma bind_ret {A B} (a : A) (k : A → M B) s : bind (ret a) k s = k a s.
Proof. reflexivity. Qed.

Section Basics.
Context `{cfg : config}.

(** ** Loads, stores and locks *)

Lemma load_node p s b : node p s = Some b → load p s = Ret b s.
Proof. unfold load. intros ->. reflexivity. Qed.

Lemma load_Ret_inv p s b s' : load p s = Ret b s' → node p s = Some b ∧ s' = s.
Proof. unfold load. destruct (node p s); intros [=]; subst; auto. Qed.

Lemma load_null s : load Null s = Undefined NullDeref.
Proof. reflexivity. Qed.

Lemma store_poke p f s b : node p s = Some b → store p f s = Ret tt (poke p f s).
Proof. unfold store. destruct p; try discriminate; intros ->; reflexivity. Qed.

Lemma store_Ret_inv p f s u s' :
  store p f s = Ret u s' → is_Some (node p s) ∧ s' = poke p f s.
Proof.
  unfold store. destruct p; try discriminate.
  - destruct (node (Head i) s); intros [=]; subst; eauto.
  - destruct (node (Buf k) s); intros [=]; subst; eauto.
Qed.

Lemma node_poke p q f s :
  node q (poke p f s) = if decide (p = q) then f <$> node q s else node q s.
Proof.
  destruct p as [|i|k]; simpl.
  - destruct q; reflexivity.
  - destruct q as [|j|j]; simpl; try reflexivity.
    destruct (decide (i = j)) as [->|Hne].
    + rewrite decide_True by reflexivity. rewrite list_lookup_alter_eq.
      destruct (bcache_buckets s !! j); reflexivity.
    + rewrite decide_False by congruence. rewrite list_lookup_alter_ne by done.
      reflexivity.
  - destruct q as [|j|j]; simpl; try reflexivity.
    destruct (decide (k = j)) as [->|Hne].
    + rewrite decide_True by reflexivity. apply list_lookup_alter_eq.
    + rewrite decide_False by congruence. apply list_lookup_alter_ne; done.
Qed.

Lemma node_poke_eq p f s : node p (poke p f s) = f <$> node p s.
Proof. rewrite node_poke, decide_True; reflexivity. Qed.

Lemma node_poke_ne p q f s : p ≠ q → node q (poke p f s) = node q s.
Proof. intros. rewrite node_poke, decide_False; done. Qed.

Lemma node_spin_set lk v p s : node p (spin_set lk v s) = node p s.
Proof.
  destruct lk as [|i]; destruct p as [|j|j]; simpl; try reflexivity.
  destruct (decide (Z.to_nat i = j)) as [<-|Hne].
  - rewrite list_lookup_alter_eq. destruct (bcache_buckets s !! _); reflexivity.
  - rewrite list_lookup_alter_ne by done. reflexivity.
Qed.

Lemma spin_get_poke lk p f s : spin_get lk (poke p f s) = spin_get lk s.
Proof.
  destruct lk as [|i]; destruct p as [|j|j]; simpl; try reflexivity.
  destruct (0 <=? i); try reflexivity.
  destruct (decide (j = Z.to_nat i)) as [->|Hne].
  - rewrite list_lookup_alter_eq. destruct (bcache_buckets s !! _); reflexivity.
  - rewrite list_lookup_alter_ne by done. reflexivity.
Qed.

Lemma spin_get_spin_set_eq lk v s :
  spin_get lk (spin_set lk v s) = (λ _, v) <$> spin_get lk s.
Proof.
  destruct lk as [|i]; simpl; try reflexivity.
  destruct (0 <=? i); try reflexivity.
  rewrite list_lookup_alter_eq. destruct (bcache_buckets s !! _); reflexivity.
Qed.

Lemma spin_get_spin_set_ne lk lk' v s :
  lk ≠ lk' → is_Some (spin_get lk s) →
  spin_get lk' (spin_set lk v s) = spin_get lk' s.
Proof.
  intros Hne Hv. destruct lk as [|i]; destruct lk' as [|j]; simpl; try done.
  simpl in Hv. destruct (0 <=? j) eqn:Hj; try done.
  destruct (0 <=? i) eqn:Hi; [|by destruct Hv].
  apply Z.leb_le in Hi, Hj.
  rewrite list_lookup_alter_ne; [done|]. intros Heq. apply Hne. f_equal. lia.
Qed.

Lemma bcache_buf_spin_set lk v s : bcache_buf (spin_set lk v s) = bcache_buf s.
Proof. destruct lk; reflexivity. Qed.

Lemma ticks_spin_set lk v s : ticks (spin_set lk v s) = ticks s.
Proof. destruct lk; reflexivity. Qed.

Lemma ticks_poke p f s : ticks (poke p f s) = ticks s.
Proof. destruct p; reflexivity. Qed.

Lemma length_buf_poke p f s : length (bcache_buf (poke p f s)) = length (bcache_buf s).
Proof. destruct p; simpl; try reflexivity. apply length_alter. Qed.

Lemma length_buckets_poke p f s :
  length (bcache_buckets (poke p f s)) = length (bcache_buckets s).
Proof. destruct p; simpl; try reflexivity. apply length_alter. Qed.

Lemma length_buckets_spin_set lk v s :
  length (bcache_buckets (spin_set lk v s)) = length (bcache_buckets s).
Proof. destruct lk; simpl; try reflexivity. apply length_alter. Qed.

Lemma acquire_free lk s :
  spin_get lk s = Some (Spinlock false) →
  acquire lk s = Ret tt (spin_set lk (Spinlock true) s).
Proof. unfold acquire. intros ->. reflexivity. Qed.

Lemma release_some lk s l :
  spin_get lk s = Some l →
  release lk s = Ret tt (spin_set lk (Spinlock false) s).
Proof. unfold release. intros ->. reflexivity. Qed.

End Basics.

Section Chains.
Context `{cfg : config}.

(** ** Chains *)

Lemma chain_functional bufs p l l' : chain bufs p l → chain bufs p l' → l = l'.
Proof.
  intros H. revert l'. induction H as [|k b l Hk _ IH]; intros l' H'.
  - inversion H'. reflexivity.
  - inversion H' as [|k' b' l'' Hk' Hc']; subst.
    rewrite Hk in Hk'. injection Hk' as <-. f_equal. auto.
Qed.

Lemma chain_lookup bufs p l k : chain bufs p l → k ∈ l → is_Some (bufs !! k).
Proof.
  induction 1 as [|k' b l Hk _ IH]; intros Hin.
  - by apply elem_of_nil in Hin.
  - apply elem_of_cons in Hin as [->|Hin]; eauto.
Qed.

Lemma chain_lt bufs p l k : chain bufs p l → k ∈ l → (k < length bufs)%nat.
Proof.
  intros Hc Hin. destruct (chain_lookup _ _ _ _ Hc Hin) as [b Hb].
  by apply lookup_lt_Some in Hb.
Qed.

Lemma chain_alter_notin bufs p l k f :
  chain bufs p l → k ∉ l → chain (alter f k bufs) p l.
Proof.
  induction 1 as [|k' b l Hk _ IH]; intros Hnin.
  - constructor.
  - apply not_elem_of_cons in Hnin as [Hne Hnin].
    econstructor; [|by apply IH].
    by rewrite list_lookup_alter_ne.
Qed.

Lemma chain_alter_next bufs p l k f :
  (∀ b, next (f b) = next b) → chain bufs p l → chain (alter f k bufs) p l.
Proof.
  intros Hf. induction 1 as [|k' b l Hk _ IH].
  - constructor.
  - destruct (decide (k = k')) as [->|Hne].
    + apply (chain_cons _ k' (f b)).
      * by rewrite list_lookup_alter_eq, Hk.
      * by rewrite Hf.
    + econstructor; [|done]. by rewrite list_lookup_alter_ne.
Qed.

Lemma chain_app_inv bufs p l1 l2 :
  chain bufs p (l1 ++ l2) →
  ∃ q, chain bufs q l2 ∧
       match last l1 with
       | Some k => ∃ b, bufs !! k = Some b ∧ next b = q
       | None => q = p
       end.
Proof.
  revert p. induction l1 as [|k l1 IH]; intros p Hc; simpl in *.
  - eauto.
  - inversion Hc as [|k' b l Hk Hc']; subst.
    destruct (IH _ Hc') as (q & Hq & Hlast). exists q. split; [done|].
    destruct l1 as [|k1 l1]; simpl in *.
    + subst. eauto.
    + destruct (last (k1 :: l1)) eqn:E; [exact Hlast|].
      apply last_None in E. discriminate.
Qed.

Lemma chain_head_inv bufs p k l :
  chain bufs p (k :: l) → p = Buf k ∧ ∃ b, bufs !! k = Some b ∧ chain bufs (next b) l.
Proof. inversion 1; subst; eauto. Qed.

(** Taking [k] out from behind [k']. *)
Lemma chain_unlink bufs p l1 k' k l2 b :
  chain bufs p (l1 ++ k' :: k :: l2) →
  NoDup (l1 ++ k' :: k :: l2) →
  bufs !! k = Some b →
  chain (alter (set_next (next b)) k' bufs) p (l1 ++ k' :: l2).
Proof.
  revert p. induction l1 as [|k1 l1 IH]; intros p Hc Hnd Hb; simpl in *.
  - inversion Hc as [|? b' ? Hk' Hc1]; subst.
    inversion Hc1 as [|? b'' ? Hk Hc2]; subst.
    rewrite Hb in Hk. injection Hk as <-.
    apply NoDup_cons in Hnd as [Hnin Hnd].
    apply (chain_cons _ k' (set_next (next b) b')).
    + by rewrite list_lookup_alter_eq, Hk'.
    + simpl. apply chain_alter_notin; [done|].
      intros Hin. apply Hnin. by apply elem_of_cons; right.
  - inversion Hc as [|? b1 ? Hk1 Hc1]; subst.
    apply NoDup_cons in Hnd as [Hnin Hnd].
    apply (chain_cons _ k1 b1).
    + rewrite list_lookup_alter_ne; [done|].
      intros ->. apply Hnin. apply elem_of_app. right. by left.
    + by apply IH.
Qed.

Lemma walk_chain fuel bufs p l : walk fuel bufs p = Some l → chain bufs p l.
Proof.
  revert p l. induction fuel as [|fuel IH]; intros p l; destruct p as [|i|k]; simpl;
    try discriminate.
  - intros [= <-]. constructor.
  - intros [= <-]. constructor.
  - destruct (bufs !! k) as [b|] eqn:Hk; [|discriminate].
    destruct (walk fuel bufs (next b)) as [l'|] eqn:Hw; [|discriminate].
    intros [= <-]. econstructor; eauto.
Qed.

Lemma chain_walk fuel bufs p l :
  chain bufs p l → (length l ≤ fuel)%nat → walk fuel bufs p = Some l.
Proof.
  intros H. revert fuel. induction H as [|k b l Hk _ IH]; intros fuel Hlen.
  - destruct fuel; reflexivity.
  - destruct fuel as [|fuel]; simpl in *; [lia|].
    rewrite Hk, IH by lia. reflexivity.
Qed.

Lemma NoDup_below_length (l : list nat) n :
  NoDup l → (∀ k, k ∈ l → (k < n)%nat) → (length l ≤ n)%nat.
Proof.
  intros Hnd Hlt. rewrite <- (length_seq n 0%nat).
  apply NoDup_incl_length.
  - by apply NoDup_ListNoDup.
  - intros k Hin. apply in_seq. apply list_elem_of_In in Hin. specialize (Hlt _ Hin). lia.
Qed.

End Chains.

Section WellFormed.
Context `{cfg : config}.

(** ** Lists of lists *)

Lemma concat_lookup_split {A} (ls : list (list A)) i l :
  ls !! i = Some l → concat ls = concat (take i ls) ++ l ++ concat (drop (S i) ls).
Proof.
  intros H. rewrite <- (take_drop_middle ls i l H) at 1.
  rewrite concat_app. reflexivity.
Qed.

Lemma concat_insert_split {A} (ls : list (list A)) i l l' :
  ls !! i = Some l →
  concat (<[i := l']> ls) = concat (take i ls) ++ l' ++ concat (drop (S i) ls).
Proof.
  intros H. rewrite insert_take_drop by (by eapply lookup_lt_Some).
  rewrite concat_app. reflexivity.
Qed.

Lemma elem_of_concat_lookup {A} (ls : list (list A)) x :
  x ∈ concat ls ↔ ∃ i l, ls !! i = Some l ∧ x ∈ l.
Proof.
  split.
  - induction ls as [|l0 ls IH]; simpl; intros Hin.
    + by apply elem_of_nil in Hin.
    + apply elem_of_app in Hin as [Hin|Hin].
      * exists O, l0. auto.
      * destruct (IH Hin) as (i & l & Hl & Hx). exists (S i), l. auto.
  - intros (i & l & Hl & Hx). rewrite (concat_lookup_split _ _ _ Hl).
    rewrite !elem_of_app. auto.
Qed.

Lemma NoDup_concat_lookup {A} (ls : list (list A)) i l :
  NoDup (concat ls) → ls !! i = Some l → NoDup l.
Proof.
  intros Hnd Hl. rewrite (concat_lookup_split _ _ _ Hl) in Hnd.
  apply NoDup_app in Hnd as (_ & _ & Hnd).
  by apply NoDup_app in Hnd as (Hnd & _ & _).
Qed.

Lemma NoDup_concat_unique {A} (ls : list (list A)) i j l l' x :
  NoDup (concat ls) → ls !! i = Some l → ls !! j = Some l' →
  x ∈ l → x ∈ l' → i = j.
Proof.
  revert i j. induction ls as [|l0 ls IH]; intros i j Hnd Hi Hj Hx Hx'.
  - done.
  - simpl in Hnd. apply NoDup_app in Hnd as (Hnd0 & Hdis & Hnd).
    destruct i as [|i], j as [|j]; simpl in *.
    + reflexivity.
    + injection Hi as ->. exfalso. apply (Hdis x Hx).
      apply elem_of_concat_lookup. eauto.
    + injection Hj as ->. exfalso. apply (Hdis x Hx').
      apply elem_of_concat_lookup. eauto.
    + f_equal. eauto.
Qed.

(** ** States between calls *)

Lemma Wf_lists_of s ls : Wf s ls → lists_of s = Some ls.
Proof.
  intros W. unfold lists_of. apply mapM_Some_2.
  apply Forall2_same_length_lookup_2.
  - rewrite (wf_buckets _ _ W), (wf_lists _ _ W). reflexivity.
  - intros i k l Hk Hl.
    destruct (wf_chain _ _ W i l Hl) as (h & Hh & Hc).
    simpl in Hh. rewrite Hk in Hh. injection Hh as <-.
    apply chain_walk; [done|].
    rewrite <- (wf_buf _ _ W). apply NoDup_below_length.
    + eapply NoDup_concat_lookup; [apply (wf_nodup _ _ W)|done].
    + intros x Hx. by eapply chain_lt.
Qed.

Lemma lists_of_chain s ls i l :
  lists_of s = Some ls → ls !! i = Some l →
  ∃ h, node (Head i) s = Some h ∧ chain (bcache_buf s) (next h) l.
Proof.
  intros Hls Hl. apply mapM_Some_1 in Hls.
  destruct (Forall2_lookup_r _ _ _ _ _ Hls Hl) as (k & Hk & Hw).
  exists (head k). split.
  - simpl. by rewrite Hk.
  - by eapply walk_chain.
Qed.

Lemma unlocked_spec s :
  unlocked s = true ↔ ∀ lk l, spin_get lk s = Some l → l = Spinlock false.
Proof.
  unfold unlocked. rewrite andb_true_iff. split.
  - intros [Hb Hk] lk l Hlk. destruct lk as [|i]; simpl in Hlk.
    + injection Hlk as <-. destruct (bcache_lock s) as [[]]; simpl in *; done.
    + destruct (0 <=? i); [|done].
      destruct (bcache_buckets s !! Z.to_nat i) as [k|] eqn:Hi; [|done].
      injection Hlk as <-.
      rewrite forallb_forall in Hk.
      assert (Hin : In k (bcache_buckets s)).
      { apply list_elem_of_In. by eapply list_elem_of_lookup_2. }
      specialize (Hk _ Hin). destruct (bucket_lock k) as [[]]; simpl in *; done.
  - intros H. split.
    + by rewrite (H BcacheLock _ eq_refl).
    + apply forallb_forall. intros k Hin.
      apply list_elem_of_In, list_elem_of_lookup_1 in Hin as [i Hi].
      rewrite (H (BucketLock (Z.of_nat i)) (bucket_lock k)); [done|].
      simpl. replace (0 <=? Z.of_nat i) with true by (symmetry; apply Z.leb_le; lia).
      by rewrite Nat2Z.id, Hi.
Qed.

Lemma typed_spec s :
  typed s = true ↔
  0 ≤ ticks s < 2 ^ 32 ∧
  ∀ k b, bcache_buf s !! k = Some b →
         0 ≤ refcnt b < 2 ^ 32 ∧ 0 ≤ timestamp b < 2 ^ 32.
Proof.
  unfold typed. rewrite andb_true_iff, is_uint_spec, forallb_forall.
  split; intros [Ht Hb]; (split; [done|]).
  - intros k b Hk.
    assert (Hin : In b (bcache_buf s)).
    { apply list_elem_of_In. by eapply list_elem_of_lookup_2. }
    specialize (Hb _ Hin). apply andb_true_iff in Hb.
    by rewrite !is_uint_spec in Hb.
  - intros b Hin. apply list_elem_of_In, list_elem_of_lookup_1 in Hin as [k Hk].
    apply andb_true_iff. rewrite !is_uint_spec. eauto.
Qed.

Lemma shaped_spec s :
  shaped s = true ↔
  length (bcache_buf s) = NBUF ∧ length (bcache_buckets s) = NBUK ∧ NBUK ≠ O.
Proof.
  unfold shaped. rewrite !andb_true_iff, !bool_decide_eq_true. tauto.
Qed.

(** A state that passes the checks of [linked] is well formed. *)
Lemma linked_Wf s :
  shaped s = true → unlocked s = true → typed s = true → linked s = true →
  ∃ ls, lists_of s = Some ls ∧ Wf s ls.
Proof.
  intros Hs Hu Ht Hl. unfold linked in Hl.
  destruct (lists_of s) as [ls|] eqn:Hls; [|done].
  apply bool_decide_eq_true in Hl.
  apply shaped_spec in Hs as (Hb & Hk & Hn).
  apply typed_spec in Ht as [Htk Hty].
  exists ls. split; [done|]. constructor; try done.
  - apply mapM_Some_1, Forall2_length in Hls. congruence.
  - intros i l Hi. by eapply lists_of_chain.
  - by apply unlocked_spec.
Qed.

Lemma complete_spec s ls :
  length (bcache_buf s) = NBUF →
  lists_of s = Some ls →
  complete s = true ↔ concat ls ≡ₚ seq 0 NBUF.
Proof.
  intros Hb Hls. unfold complete. rewrite Hls, andb_true_iff, bool_decide_eq_true.
  rewrite forallb_forall. split.
  - intros [Hc _].
    assert (Hc' : ∀ k, (k < NBUF)%nat → count_occ Nat.eq_dec (concat ls) k = 1%nat).
    { intros k Hk. specialize (Hc k). rewrite bool_decide_eq_true in Hc.
      apply Hc, in_seq. lia. }
    assert (Hin : ∀ k, k ∈ concat ls → (k < NBUF)%nat).
    { intros k Hk. apply elem_of_concat_lookup in Hk as (i & l & Hl & Hk).
      destruct (lists_of_chain _ _ _ _ Hls Hl) as (h & _ & Hch).
      rewrite <- Hb. by eapply chain_lt. }
    apply NoDup_Permutation.
    + apply NoDup_ListNoDup, (NoDup_count_occ Nat.eq_dec). intros k.
      destruct (decide (k < NBUF)%nat) as [Hk|Hk].
      * by rewrite Hc'.
      * rewrite (proj1 (count_occ_not_In Nat.eq_dec _ _)); [lia|].
        intros Hk'. apply Hk, Hin. by apply list_elem_of_In.
    + apply NoDup_seq.
    + intros k. split.
      * intros Hk. apply elem_of_seq. specialize (Hin _ Hk). lia.
      * intros Hk. apply elem_of_seq in Hk. apply list_elem_of_In.
        apply (count_occ_In Nat.eq_dec). rewrite Hc' by lia. lia.
  - intros Hp. split.
    + intros k Hk. apply bool_decide_eq_true.
      rewrite (proj1 (Permutation_count_occ Nat.eq_dec _ _) Hp).
      apply (proj1 (NoDup_count_occ' Nat.eq_dec _)); [|done].
      apply NoDup_ListNoDup, NoDup_seq.
    + by rewrite Hp, length_seq.
Qed.

(** The checks of [quiescent], unfolded. *)
Lemma quiescent_Wf s :
  quiescent s = true →
  ∃ ls, lists_of s = Some ls ∧ Wf s ls ∧ concat ls ≡ₚ seq 0 NBUF.
Proof.
  unfold quiescent. rewrite !andb_true_iff. intros [[[Hs Hu] Ht] Hc].
  assert (Hs' := Hs). apply shaped_spec in Hs' as (Hb & _ & _).
  destruct (lists_of s) as [ls|] eqn:Hls; [|by unfold complete in Hc; rewrite Hls in Hc].
  assert (Hp : concat ls ≡ₚ seq 0 NBUF) by (by apply (complete_spec s ls Hb Hls)).
  destruct (linked_Wf s Hs Hu Ht) as (ls' & Hls' & W).
  { unfold linked. rewrite Hls. apply bool_decide_eq_true. rewrite Hp. apply NoDup_seq. }
  rewrite Hls in Hls'. injection Hls' as <-. eauto.
Qed.

Lemma Wf_quiescent s ls :
  Wf s ls → concat ls ≡ₚ seq 0 NBUF → quiescent s = true.
Proof.
  intros W Hp. unfold quiescent. rewrite !andb_true_iff. repeat split.
  - apply shaped_spec. destruct W; auto.
  - apply unlocked_spec. by destruct W.
  - apply typed_spec. destruct W; auto.
  - apply (complete_spec s ls); [by destruct W|by apply Wf_lists_of|done].
Qed.

Lemma Wf_membership s ls :
  Wf s ls → concat ls ≡ₚ seq 0 NBUF → membership s.
Proof.
  intros W Hp. exists ls. split; [by apply Wf_lists_of|].
  split; [by destruct W|]. split.
  - intros k Hk.
    assert (Hin : k ∈ concat ls).
    { rewrite Hp. apply elem_of_seq. lia. }
    apply elem_of_concat_lookup in Hin as (i & l & Hl & Hin).
    exists i. split; [eauto|].
    intros i' (l' & Hl' & Hin').
    eapply NoDup_concat_unique; eauto. by destruct W.
  - by rewrite Hp, length_seq.
Qed.

End WellFormed.

Section StateAlgebra.
Context `{cfg : config}.

(** ** Stores and lock operations commute *)

Lemma list_alter_same {A} (f : A → A) (l : list A) i x :
  l !! i = Some x → f x = x → alter f i l = l.
Proof.
  intros Hi Hf. transitivity (alter id i l).
  - apply list_alter_ext; [|done]. intros y Hy. rewrite Hi in Hy. by injection Hy as <-.
  - by apply list_alter_id.
Qed.

Lemma spin_set_id lk v s : spin_get lk s = Some v → spin_set lk v s = s.
Proof.
  destruct s as [bl bufs bks tk dk io]. destruct lk as [|i]; simpl.
  - intros [= ->]. reflexivity.
  - destruct (0 <=? i); [|done].
    destruct (bks !! Z.to_nat i) as [k|] eqn:Hk; [|done]. intros [= <-].
    unfold with_buckets; simpl. f_equal.
    eapply list_alter_same; [done|]. by destruct k.
Qed.

Lemma spin_set_spin_set lk v w s :
  spin_set lk v (spin_set lk w s) = spin_set lk v s.
Proof.
  destruct s as [bl bufs bks tk dk io]. destruct lk as [|i]; simpl; [done|].
  unfold with_buckets; simpl. f_equal.
  rewrite list_alter_alter_eq. by apply list_alter_ext.
Qed.

Lemma spin_set_comm lk lk' v w s :
  lk ≠ lk' → is_Some (spin_get lk s) → is_Some (spin_get lk' s) →
  spin_set lk v (spin_set lk' w s) = spin_set lk' w (spin_set lk v s).
Proof.
  destruct s as [bl bufs bks tk dk io].
  destruct lk as [|i], lk' as [|j]; simpl; try done.
  intros Hne Hi Hj. unfold with_buckets; simpl. f_equal.
  destruct (0 <=? i) eqn:Hi'; [|by destruct Hi].
  destruct (0 <=? j) eqn:Hj'; [|by destruct Hj].
  apply Z.leb_le in Hi', Hj'.
  apply list_alter_alter_ne. intros Heq. apply Hne. f_equal. lia.
Qed.

Lemma spin_get_spin_set_is_Some lk lk' v s :
  is_Some (spin_get lk' s) → is_Some (spin_get lk' (spin_set lk v s)).
Proof.
  destruct lk as [|i], lk' as [|j]; simpl; try done.
  destruct (0 <=? j); [|done]. rewrite !fmap_is_Some.
  intros H. apply lookup_lt_is_Some. rewrite length_alter.
  by apply lookup_lt_is_Some.
Qed.

Lemma poke_spin_set p f lk v s :
  poke p f (spin_set lk v s) = spin_set lk v (poke p f s).
Proof.
  destruct s as [bl bufs bks tk dk io].
  destruct p as [|i|k], lk as [|j]; simpl; try done.
  unfold with_buckets; simpl. f_equal.
  destruct (decide (i = Z.to_nat j)) as [->|Hne].
  - rewrite !list_alter_alter_eq. by apply list_alter_ext.
  - by apply list_alter_alter_ne.
Qed.

Lemma hold_none s : hold (-1) s = s.
Proof. reflexivity. Qed.

Lemma hold_some i s :
  0 ≤ i → hold i s = spin_set (BucketLock i) (Spinlock true) s.
Proof. intros. unfold hold. by rewrite (proj2 (Z.eqb_neq _ _)) by lia. Qed.

Lemma node_hold i p s : node p (hold i s) = node p s.
Proof. unfold hold. destruct (i =? -1); [done|]. apply node_spin_set. Qed.

Lemma bcache_buf_hold i s : bcache_buf (hold i s) = bcache_buf s.
Proof. unfold hold. destruct (i =? -1); [done|]. apply bcache_buf_spin_set. Qed.

Lemma slot_hold i s k : slot (hold i s) k = slot s k.
Proof. unfold slot. by rewrite bcache_buf_hold. Qed.

Lemma slot_lookup s k b : bcache_buf s !! k = Some b → slot s k = b.
Proof. unfold slot. by intros ->. Qed.

Lemma slot_poke_eq k f s :
  (k < length (bcache_buf s))%nat → slot (poke (Buf k) f s) k = f (slot s k).
Proof.
  intros Hk. unfold slot; simpl. rewrite list_lookup_alter_eq.
  destruct (lookup_lt_is_Some_2 _ _ Hk) as [b ->]. reflexivity.
Qed.

Lemma slot_poke_ne p k f s : p ≠ Buf k → slot (poke p f s) k = slot s k.
Proof.
  intros Hne. unfold slot.
  change (bcache_buf (poke p f s) !! k) with (node (Buf k) (poke p f s)).
  by rewrite node_poke_ne.
Qed.

Lemma node_Buf_is_Some s k :
  (k < length (bcache_buf s))%nat → is_Some (node (Buf k) s).
Proof. intros. by apply lookup_lt_is_Some. Qed.

Lemma length_buf_bump m s : length (bcache_buf (bump m s)) = length (bcache_buf s).
Proof. apply length_buf_poke. Qed.

Lemma length_buf_unlink p k s :
  length (bcache_buf (unlink p k s)) = length (bcache_buf s).
Proof. apply length_buf_poke. Qed.

Lemma length_buf_link t k s :
  length (bcache_buf (link t k s)) = length (bcache_buf s).
Proof. unfold link. by rewrite !length_buf_poke. Qed.

Lemma length_buf_rename d bn k s :
  length (bcache_buf (rename d bn k s)) = length (bcache_buf s).
Proof. unfold rename. by rewrite !length_buf_poke. Qed.

(** ** The hash *)

Lemma hash_range d bn : NBUK ≠ O → 0 ≤ hash d bn < Z.of_nat NBUK.
Proof. intros. unfold hash. apply Z.mod_pos_bound. lia. Qed.

Lemma hash_bucket d bn s ls :
  Wf s ls → ∃ l, ls !! Z.to_nat (hash d bn) = Some l.
Proof.
  intros W. apply lookup_lt_is_Some_2.
  rewrite (wf_lists _ _ W). pose proof (hash_range d bn (wf_nbuk _ _ W)). lia.
Qed.

Lemma Wf_lock_free s ls i :
  Wf s ls → 0 ≤ i < Z.of_nat NBUK →
  spin_get (BucketLock i) s = Some (Spinlock false).
Proof.
  intros W Hi.
  assert (Hs : is_Some (spin_get (BucketLock i) s)).
  { simpl. rewrite (proj2 (Z.leb_le _ _)) by lia.
    apply fmap_is_Some, lookup_lt_is_Some_2. rewrite (wf_buckets _ _ W). lia. }
  destruct Hs as [l Hl]. by rewrite Hl, (wf_unlocked _ _ W _ _ Hl).
Qed.

Lemma Wf_bcache_lock_free s ls :
  Wf s ls → spin_get BcacheLock s = Some (Spinlock false).
Proof.
  intros W. simpl. f_equal. by apply (wf_unlocked _ _ W BcacheLock).
Qed.

End StateAlgebra.

Section FastPath.
Context `{cfg : config}.

(** ** The searches *)

Lemma cached_ext s s' d bn l :
  bcache_buf s' = bcache_buf s → cached s' d bn l = cached s d bn l.
Proof. intros H. unfold cached, slot. by rewrite H. Qed.

Lemma cached_Some s d bn l k :
  cached s d bn l = Some k →
  k ∈ l ∧ dev (slot s k) = d ∧ blockno (slot s k) = bn.
Proof.
  unfold cached. intros H. apply find_some in H as [Hin Hm].
  apply andb_true_iff in Hm as [Hd Hb]. apply Z.eqb_eq in Hd, Hb.
  split; [by apply list_elem_of_In|done].
Qed.

Lemma cached_None s d bn l k :
  cached s d bn l = None → k ∈ l →
  ¬ (dev (slot s k) = d ∧ blockno (slot s k) = bn).
Proof.
  unfold cached. intros H Hin [Hd Hb].
  apply list_elem_of_In in Hin.
  pose proof (find_none _ _ H _ Hin) as Hf. simpl in Hf.
  rewrite Hd, Hb, !Z.eqb_refl in Hf. discriminate.
Qed.

Lemma bget_find_spec s d bn l :
  ∀ fuel p,
    chain (bcache_buf s) p l → (length l < fuel)%nat →
    bget_find fuel p d bn s = Ret (found (cached s d bn l)) s.
Proof.
  induction l as [|k l IH]; intros fuel p Hc Hlen.
  - inversion Hc; subst. destruct fuel; [simpl in Hlen; lia|]. reflexivity.
  - apply chain_head_inv in Hc as (-> & b & Hb & Hc).
    destruct fuel as [|fuel]; [simpl in Hlen; lia|]. simpl in Hlen.
    cbn [bget_find].
    rewrite (bind_Ret _ _ _ _ _ (load_node (Buf k) s b Hb)).
    unfold cached. cbn [List.find]. rewrite (slot_lookup _ _ _ Hb).
    destruct ((dev b =? d) && (blockno b =? bn)); [reflexivity|].
    apply IH; [done|lia].
Qed.

(** ** The fast path *)

Lemma Wf_chain_fuel s ls i l :
  Wf s ls → ls !! i = Some l → (length l < walk_fuel)%nat.
Proof.
  intros W Hl. unfold walk_fuel.
  destruct (wf_chain _ _ W i l Hl) as (h & _ & Hc).
  enough (length l ≤ NBUF)%nat by lia.
  rewrite <- (wf_buf _ _ W). apply NoDup_below_length.
  - eapply NoDup_concat_lookup; [apply (wf_nodup _ _ W)|done].
  - intros x Hx. by eapply chain_lt.
Qed.

Lemma bget_cached_miss s ls me d bn l :
  Wf s ls → ls !! Z.to_nat (hash d bn) = Some l →
  cached s d bn l = None →
  bget_cached me d bn s = Ret Null s.
Proof.
  intros W Hl Hm. unfold bget_cached.
  pose proof (hash_range d bn (wf_nbuk _ _ W)) as Hh.
  pose proof (Wf_lock_free s ls _ W Hh) as Hfree.
  rewrite (bind_Ret _ _ _ _ _ (acquire_free _ _ Hfree)).
  destruct (wf_chain _ _ W _ _ Hl) as (h & Hh' & Hc).
  erewrite bind_Ret by (apply load_node; rewrite node_spin_set; exact Hh').
  erewrite bind_Ret.
  2:{ apply bget_find_spec with (l := l).
      - by rewrite bcache_buf_spin_set.
      - by eapply Wf_chain_fuel. }
  rewrite (cached_ext s) by apply bcache_buf_spin_set. rewrite Hm. cbn [found].
  erewrite bind_Ret.
  2:{ eapply release_some. rewrite spin_get_spin_set_eq, Hfree. reflexivity. }
  unfold ret. f_equal.
  rewrite spin_set_spin_set. by apply spin_set_id.
Qed.

Lemma bget_cached_hit s ls me d bn l k :
  Wf s ls → ls !! Z.to_nat (hash d bn) = Some l →
  cached s d bn l = Some k →
  bget_cached me d bn s = (acquiresleep me (Buf k);; ret (Buf k)) (bump k s).
Proof.
  intros W Hl Hm. unfold bget_cached.
  pose proof (hash_range d bn (wf_nbuk _ _ W)) as Hh.
  pose proof (Wf_lock_free s ls _ W Hh) as Hfree.
  rewrite (bind_Ret _ _ _ _ _ (acquire_free _ _ Hfree)).
  destruct (wf_chain _ _ W _ _ Hl) as (h & Hh' & Hc).
  erewrite bind_Ret by (apply load_node; rewrite node_spin_set; exact Hh').
  erewrite bind_Ret.
  2:{ apply bget_find_spec with (l := l).
      - by rewrite bcache_buf_spin_set.
      - by eapply Wf_chain_fuel. }
  rewrite (cached_ext s) by apply bcache_buf_spin_set. rewrite Hm. cbn [found].
  apply cached_Some in Hm as (Hin & _ & _).
  destruct (chain_lookup _ _ _ _ Hc Hin) as [b Hb].
  erewrite bind_Ret by (apply load_node; rewrite node_spin_set; exact Hb).
  erewrite bind_Ret by (eapply store_poke; rewrite node_spin_set; exact Hb).
  erewrite bind_Ret.
  2:{ eapply release_some. rewrite spin_get_poke, spin_get_spin_set_eq, Hfree.
      reflexivity. }
  rewrite poke_spin_set, spin_set_spin_set, spin_set_id.
  2:{ by rewrite spin_get_poke. }
  unfold bump. by rewrite (slot_lookup _ _ _ Hb).
Qed.

End FastPath.

Section Scan.
Context `{cfg : config}.

(** ** The scan, on pointers *)

Lemma scan_fold_ext s s' prev_b l v :
  bcache_buf s' = bcache_buf s → scan_fold s' prev_b l v = scan_fold s prev_b l v.
Proof.
  intros H. revert prev_b v. induction l as [|k l IH]; intros prev_b v; simpl; [done|].
  rewrite IH. unfold slot. by rewrite H.
Qed.

Lemma scan_step_lru c prev_b v : lru_buk_id (scan_step c prev_b v) = lru_buk_id v.
Proof. unfold scan_step. by destruct (_ && _). Qed.

Lemma scan_fold_lru s prev_b l v : lru_buk_id (scan_fold s prev_b l v) = lru_buk_id v.
Proof.
  revert prev_b v. induction l as [|k l IH]; intros prev_b v; simpl; [done|].
  by rewrite IH, scan_step_lru.
Qed.

Lemma bget_scan_list_spec s l :
  ∀ fuel prev_b p v,
    node prev_b s = Some p → chain (bcache_buf s) (next p) l →
    (length l < fuel)%nat →
    bget_scan_list fuel prev_b v s = Ret (scan_fold s prev_b l v) s.
Proof.
  induction l as [|k l IH]; intros fuel prev_b p v Hp Hc Hlen;
    (destruct fuel as [|fuel]; [simpl in Hlen; lia|]); cbn [bget_scan_list].
  - rewrite (bind_Ret _ _ _ _ _ (load_node _ _ _ Hp)).
    inversion Hc as [Hn|]. reflexivity.
  - rewrite (bind_Ret _ _ _ _ _ (load_node _ _ _ Hp)).
    apply chain_head_inv in Hc as (Hn & b & Hb & Hc). rewrite Hn.
    rewrite (bind_Ret _ _ _ _ _ (load_node (Buf k) s b Hb)).
    cbn [scan_fold]. rewrite (slot_lookup _ _ _ Hb).
    apply (IH fuel (Buf k) b); [done|done|simpl in Hlen; lia].
Qed.

Lemma bget_scan_prefix_spec s ls :
  Wf s ls →
  ∀ n i v,
    (i + n ≤ NBUK)%nat → is_better v = false →
    lru_buk_id v = -1 ∨ 0 ≤ lru_buk_id v < Z.of_nat i →
    bget_scan_buckets n i v (hold (lru_buk_id v) s) =
    Ret (scan_all s i (take n (drop i ls)) v)
        (hold (lru_buk_id (scan_all s i (take n (drop i ls)) v)) s).
Proof.
  intros W. induction n as [|n IH]; intros i v Hi Hb Hid.
  - reflexivity.
  - assert (Hlt : (i < length ls)%nat) by (rewrite (wf_lists _ _ W); lia).
    destruct (lookup_lt_is_Some_2 _ _ Hlt) as [l Hl].
    rewrite (drop_S _ _ _ Hl). cbn [take bget_scan_buckets scan_all].
    assert (Hir : 0 ≤ Z.of_nat i < Z.of_nat NBUK) by lia.
    pose proof (Wf_lock_free s ls _ W Hir) as Hfree.
    assert (Hfree' : spin_get (BucketLock (Z.of_nat i)) (hold (lru_buk_id v) s)
                     = Some (Spinlock false)).
    { destruct Hid as [->|Hid]; [done|].
      rewrite hold_some by lia. rewrite spin_get_spin_set_ne; [done| |].
      - intros [= Heq]. lia.
      - rewrite (Wf_lock_free s ls _ W) by lia. done. }
    rewrite (bind_Ret _ _ _ _ _ (acquire_free _ _ Hfree')).
    destruct (wf_chain _ _ W _ _ Hl) as (h & Hh & Hc).
    erewrite bind_Ret.
    2:{ eapply bget_scan_list_spec with (l := l).
        - rewrite node_spin_set, node_hold. exact Hh.
        - by rewrite bcache_buf_spin_set, bcache_buf_hold.
        - by eapply Wf_chain_fuel. }
    rewrite (scan_fold_ext s) by (by rewrite bcache_buf_spin_set, bcache_buf_hold).
    set (v1 := scan_fold s (Head i) l v).
    assert (Hlru : lru_buk_id v1 = lru_buk_id v) by apply scan_fold_lru.
    destruct (is_better v1) eqn:Hb1.
    + (* this bucket holds the best so far *)
      assert (Hclose : scan_close i v1 =
                       mkscan (max_timestamp v1) (Z.of_nat i) false (prev_lru_b v1)).
      { unfold scan_close. by rewrite Hb1. }
      destruct Hid as [Hid|Hid].
      * rewrite Hlru, Hid, Z.eqb_refl. rewrite bind_assoc, bind_ret.
        rewrite bind_ret. cbn [max_timestamp lru_buk_id prev_lru_b].
        rewrite Hclose, hold_none.
        rewrite <- (hold_some (Z.of_nat i) s) by lia.
        apply (IH (S i)); [lia|done|right; simpl; lia].
      * rewrite Hlru. rewrite (proj2 (Z.eqb_neq _ _)) by lia.
        rewrite bind_assoc.
        erewrite bind_Ret.
        2:{ eapply release_some. rewrite hold_some by lia.
            rewrite spin_get_spin_set_ne, spin_get_spin_set_eq.
            - rewrite (Wf_lock_free s ls _ W) by lia. done.
            - intros [= Heq]. lia.
            - apply spin_get_spin_set_is_Some. by rewrite Hfree. }
        rewrite bind_ret. cbn [max_timestamp lru_buk_id prev_lru_b].
        rewrite Hclose.
        assert (Hs : spin_set (BucketLock (lru_buk_id v)) (Spinlock false)
                       (spin_set (BucketLock (Z.of_nat i)) (Spinlock true)
                          (hold (lru_buk_id v) s)) = hold (Z.of_nat i) s).
        { rewrite !hold_some by lia.
          rewrite spin_set_comm.
          - rewrite spin_set_spin_set.
            rewrite (spin_set_id (BucketLock (lru_buk_id v)) _ s); [done|].
            apply (Wf_lock_free s ls _ W). lia.
          - intros [= Heq]. lia.
          - apply spin_get_spin_set_is_Some.
            rewrite (Wf_lock_free s ls _ W) by lia. done.
          - apply spin_get_spin_set_is_Some. by rewrite Hfree. }
        rewrite Hs.
        apply (IH (S i)); [lia|done|right; simpl; lia].
    + (* it does not *)
      assert (Hclose : scan_close i v1 =
                       mkscan (max_timestamp v1) (lru_buk_id v1) false (prev_lru_b v1)).
      { unfold scan_close. by rewrite Hb1. }
      rewrite bind_assoc.
      erewrite bind_Ret.
      2:{ eapply release_some. rewrite spin_get_spin_set_eq, Hfree'. reflexivity. }
      rewrite bind_ret. rewrite Hclose.
      rewrite spin_set_spin_set, spin_set_id by done.
      replace (hold (lru_buk_id v) s) with
        (hold (lru_buk_id (mkscan (max_timestamp v1) (lru_buk_id v1) false (prev_lru_b v1))) s)
        by (simpl; by rewrite Hlru).
      apply (IH (S i)); [lia|done|simpl; rewrite Hlru; lia].
Qed.

Lemma bget_scan_buckets_spec s ls :
  Wf s ls →
  ∀ n i v,
    (i + n = NBUK)%nat → is_better v = false →
    lru_buk_id v = -1 ∨ 0 ≤ lru_buk_id v < Z.of_nat i →
    bget_scan_buckets n i v (hold (lru_buk_id v) s) =
    Ret (scan_all s i (drop i ls) v)
        (hold (lru_buk_id (scan_all s i (drop i ls) v)) s).
Proof.
  intros W n i v Hi Hb Hid.
  rewrite (bget_scan_prefix_spec s ls W n i v) by (done || lia).
  rewrite take_ge; [done|].
  rewrite length_drop, (wf_lists _ _ W). lia.
Qed.

Lemma bget_scan_spec s ls :
  Wf s ls →
  bget_scan s =
  Ret (scan_all s O ls (mkscan 0 (-1) false Null))
      (hold (lru_buk_id (scan_all s O ls (mkscan 0 (-1) false Null))) s).
Proof.
  intros W. unfold bget_scan.
  pose proof (bget_scan_buckets_spec s ls W NBUK O (mkscan 0 (-1) false Null)) as H.
  rewrite drop_0 in H. apply H; [lia|done|by left].
Qed.

End Scan.

Section Picked.
Context `{cfg : config}.

(** ** What the scan picks *)

Lemma Wf_slot_typed s ls k :
  Wf s ls →
  0 ≤ refcnt (slot s k) < 2 ^ 32 ∧ 0 ≤ timestamp (slot s k) < 2 ^ 32.
Proof.
  intros W. unfold slot. destruct (bcache_buf s !! k) as [b|] eqn:Hb; simpl.
  - by apply (wf_typed _ _ W k).
  - lia.
Qed.

Lemma scan_step_picked s ls i l1 k l2 seen v :
  Wf s ls →
  ls !! i = Some (l1 ++ k :: l2) →
  picked s ls i seen v →
  picked s ls i (seen ++ [(i, k)]) (scan_step (slot s k) (last_ptr i l1) v).
Proof.
  intros W Hl Hp.
  destruct (Wf_slot_typed s ls k W) as [_ Hts].
  unfold scan_step.
  destruct ((refcnt (slot s k) =? 0) && (to_uint (max_timestamp v) <=? timestamp (slot s k)))
    eqn:Hcond.
  - apply andb_true_iff in Hcond as [Hr Hle].
    apply Z.eqb_eq in Hr. apply Z.leb_le in Hle.
    apply (picked_some s ls i _ _ seen i k [] l1 l2); simpl; try done.
    + by rewrite to_uint_to_int, to_uint_id.
    + intros ik Hin Hidle.
      destruct Hp as [Hnone _|pre i0 k0 post l1' l2' -> _ _ _ Hmax Hpre Hpost _].
      * by destruct (Hnone _ Hin).
      * rewrite Hmax in Hle.
        apply elem_of_app in Hin as [Hin|Hin].
        { specialize (Hpre _ Hin Hidle). lia. }
        apply elem_of_cons in Hin as [->|Hin]; [simpl; lia|].
        specialize (Hpost _ Hin Hidle). lia.
    + intros ik Hin. by apply elem_of_nil in Hin.
  - apply andb_false_iff in Hcond.
    destruct Hp as [Hnone ->|pre i0 k0 post l1' l2' -> Hl' Hprev Hr0 Hmax Hpre Hpost Hown].
    + apply picked_none; [|done].
      intros ik Hin. apply elem_of_app in Hin as [Hin|Hin]; [by apply Hnone|].
      apply list_elem_of_singleton in Hin as ->. simpl.
      destruct Hcond as [Hc|Hc].
      * by apply Z.eqb_neq in Hc.
      * apply Z.leb_gt in Hc. simpl in Hc. change (to_uint 0) with 0 in Hc. lia.
    + apply (picked_some s ls i _ _ pre i0 k0 (post ++ [(i, k)]) l1' l2'); try done.
      * by rewrite <- app_assoc.
      * intros ik Hin Hidle. apply elem_of_app in Hin as [Hin|Hin]; [by apply Hpost|].
        apply list_elem_of_singleton in Hin as ->. simpl in *.
        destruct Hcond as [Hc|Hc].
        -- apply Z.eqb_neq in Hc. done.
        -- apply Z.leb_gt in Hc. lia.
Qed.

Lemma last_ptr_snoc i l k : last_ptr i (l ++ [k]) = Buf k.
Proof. unfold last_ptr. by rewrite last_snoc. Qed.

Lemma scan_fold_picked s ls i :
  Wf s ls →
  ∀ l l1 seen v,
    ls !! i = Some (l1 ++ l) →
    picked s ls i seen v →
    picked s ls i (seen ++ map (pair i) l) (scan_fold s (last_ptr i l1) l v).
Proof.
  intros W. induction l as [|k l IH]; intros l1 seen v Hl Hp; simpl.
  - by rewrite app_nil_r.
  - rewrite <- (last_ptr_snoc i l1 k).
    rewrite (cons_middle (i, k)), app_assoc.
    apply IH.
    + by rewrite <- app_assoc.
    + by eapply scan_step_picked.
Qed.

Lemma scan_close_picked s ls i seen v :
  picked s ls i seen v → picked s ls (S i) seen (scan_close i v).
Proof.
  intros [Hnone ->|pre i0 k0 post l1 l2 -> Hl Hprev Hr0 Hmax Hpre Hpost Hown].
  - by apply picked_none.
  - apply (picked_some s ls (S i) _ _ pre i0 k0 post l1 l2); try done.
    unfold scan_close; simpl. destruct (is_better v).
    + subst. split; [done|lia].
    + destruct Hown. split; [done|lia].
Qed.

Lemma scan_all_picked s ls :
  Wf s ls →
  ∀ rest i seen v,
    drop i ls = rest →
    picked s ls i seen v →
    picked s ls (i + length rest) (seen ++ scan_order_from i rest)
           (scan_all s i rest v).
Proof.
  intros W. induction rest as [|l rest IH]; intros i seen v Hd Hp; simpl.
  - by rewrite app_nil_r, Nat.add_0_r.
  - assert (Hl : ls !! i = Some l).
    { rewrite <- (Nat.add_0_r i), <- lookup_drop, Hd. done. }
    assert (Hd' : drop (S i) ls = rest).
    { rewrite (drop_S _ _ _ Hl) in Hd. by injection Hd. }
    rewrite app_assoc. replace (i + S (length rest))%nat with (S i + length rest)%nat by lia.
    apply IH; [done|].
    apply scan_close_picked.
    change (Head i) with (last_ptr i []).
    by apply scan_fold_picked.
Qed.

Lemma scan_picked s ls :
  Wf s ls →
  picked s ls NBUK (scan_order ls) (scan_all s O ls (mkscan 0 (-1) false Null)).
Proof.
  intros W.
  pose proof (scan_all_picked s ls W ls O [] (mkscan 0 (-1) false Null)) as H.
  simpl in H. rewrite (wf_lists _ _ W) in H. apply H.
  - apply drop_0.
  - apply picked_none; [|done]. intros ik Hin. by apply elem_of_nil in Hin.
Qed.

End Picked.

Section Preservation.
Context `{cfg : config}.

(** ** Well-formedness under the updates of [bget] *)

Lemma bcache_buf_poke_lookup p f s k b :
  bcache_buf (poke p f s) !! k = Some b →
  ∃ b0, bcache_buf s !! k = Some b0 ∧ (b = b0 ∨ (p = Buf k ∧ b = f b0)).
Proof.
  change (bcache_buf (poke p f s) !! k) with (node (Buf k) (poke p f s)).
  rewrite node_poke. case_decide as Hp.
  - subst. simpl. destruct (bcache_buf s !! k) as [b0|]; simpl; [|done].
    intros [= <-]. eauto.
  - simpl. eauto.
Qed.

Lemma chain_poke p f s q l :
  (∀ b, next (f b) = next b) →
  chain (bcache_buf s) q l → chain (bcache_buf (poke p f s)) q l.
Proof.
  intros Hf Hc. destruct p as [|i|k]; simpl; try done.
  by apply chain_alter_next.
Qed.

(** A store that leaves [next] alone leaves the lists alone. *)
Lemma Wf_poke_field p f s ls :
  Wf s ls →
  (∀ b, next (f b) = next b) →
  (∀ b, in_range b → in_range (f b)) →
  Wf (poke p f s) ls.
Proof.
  intros W Hn Hr. constructor.
  - rewrite length_buf_poke. apply (wf_buf _ _ W).
  - rewrite length_buckets_poke. apply (wf_buckets _ _ W).
  - apply (wf_nbuk _ _ W).
  - apply (wf_lists _ _ W).
  - intros i l Hl. destruct (wf_chain _ _ W i l Hl) as (h & Hh & Hc).
    rewrite node_poke. case_decide.
    + exists (f h). rewrite Hh. split; [done|]. rewrite Hn. by apply chain_poke.
    + exists h. split; [done|]. by apply chain_poke.
  - apply (wf_nodup _ _ W).
  - intros lk l. rewrite spin_get_poke. apply (wf_unlocked _ _ W).
  - rewrite ticks_poke. apply (wf_ticks _ _ W).
  - intros k b Hb. apply bcache_buf_poke_lookup in Hb as (b0 & Hb0 & [->|[_ ->]]).
    + by apply (wf_typed _ _ W k).
    + apply Hr. by apply (wf_typed _ _ W k).
Qed.

Lemma concat_insert_perm {A} (ls : list (list A)) i l l' :
  ls !! i = Some l → concat (<[i := l']> ls) ++ l ≡ₚ concat ls ++ l'.
Proof.
  intros Hl. rewrite (concat_insert_split _ _ _ _ Hl), (concat_lookup_split _ _ _ Hl).
  rewrite <- !app_assoc.
  apply Permutation_app_head.
  rewrite (Permutation_app_comm l'), <- !app_assoc.
  rewrite (app_assoc l), (Permutation_app_comm l (concat _)), <- app_assoc.
  reflexivity.
Qed.

Lemma concat_remove_perm (ls : list (list nat)) i l1 k l2 :
  ls !! i = Some (l1 ++ k :: l2) →
  concat ls ≡ₚ k :: concat (<[i := l1 ++ l2]> ls).
Proof.
  intros Hl. pose proof (concat_insert_perm ls i _ (l1 ++ l2) Hl) as H.
  apply (Permutation_app_inv_r (l1 ++ l2)).
  rewrite <- H. simpl.
  rewrite <- (Permutation_middle l1 l2 k).
  rewrite <- Permutation_middle. reflexivity.
Qed.

Lemma concat_add_perm (ls : list (list nat)) t lt k :
  ls !! t = Some lt →
  concat (<[t := k :: lt]> ls) ≡ₚ k :: concat ls.
Proof.
  intros Hl. pose proof (concat_insert_perm ls t _ (k :: lt) Hl) as H.
  apply (Permutation_app_inv_r lt).
  rewrite H. simpl. rewrite <- Permutation_middle. reflexivity.
Qed.

(** The node in front of a listed slot. *)
Lemma pred_node s ls i l1 k l2 :
  Wf s ls → ls !! i = Some (l1 ++ k :: l2) →
  ∃ p b, node (last_ptr i l1) s = Some p ∧ next p = Buf k ∧
         bcache_buf s !! k = Some b ∧ chain (bcache_buf s) (next b) l2.
Proof.
  intros W Hl. destruct (wf_chain _ _ W i _ Hl) as (h & Hh & Hc).
  apply chain_app_inv in Hc as (q & Hq & Hlast).
  apply chain_head_inv in Hq as (-> & b & Hb & Hc2).
  unfold last_ptr. destruct (last l1) as [k'|].
  - destruct Hlast as (b' & Hb' & Hn). exists b', b. auto.
  - subst. exists h, b. auto.
Qed.

Lemma last_ptr_not_head i j l1 : i ≠ j → last_ptr i l1 ≠ Head j.
Proof. unfold last_ptr. destruct (last l1); congruence. Qed.

(** Taking the victim off its list. *)
Lemma Wf_unlink s ls i l1 k l2 :
  Wf s ls → ls !! i = Some (l1 ++ k :: l2) →
  Wf (unlink (last_ptr i l1) k s) (<[i := l1 ++ l2]> ls) ∧
  k ∉ concat (<[i := l1 ++ l2]> ls).
Proof.
  intros W Hl.
  destruct (pred_node s ls i l1 k l2 W Hl) as (p & b & Hp & Hpn & Hb & Hc2).
  assert (Hnd : NoDup (k :: concat (<[i := l1 ++ l2]> ls))).
  { rewrite <- concat_remove_perm by done. apply (wf_nodup _ _ W). }
  apply NoDup_cons in Hnd as [Hnin Hnd].
  split; [|done]. unfold unlink. rewrite (slot_lookup _ _ _ Hb).
  assert (Hndl : NoDup (l1 ++ k :: l2)).
  { eapply NoDup_concat_lookup; [apply (wf_nodup _ _ W)|done]. }
  constructor.
  - rewrite length_buf_poke. apply (wf_buf _ _ W).
  - rewrite length_buckets_poke. apply (wf_buckets _ _ W).
  - apply (wf_nbuk _ _ W).
  - rewrite length_insert. apply (wf_lists _ _ W).
  - intros j l Hj.
    destruct (decide (i = j)) as [<-|Hne].
    + rewrite list_lookup_insert_eq in Hj by (by eapply lookup_lt_Some).
      injection Hj as <-.
      destruct (wf_chain _ _ W i _ Hl) as (h & Hh & Hc).
      unfold last_ptr in *. destruct (last l1) as [k'|] eqn:Hlast.
      * apply last_Some in Hlast as [l1' ->].
        rewrite node_poke_ne by done. exists h. split; [done|]. simpl.
        rewrite <- !app_assoc in *. simpl in *.
        by apply chain_unlink with (k := k).
      * apply last_None in Hlast as ->.
        rewrite node_poke_eq, Hh. simpl in *. eexists. split; [done|]. simpl.
        apply chain_head_inv in Hc as (_ & b' & Hb' & Hc').
        rewrite Hb in Hb'. by injection Hb' as <-.
    + rewrite list_lookup_insert_ne in Hj by done.
      destruct (wf_chain _ _ W j _ Hj) as (h & Hh & Hc).
      rewrite node_poke_ne by (by apply last_ptr_not_head).
      exists h. split; [done|].
      unfold last_ptr. destruct (last l1) as [k'|] eqn:Hlast; [|done]. simpl.
      apply chain_alter_notin; [done|]. intros Hin.
      apply Hne. eapply (NoDup_concat_unique ls i j); eauto using wf_nodup.
      apply elem_of_app. left. by apply last_Some_elem_of.
  - done.
  - intros lk l. rewrite spin_get_poke. apply (wf_unlocked _ _ W).
  - rewrite ticks_poke. apply (wf_ticks _ _ W).
  - intros x bx Hx. apply bcache_buf_poke_lookup in Hx as (b0 & Hb0 & [->|[_ ->]]);
      exact (wf_typed _ _ W x b0 Hb0).
Qed.

(** Putting it at the head of the target bucket. *)
Lemma Wf_link s ls t lt k :
  Wf s ls → ls !! t = Some lt → k ∉ concat ls → (k < NBUF)%nat →
  Wf (link t k s) (<[t := k :: lt]> ls).
Proof.
  intros W Hl Hnin Hk.
  destruct (wf_chain _ _ W t _ Hl) as (h & Hh & Hc).
  assert (Hbk : is_Some (bcache_buf s !! k)).
  { apply lookup_lt_is_Some. by rewrite (wf_buf _ _ W). }
  destruct Hbk as [bk Hbk].
  unfold link, bucket_head. rewrite Hh. simpl default.
  constructor.
  - rewrite !length_buf_poke. apply (wf_buf _ _ W).
  - rewrite !length_buckets_poke. apply (wf_buckets _ _ W).
  - apply (wf_nbuk _ _ W).
  - rewrite length_insert. apply (wf_lists _ _ W).
  - intros j l Hj.
    destruct (decide (t = j)) as [<-|Hne].
    + rewrite list_lookup_insert_eq in Hj by (by eapply lookup_lt_Some).
      injection Hj as <-.
      rewrite node_poke_eq, node_poke_ne, Hh by done. simpl.
      eexists. split; [done|]. simpl.
      apply (chain_cons _ k (set_next (next h) bk)).
      * by rewrite list_lookup_alter_eq, Hbk.
      * simpl. apply chain_alter_notin; [done|]. intros Hin. apply Hnin.
        apply elem_of_concat_lookup. eauto.
    + rewrite list_lookup_insert_ne in Hj by done.
      destruct (wf_chain _ _ W j _ Hj) as (hj & Hhj & Hcj).
      rewrite !node_poke_ne by congruence.
      exists hj. split; [done|]. simpl.
      apply chain_alter_notin; [done|]. intros Hin. apply Hnin.
      apply elem_of_concat_lookup. eauto.
  - rewrite concat_add_perm by done. apply NoDup_cons. split; [done|].
    apply (wf_nodup _ _ W).
  - intros lk l. rewrite !spin_get_poke. apply (wf_unlocked _ _ W).
  - rewrite !ticks_poke. apply (wf_ticks _ _ W).
  - intros x bx Hx.
    apply bcache_buf_poke_lookup in Hx as (b0 & Hb0 & [->|[? ->]]); [|done].
    apply bcache_buf_poke_lookup in Hb0 as (b1 & Hb1 & [->|[_ ->]]);
      exact (wf_typed _ _ W x b1 Hb1).
Qed.

End Preservation.

Section SlowPath.
Context `{cfg : config}.

(** ** Stealing and installing *)

Lemma bget_steal_none v s :
  prev_lru_b v = Null → bget_steal v s = Undefined NullDeref.
Proof. intros H. unfold bget_steal. by rewrite H. Qed.

Lemma bget_steal_spec s ls v i l1 k l2 :
  Wf s ls → ls !! i = Some (l1 ++ k :: l2) →
  prev_lru_b v = last_ptr i l1 → lru_buk_id v = Z.of_nat i →
  bget_steal v (hold (lru_buk_id v) s) = Ret (Buf k) (unlink (last_ptr i l1) k s).
Proof.
  intros W Hl Hprev Hid.
  destruct (pred_node s ls i l1 k l2 W Hl) as (p & b & Hp & Hpn & Hb & _).
  assert (Hi : 0 ≤ Z.of_nat i < Z.of_nat NBUK).
  { apply lookup_lt_Some in Hl. rewrite (wf_lists _ _ W) in Hl. lia. }
  pose proof (Wf_lock_free s ls _ W Hi) as Hfree.
  unfold bget_steal. rewrite Hprev, Hid, hold_some by lia.
  erewrite bind_Ret by (apply load_node; rewrite node_spin_set; exact Hp).
  rewrite Hpn.
  erewrite bind_Ret by (apply load_node; rewrite node_spin_set; exact Hb).
  erewrite bind_Ret by (eapply store_poke; rewrite node_spin_set; exact Hp).
  erewrite bind_Ret.
  2:{ eapply release_some. rewrite spin_get_poke, spin_get_spin_set_eq, Hfree.
      reflexivity. }
  unfold ret, unlink. f_equal.
  rewrite poke_spin_set, spin_set_spin_set, (slot_lookup _ _ _ Hb).
  apply spin_set_id. by rewrite spin_get_poke.
Qed.

Lemma locks_roundtrip lkA lkB s :
  lkA ≠ lkB →
  spin_get lkA s = Some (Spinlock false) →
  spin_get lkB s = Some (Spinlock false) →
  spin_set lkA (Spinlock false)
    (spin_set lkB (Spinlock false)
       (spin_set lkB (Spinlock true) (spin_set lkA (Spinlock true) s))) = s.
Proof.
  intros Hne HA HB.
  rewrite spin_set_spin_set.
  rewrite (spin_set_comm lkB lkA).
  - rewrite spin_set_spin_set, (spin_set_id lkB _ s HB). by apply spin_set_id.
  - done.
  - by rewrite HB.
  - by rewrite HA.
Qed.

Lemma release_after_acquire lk s :
  spin_get lk s = Some (Spinlock false) →
  release lk (spin_set lk (Spinlock true) s) = Ret tt s.
Proof.
  intros H. erewrite release_some.
  - by rewrite spin_set_spin_set, spin_set_id.
  - by rewrite spin_get_spin_set_eq, H.
Qed.

(** Leaving a section that holds two locks. *)
Lemma release_both {A} lkA lkB (m : M A) s :
  lkA ≠ lkB →
  spin_get lkA s = Some (Spinlock false) →
  spin_get lkB s = Some (Spinlock false) →
  (release lkB;; release lkA;; m)
    (spin_set lkB (Spinlock true) (spin_set lkA (Spinlock true) s)) = m s.
Proof.
  intros Hne HA HB.
  erewrite bind_Ret.
  2:{ apply release_after_acquire.
      rewrite spin_get_spin_set_ne; [done|done|by rewrite HA]. }
  erewrite bind_Ret by (by apply release_after_acquire).
  reflexivity.
Qed.

Lemma bcache_buf_link_lookup t k s x b :
  bcache_buf (link t k s) !! x = Some b →
  ∃ b0, bcache_buf s !! x = Some b0 ∧
        (b = b0 ∨ (x = k ∧ b = set_next (next (bucket_head s t)) b0)).
Proof.
  unfold link. intros H.
  apply bcache_buf_poke_lookup in H as (b0 & Hb0 & [->|[? ->]]); [|done].
  apply bcache_buf_poke_lookup in Hb0 as (b1 & Hb1 & [->|[Heq ->]]); [eauto|].
  injection Heq as <-. eauto.
Qed.

Lemma bget_install_spec s ls me d bn k lt :
  Wf s ls → ls !! Z.to_nat (hash d bn) = Some lt →
  k ∉ concat ls → (k < NBUF)%nat →
  bget_install me d bn (Buf k) s =
  (acquiresleep me (installed d bn k lt s).1;; ret (installed d bn k lt s).1)
    (installed d bn k lt s).2.
Proof.
  intros W Hl Hnin Hk.
  pose proof (hash_range d bn (wf_nbuk _ _ W)) as Hh.
  pose proof (Wf_lock_free s ls _ W Hh) as HfreeB.
  pose proof (Wf_bcache_lock_free s ls W) as HfreeA.
  pose proof (Wf_link s ls _ lt k W Hl Hnin Hk) as WL.
  set (t := Z.to_nat (hash d bn)) in *.
  set (lkB := BucketLock (hash d bn)) in *.
  destruct (wf_chain _ _ W t _ Hl) as (h & Hhd & Hc).
  assert (Hbk : is_Some (bcache_buf s !! k)).
  { apply lookup_lt_is_Some. by rewrite (wf_buf _ _ W). }
  destruct Hbk as [bk Hbk].
  unfold bget_install. fold lkB. fold t.
  rewrite (bind_Ret _ _ _ _ _ (acquire_free _ _ HfreeA)).
  erewrite bind_Ret.
  2:{ apply acquire_free. rewrite spin_get_spin_set_ne; [done|done|eauto]. }
  (* the victim goes to the head of the target bucket *)
  rewrite bind_assoc.
  erewrite bind_Ret by (apply load_node; rewrite !node_spin_set; exact Hhd).
  rewrite bind_assoc.
  erewrite bind_Ret by (eapply store_poke; rewrite !node_spin_set; exact Hbk).
  erewrite bind_Ret.
  2:{ eapply store_poke. rewrite node_poke_ne by done. rewrite !node_spin_set.
      exact Hhd. }
  rewrite !poke_spin_set.
  replace (poke (Head t) (set_next (Buf k)) (poke (Buf k) (set_next (next h)) s))
    with (link t k s).
  2:{ unfold link, bucket_head. by rewrite Hhd. }
  set (L := link t k s) in *.
  (* the second search *)
  assert (HtL : <[t := k :: lt]> ls !! t = Some (k :: lt)).
  { apply list_lookup_insert_eq. by eapply lookup_lt_Some. }
  destruct (wf_chain _ _ WL t _ HtL) as (hL & HhL & HcL).
  erewrite bind_Ret by (apply load_node; rewrite !node_spin_set; exact HhL).
  erewrite bind_Ret.
  2:{ apply bget_find_spec with (l := k :: lt).
      - by rewrite !bcache_buf_spin_set.
      - by eapply Wf_chain_fuel. }
  rewrite (cached_ext L) by (by rewrite !bcache_buf_spin_set).
  assert (HAL : spin_get BcacheLock L = Some (Spinlock false)).
  { unfold L, link. by rewrite !spin_get_poke. }
  assert (HBL : spin_get lkB L = Some (Spinlock false)).
  { unfold L, link. by rewrite !spin_get_poke. }
  assert (HkL : is_Some (node (Buf k) L)).
  { change (is_Some (bcache_buf L !! k)).
    apply lookup_lt_is_Some. by rewrite (wf_buf _ _ WL). }
  destruct HkL as [bkL HkL].
  unfold installed. fold t. fold L.
  destruct (cached L d bn (k :: lt)) as [m|] eqn:Hm; cbn [found fst snd].
  - (* somebody is there already *)
    apply cached_Some in Hm as (Hin & _ & _).
    destruct (chain_lookup _ _ _ _ HcL Hin) as [bm Hbm].
    erewrite bind_Ret by (apply load_node; rewrite !node_spin_set; exact Hbm).
    erewrite bind_Ret by (eapply store_poke; rewrite !node_spin_set; exact Hbm).
    rewrite !poke_spin_set.
    rewrite release_both; [|done|by rewrite spin_get_poke..].
    unfold bump. by rewrite (slot_lookup _ _ _ Hbm).
  - (* nobody: the victim takes the identity *)
    erewrite bind_Ret by (eapply store_poke; rewrite !node_spin_set; exact HkL).
    erewrite bind_Ret.
    2:{ eapply store_poke. rewrite node_poke_eq, !node_spin_set, HkL. done. }
    erewrite bind_Ret.
    2:{ eapply store_poke. rewrite !node_poke_eq, !node_spin_set, HkL. done. }
    erewrite bind_Ret.
    2:{ eapply store_poke. rewrite !node_poke_eq, !node_spin_set, HkL. done. }
    rewrite !poke_spin_set.
    rewrite release_both; [|done|by rewrite !spin_get_poke..].
    reflexivity.
Qed.

End SlowPath.

Section WholeBget.
Context `{cfg : config}.

(** ** [bget] as a whole *)

Lemma acquiresleep_cases me b s n :
  node b s = Some n →
  acquiresleep me b s =
  if locked (lock n) then Sleeps s
  else Ret tt (poke b (set_lock (Sleeplock true me)) s).
Proof.
  intros Hn. unfold acquiresleep.
  rewrite (bind_Ret _ _ _ _ _ (load_node _ _ _ Hn)).
  destruct (locked (lock n)); [done|]. by eapply store_poke.
Qed.

Lemma acquiresleep_Ret_inv me b s u s' :
  acquiresleep me b s = Ret u s' →
  ∃ n, node b s = Some n ∧ locked (lock n) = false ∧
       s' = poke b (set_lock (Sleeplock true me)) s.
Proof.
  unfold acquiresleep. intros H.
  apply bind_Ret_inv in H as (n & s1 & Hl & H).
  apply load_Ret_inv in Hl as [Hn ->].
  destruct (locked (lock n)) eqn:Hlk; [done|].
  apply store_Ret_inv in H as [_ ->]. eauto.
Qed.

(** The state [bget] leaves when its last step is to take the
    sleep-lock of [b] in [s]. *)
Lemma afterwards_acquiresleep me b s n :
  node b s = Some n →
  afterwards ((acquiresleep me b;; ret b) s) =
  Some (if locked (lock n) then s else poke b (set_lock (Sleeplock true me)) s).
Proof.
  intros Hn. unfold bind. rewrite (acquiresleep_cases _ _ _ _ Hn).
  by destruct (locked (lock n)).
Qed.

Lemma bind_found_hit {A} (m : M A) (b : ptr) (k : M ptr) s :
  b ≠ Null →
  bind (m;; ret b) (λ b', match b' with Null => k | _ => ret b' end) s
  = (m;; ret b) s.
Proof.
  intros Hb. unfold bind. destruct (m s); try done.
  unfold ret. by destruct b.
Qed.

Lemma bget_hit s ls me d bn lt m :
  Wf s ls → ls !! Z.to_nat (hash d bn) = Some lt →
  cached s d bn lt = Some m →
  bget me d bn s = (acquiresleep me (Buf m);; ret (Buf m)) (bump m s).
Proof.
  intros W Hl Hm. unfold bget. unfold bind at 1.
  rewrite (bget_cached_hit s ls me d bn lt m W Hl Hm).
  unfold bind, ret. by destruct (acquiresleep me (Buf m) (bump m s)).
Qed.

Lemma bget_miss s ls me d bn lt :
  Wf s ls → ls !! Z.to_nat (hash d bn) = Some lt →
  cached s d bn lt = None →
  bget me d bn s =
  (v ← bget_scan; lru_b ← bget_steal v; bget_install me d bn lru_b) s.
Proof.
  intros W Hl Hm. unfold bget.
  by rewrite (bind_Ret _ _ _ _ _ (bget_cached_miss s ls me d bn lt W Hl Hm)).
Qed.

(** The choice of the scan, read off [picked]. *)
Lemma scan_choice s ls :
  Wf s ls →
  let v := scan_all s O ls (mkscan 0 (-1) false Null) in
  ((∀ ik, ik ∈ scan_order ls → refcnt (slot s ik.2) ≠ 0) ∧
   v = mkscan 0 (-1) false Null)
  ∨ (∃ pre i k post l1 l2,
       scan_order ls = pre ++ (i, k) :: post ∧
       ls !! i = Some (l1 ++ k :: l2) ∧
       prev_lru_b v = last_ptr i l1 ∧
       lru_buk_id v = Z.of_nat i ∧
       refcnt (slot s k) = 0 ∧
       (∀ ik, ik ∈ pre → refcnt (slot s ik.2) = 0 →
              timestamp (slot s ik.2) ≤ timestamp (slot s k)) ∧
       (∀ ik, ik ∈ post → refcnt (slot s ik.2) = 0 →
              timestamp (slot s ik.2) < timestamp (slot s k))).
Proof.
  intros W v.
  destruct (scan_picked s ls W) as [Hnone Hv|pre i k post l1 l2 Hs Hl Hp Hr Hm Hpre Hpost Hown].
  - left. auto.
  - right. exists pre, i, k, post, l1, l2. repeat split; try done.
    fold v in Hown. destruct (is_better v).
    + apply lookup_lt_Some in Hl. rewrite (wf_lists _ _ W) in Hl. lia.
    + by destruct Hown.
Qed.

(** No idle slot: the miss ends in a null dereference. *)
Lemma bget_miss_none s ls me d bn lt :
  Wf s ls → ls !! Z.to_nat (hash d bn) = Some lt →
  cached s d bn lt = None →
  (∀ ik, ik ∈ scan_order ls → refcnt (slot s ik.2) ≠ 0) →
  bget me d bn s = Undefined NullDeref.
Proof.
  intros W Hl Hm Hbusy. rewrite (bget_miss s ls me d bn lt W Hl Hm).
  rewrite (bind_Ret _ _ _ _ _ (bget_scan_spec s ls W)).
  destruct (scan_choice s ls W) as [[_ Hv]|(pre & i & k & post & l1 & l2 & Hs & _ & _ & _ & Hr & _)].
  - rewrite Hv. reflexivity.
  - exfalso. apply (Hbusy (i, k)); [|done]. rewrite Hs.
    apply elem_of_app. right. by left.
Qed.

(** An idle slot: the miss steals the scan's choice and installs it. *)
Lemma bget_miss_some s ls me d bn lt i k l1 l2 lt2 :
  Wf s ls → ls !! Z.to_nat (hash d bn) = Some lt →
  cached s d bn lt = None →
  ls !! i = Some (l1 ++ k :: l2) →
  prev_lru_b (scan_all s O ls (mkscan 0 (-1) false Null)) = last_ptr i l1 →
  lru_buk_id (scan_all s O ls (mkscan 0 (-1) false Null)) = Z.of_nat i →
  <[i := l1 ++ l2]> ls !! Z.to_nat (hash d bn) = Some lt2 →
  let s2 := unlink (last_ptr i l1) k s in
  bget me d bn s =
  (acquiresleep me (installed d bn k lt2 s2).1;; ret (installed d bn k lt2 s2).1)
    (installed d bn k lt2 s2).2.
Proof.
  intros W Hl Hm Hi Hprev Hid Hl2 s2.
  rewrite (bget_miss s ls me d bn lt W Hl Hm).
  rewrite (bind_Ret _ _ _ _ _ (bget_scan_spec s ls W)).
  rewrite (bind_Ret _ _ _ _ _ (bget_steal_spec s ls _ i l1 k l2 W Hi Hprev Hid)).
  destruct (Wf_unlink s ls i l1 k l2 W Hi) as [W2 Hnin].
  apply (bget_install_spec _ _ me d bn k lt2 W2 Hl2 Hnin).
  destruct (pred_node s ls i l1 k l2 W Hi) as (_ & b & _ & _ & Hb & _).
  apply lookup_lt_Some in Hb. by rewrite (wf_buf _ _ W) in Hb.
Qed.

End WholeBget.

Section Operations.
Context `{cfg : config}.

(** ** The other operations *)

Lemma holdingsleep_node me b s n :
  node b s = Some n →
  holdingsleep me b s = Ret (locked (lock n) && (pid (lock n) =? me)) s.
Proof.
  intros Hn. unfold holdingsleep.
  by rewrite (bind_Ret _ _ _ _ _ (load_node _ _ _ Hn)).
Qed.

Lemma holdingsleep_none me b s :
  node b s = None → holdingsleep me b s = Undefined (bad_deref b).
Proof. intros Hn. unfold holdingsleep, bind, load. by rewrite Hn. Qed.

Lemma brelse_not_holding s me b n :
  node b s = Some n →
  locked (lock n) && (pid (lock n) =? me) = false →
  brelse me b s = Panic "brelse".
Proof.
  intros Hn Hh. unfold brelse.
  rewrite (bind_Ret _ _ _ _ _ (holdingsleep_node me b s n Hn)), Hh. reflexivity.
Qed.

Lemma brelse_holding s ls me b n :
  Wf s ls → node b s = Some n →
  locked (lock n) && (pid (lock n) =? me) = true →
  brelse me b s = Ret tt (released b n s).
Proof.
  intros W Hn Hh. unfold brelse.
  rewrite (bind_Ret _ _ _ _ _ (holdingsleep_node me b s n Hn)), Hh.
  cbn [negb]. unfold releasesleep.
  rewrite (bind_Ret _ _ _ _ _ (store_poke _ _ _ _ Hn)).
  set (s1 := poke b (set_lock (Sleeplock false 0)) s).
  assert (Hn1 : node b s1 = Some (set_lock (Sleeplock false 0) n)).
  { unfold s1. by rewrite node_poke_eq, Hn. }
  rewrite (bind_Ret _ _ _ _ _ (load_node _ _ _ Hn1)).
  cbn [dev blockno set_lock].
  pose proof (hash_range (dev n) (blockno n) (wf_nbuk _ _ W)) as Hr.
  assert (Hfree : spin_get (BucketLock (hash (dev n) (blockno n))) s1
                  = Some (Spinlock false)).
  { unfold s1. rewrite spin_get_poke. by apply (Wf_lock_free s ls). }
  rewrite (bind_Ret _ _ _ _ _ (acquire_free _ _ Hfree)).
  erewrite bind_Ret by (apply load_node; rewrite node_spin_set; exact Hn1).
  erewrite bind_Ret by (eapply store_poke; rewrite node_spin_set; exact Hn1).
  erewrite bind_Ret.
  2:{ apply load_node. rewrite node_poke_eq, node_spin_set, Hn1. done. }
  cbn [refcnt set_refcnt set_lock].
  unfold released. fold s1.
  destruct (to_uint (refcnt n - 1) =? 0).
  - rewrite bind_assoc. unfold get_ticks at 1.
    erewrite bind_Ret by reflexivity.
    erewrite bind_Ret.
    2:{ eapply store_poke. rewrite node_poke_eq, node_spin_set, Hn1. done. }
    rewrite !poke_spin_set, ticks_spin_set, ticks_poke.
    replace (ticks s1) with (ticks s) by (unfold s1; by rewrite ticks_poke).
    apply release_after_acquire. by rewrite !spin_get_poke.
  - rewrite bind_ret. rewrite !poke_spin_set.
    apply release_after_acquire. by rewrite !spin_get_poke.
Qed.

Lemma bwrite_not_holding s me b n :
  node b s = Some n →
  locked (lock n) && (pid (lock n) =? me) = false →
  bwrite me b s = Panic "bwrite".
Proof.
  intros Hn Hh. unfold bwrite.
  rewrite (bind_Ret _ _ _ _ _ (holdingsleep_node me b s n Hn)), Hh. reflexivity.
Qed.

Lemma bwrite_holding s me b n :
  node b s = Some n →
  locked (lock n) && (pid (lock n) =? me) = true →
  bwrite me b s =
  Ret tt (with_io_log (io_log s ++ [DiskWrite b (dev n) (blockno n)])
            (with_disk ((dev n, blockno n, data n) :: disk s) s)).
Proof.
  intros Hn Hh. unfold bwrite.
  rewrite (bind_Ret _ _ _ _ _ (holdingsleep_node me b s n Hn)), Hh.
  cbn [negb]. unfold virtio_disk_rw.
  by rewrite (bind_Ret _ _ _ _ _ (load_node _ _ _ Hn)).
Qed.

Lemma bpin_run s ls b n :
  Wf s ls → node b s = Some n →
  bpin b s = Ret tt (poke b (set_refcnt (to_uint (refcnt n + 1))) s).
Proof.
  intros W Hn. unfold bpin.
  rewrite (bind_Ret _ _ _ _ _ (load_node _ _ _ Hn)).
  pose proof (hash_range (dev n) (blockno n) (wf_nbuk _ _ W)) as Hr.
  pose proof (Wf_lock_free s ls _ W Hr) as Hfree.
  rewrite (bind_Ret _ _ _ _ _ (acquire_free _ _ Hfree)).
  erewrite bind_Ret by (apply load_node; rewrite node_spin_set; exact Hn).
  erewrite bind_Ret by (eapply store_poke; rewrite node_spin_set; exact Hn).
  rewrite poke_spin_set. apply release_after_acquire. by rewrite spin_get_poke.
Qed.

Lemma bunpin_run s ls b n :
  Wf s ls → node b s = Some n →
  bunpin b s = Ret tt (poke b (set_refcnt (to_uint (refcnt n - 1))) s).
Proof.
  intros W Hn. unfold bunpin.
  rewrite (bind_Ret _ _ _ _ _ (load_node _ _ _ Hn)).
  pose proof (hash_range (dev n) (blockno n) (wf_nbuk _ _ W)) as Hr.
  pose proof (Wf_lock_free s ls _ W Hr) as Hfree.
  rewrite (bind_Ret _ _ _ _ _ (acquire_free _ _ Hfree)).
  erewrite bind_Ret by (apply load_node; rewrite node_spin_set; exact Hn).
  erewrite bind_Ret by (eapply store_poke; rewrite node_spin_set; exact Hn).
  rewrite poke_spin_set. apply release_after_acquire. by rewrite spin_get_poke.
Qed.

Lemma load_none p s : node p s = None → load p s = Undefined (bad_deref p).
Proof. unfold load. by intros ->. Qed.

(** ** Well-formedness under the other updates *)

Lemma Wf_with_io_log v s ls : Wf s ls → Wf (with_io_log v s) ls.
Proof. intros []. by constructor. Qed.

Lemma Wf_with_disk v s ls : Wf s ls → Wf (with_disk v s) ls.
Proof. intros []. by constructor. Qed.

Lemma Wf_with_ticks v s ls : 0 ≤ v < 2 ^ 32 → Wf s ls → Wf (with_ticks v s) ls.
Proof. intros ? []. by constructor. Qed.

Lemma in_range_set_lock v b : in_range b → in_range (set_lock v b).
Proof. done. Qed.
Lemma in_range_set_refcnt v b : 0 ≤ v < 2 ^ 32 → in_range b → in_range (set_refcnt v b).
Proof. intros ? [? ?]. by split. Qed.
Lemma in_range_set_timestamp v b : 0 ≤ v < 2 ^ 32 → in_range b → in_range (set_timestamp v b).
Proof. intros ? [? ?]. by split. Qed.

Lemma Wf_bump k s ls : Wf s ls → Wf (bump k s) ls.
Proof.
  intros W. apply Wf_poke_field; [done|done|].
  intros b. apply in_range_set_refcnt, to_uint_range.
Qed.

Lemma Wf_rename d bn k s ls : Wf s ls → Wf (rename d bn k s) ls.
Proof.
  intros W. unfold rename.
  repeat (apply Wf_poke_field; [|done|]); try done.
  intros b. by apply in_range_set_refcnt.
Qed.

Lemma Wf_set_lock b v s ls : Wf s ls → Wf (poke b (set_lock v) s) ls.
Proof. intros W. by apply Wf_poke_field. Qed.

Lemma Wf_released b n s ls : Wf s ls → Wf (released b n s) ls.
Proof.
  intros W. unfold released.
  assert (W2 : Wf (poke b (set_refcnt (to_uint (refcnt n - 1)))
                     (poke b (set_lock (Sleeplock false 0)) s)) ls).
  { apply Wf_poke_field; [by apply Wf_set_lock|done|].
    intros x. apply in_range_set_refcnt, to_uint_range. }
  destruct (_ =? 0); [|done].
  apply Wf_poke_field; [done|done|].
  intros x. apply in_range_set_timestamp, (wf_ticks _ _ W).
Qed.

Lemma Wf_installed s ls d bn k lt :
  Wf s ls → ls !! Z.to_nat (hash d bn) = Some lt →
  k ∉ concat ls → (k < NBUF)%nat →
  Wf (installed d bn k lt s).2 (<[Z.to_nat (hash d bn) := k :: lt]> ls) ∧
  is_Some (node (installed d bn k lt s).1 (installed d bn k lt s).2).
Proof.
  intros W Hl Hnin Hk.
  pose proof (Wf_link s ls _ lt k W Hl Hnin Hk) as WL.
  unfold installed.
  destruct (cached _ d bn (k :: lt)) as [m|] eqn:Hm; cbn [fst snd].
  - pose proof (Wf_bump m _ _ WL) as WB. split; [done|].
    apply cached_Some in Hm as (Hin & _).
    apply node_Buf_is_Some. rewrite (wf_buf _ _ WB).
    apply elem_of_cons in Hin as [->|Hin]; [done|].
    destruct (wf_chain _ _ W _ _ Hl) as (h & _ & Hc).
    rewrite <- (wf_buf _ _ W). by eapply chain_lt.
  - pose proof (Wf_rename d bn k _ _ WL) as WR. split; [done|].
    apply node_Buf_is_Some. by rewrite (wf_buf _ _ WR).
Qed.

(** The last step of [bget], on a well-formed state. *)
Lemma afterwards_tail me b s ls s' :
  Wf s ls → is_Some (node b s) →
  afterwards ((acquiresleep me b;; ret b) s) = Some s' →
  Wf s' ls.
Proof.
  intros W [n Hn]. rewrite (afterwards_acquiresleep _ _ _ _ Hn).
  intros [= <-]. destruct (locked (lock n)); [done|]. by apply Wf_set_lock.
Qed.

Lemma afterwards_bind {A B} (m : M A) (k : A → M B) s s' :
  afterwards (bind m k s) = Some s' →
  m s = Sleeps s' ∨ ∃ a s1, m s = Ret a s1 ∧ afterwards (k a s1) = Some s'.
Proof.
  unfold bind. destruct (m s) as [a s1| | |s1| |]; simpl; try done.
  - eauto.
  - intros [= <-]. by left.
Qed.

(** [bget] keeps a well-formed state well formed and moves no slot off
    the lists. *)
Lemma bget_Wf s ls me d bn s' :
  Wf s ls →
  afterwards (bget me d bn s) = Some s' →
  ∃ ls', Wf s' ls' ∧ concat ls' ≡ₚ concat ls.
Proof.
  intros W Ha.
  destruct (hash_bucket d bn s ls W) as [lt Hl].
  destruct (cached s d bn lt) as [m|] eqn:Hm.
  - rewrite (bget_hit s ls me d bn lt m W Hl Hm) in Ha.
    exists ls. split; [|done].
    apply (afterwards_tail me (Buf m) (bump m s)); [by apply Wf_bump| |done].
    apply cached_Some in Hm as (Hin & _).
    destruct (wf_chain _ _ W _ _ Hl) as (h & _ & Hc).
    apply node_Buf_is_Some. rewrite length_buf_bump. by eapply chain_lt.
  - destruct (scan_choice s ls W) as
      [[Hbusy _]|(pre & i & k & post & l1 & l2 & _ & Hi & Hprev & Hid & _)].
    + by rewrite (bget_miss_none s ls me d bn lt W Hl Hm Hbusy) in Ha.
    + assert (Hl2 : is_Some (<[i := l1 ++ l2]> ls !! Z.to_nat (hash d bn))).
      { apply lookup_lt_is_Some. rewrite length_insert. by eapply lookup_lt_Some. }
      destruct Hl2 as [lt2 Hl2].
      rewrite (bget_miss_some s ls me d bn lt i k l1 l2 lt2 W Hl Hm Hi Hprev Hid Hl2) in Ha.
      destruct (Wf_unlink s ls i l1 k l2 W Hi) as [W2 Hnin].
      assert (Hk : (k < NBUF)%nat).
      { destruct (pred_node s ls i l1 k l2 W Hi) as (_ & b & _ & _ & Hb & _).
        apply lookup_lt_Some in Hb. by rewrite (wf_buf _ _ W) in Hb. }
      destruct (Wf_installed _ _ d bn k lt2 W2 Hl2 Hnin Hk) as [W3 Hn3].
      eexists. split; [exact (afterwards_tail _ _ _ _ _ W3 Hn3 Ha)|].
      rewrite concat_add_perm by done.
      by rewrite <- concat_remove_perm.
Qed.

End Operations.

Section Calls.
Context `{cfg : config}.

(** ** [bread] *)

Lemma node_with_io_log p v s : node p (with_io_log v s) = node p s.
Proof. by destruct p. Qed.

Lemma io_log_poke p f s : io_log (poke p f s) = io_log s.
Proof. by destruct p. Qed.

Lemma disk_poke p f s : disk (poke p f s) = disk s.
Proof. by destruct p. Qed.

Lemma bread_after_bget me d bn s b s1 n :
  bget me d bn s = Ret b s1 → node b s1 = Some n →
  bread me d bn s = Ret b (read_in b n s1).
Proof.
  intros Hg Hn. unfold bread.
  rewrite (bind_Ret _ _ _ _ _ Hg).
  rewrite (bind_Ret _ _ _ _ _ (load_node _ _ _ Hn)).
  unfold read_in. destruct (valid n =? 0); [|reflexivity].
  rewrite bind_assoc. unfold virtio_disk_rw.
  rewrite bind_assoc.
  rewrite (bind_Ret _ _ _ _ _ (load_node _ _ _ Hn)).
  rewrite bind_assoc. erewrite bind_Ret by reflexivity.
  rewrite bind_assoc.
  rewrite (bind_Ret _ _ _ _ _ (store_poke _ _ _ _ Hn)).
  erewrite bind_Ret by reflexivity.
  erewrite bind_Ret.
  2:{ eapply store_poke. rewrite node_with_io_log, node_poke_eq, Hn. done. }
  by rewrite io_log_poke.
Qed.

(** Whenever [bget] returns, its last step was to take the sleep-lock of
    the slot it returns. *)
Lemma tail_Ret_inv me b s b' s' :
  (acquiresleep me b;; ret b) s = Ret b' s' →
  b' = b ∧ ∃ n, node b s = Some n ∧ s' = poke b (set_lock (Sleeplock true me)) s.
Proof.
  intros H. apply bind_Ret_inv in H as (u & s1 & Ha & Hr).
  injection Hr as <- <-.
  apply acquiresleep_Ret_inv in Ha as (n & Hn & _ & ->). eauto.
Qed.

Lemma bget_cached_Ret_inv me d bn s b s' :
  bget_cached me d bn s = Ret b s' →
  b = Null ∨ ∃ n, node b s' = Some n ∧ lock n = Sleeplock true me.
Proof.
  unfold bget_cached. intros H.
  apply bind_Ret_inv in H as (? & s1 & _ & H).
  apply bind_Ret_inv in H as (h & s2 & _ & H).
  apply bind_Ret_inv in H as (b0 & s3 & _ & H).
  destruct b0 as [|i|k].
  - apply bind_Ret_inv in H as (? & s4 & _ & H). injection H as <- <-. by left.
  - apply bind_Ret_inv in H as (n & s4 & _ & H).
    apply bind_Ret_inv in H as (? & s5 & _ & H).
    apply bind_Ret_inv in H as (? & s6 & _ & H).
    apply tail_Ret_inv in H as (-> & n' & Hn' & ->).
    right. rewrite node_poke_eq, Hn'. eauto.
  - apply bind_Ret_inv in H as (n & s4 & _ & H).
    apply bind_Ret_inv in H as (? & s5 & _ & H).
    apply bind_Ret_inv in H as (? & s6 & _ & H).
    apply tail_Ret_inv in H as (-> & n' & Hn' & ->).
    right. rewrite node_poke_eq, Hn'. eauto.
Qed.

Lemma bget_install_Ret_inv me d bn lru_b s b s' :
  bget_install me d bn lru_b s = Ret b s' →
  ∃ n, node b s' = Some n ∧ lock n = Sleeplock true me.
Proof.
  unfold bget_install. intros H.
  apply bind_Ret_inv in H as (? & s1 & _ & H).
  apply bind_Ret_inv in H as (? & s2 & _ & H).
  apply bind_Ret_inv in H as (? & s3 & _ & H).
  apply bind_Ret_inv in H as (h & s4 & _ & H).
  apply bind_Ret_inv in H as (b0 & s5 & _ & H).
  assert (Hfound : ∀ p, p ≠ Null →
    (n ← load p; store p (set_refcnt (to_uint (refcnt n + 1)));;
     release (BucketLock (hash d bn));; release BcacheLock;;
     acquiresleep me p;; ret p) s5 = Ret b s' →
    ∃ n, node b s' = Some n ∧ lock n = Sleeplock true me).
  { intros p _ Hp.
    apply bind_Ret_inv in Hp as (n & s6 & _ & Hp).
    apply bind_Ret_inv in Hp as (? & s7 & _ & Hp).
    apply bind_Ret_inv in Hp as (? & s8 & _ & Hp).
    apply bind_Ret_inv in Hp as (? & s9 & _ & Hp).
    apply tail_Ret_inv in Hp as (-> & n' & Hn' & ->).
    rewrite node_poke_eq, Hn'. eauto. }
  assert (Hfresh : ∀ p, p ≠ Null →
    (store p (set_dev d);; store p (set_blockno bn);; store p (set_valid 0);;
     store p (set_refcnt 1);; release (BucketLock (hash d bn));;
     release BcacheLock;; acquiresleep me p;; ret p) s5 = Ret b s' →
    ∃ n, node b s' = Some n ∧ lock n = Sleeplock true me).
  { intros p _ Hp.
    apply bind_Ret_inv in Hp as (? & s6 & _ & Hp).
    apply bind_Ret_inv in Hp as (? & s7 & _ & Hp).
    apply bind_Ret_inv in Hp as (? & s8 & _ & Hp).
    apply bind_Ret_inv in Hp as (? & s9 & _ & Hp).
    apply bind_Ret_inv in Hp as (? & s10 & _ & Hp).
    apply bind_Ret_inv in Hp as (? & s11 & _ & Hp).
    apply tail_Ret_inv in Hp as (-> & n' & Hn' & ->).
    rewrite node_poke_eq, Hn'. eauto. }
  destruct b0 as [|i|k].
  - destruct lru_b as [|i|k]; [done| |].
    + by apply (Hfresh (Head i)).
    + by apply (Hfresh (Buf k)).
  - by apply (Hfound (Head i)).
  - by apply (Hfound (Buf k)).
Qed.

Lemma bget_Ret_inv me d bn s b s' :
  bget me d bn s = Ret b s' →
  ∃ n, node b s' = Some n ∧ lock n = Sleeplock true me.
Proof.
  unfold bget. intros H.
  apply bind_Ret_inv in H as (b0 & s1 & Hc & H).
  destruct (bget_cached_Ret_inv _ _ _ _ _ _ Hc) as [->|Hlk].
  - apply bind_Ret_inv in H as (v & s2 & _ & H).
    apply bind_Ret_inv in H as (lru_b & s3 & _ & H).
    by eapply bget_install_Ret_inv.
  - destruct b0; [by destruct Hlk as (? & ? & _)| |]; by injection H as <- <-.
Qed.

End Calls.

Section Binit.
Context `{cfg : config}.

(** ** [binit] on the zeroed [bcache] *)

Lemma poke_same p f s n : node p s = Some n → f n = n → poke p f s = s.
Proof.
  destruct s as [bl bufs bks tk dk io]. destruct p as [|i|k]; simpl; try done.
  - destruct (bks !! i) as [bk|] eqn:Hi; [|done]. intros [= <-] Hf.
    unfold with_buckets; simpl. f_equal.
    eapply list_alter_same; [done|]. rewrite Hf. by destruct bk.
  - intros Hk Hf. unfold with_buf; simpl. f_equal. by eapply list_alter_same.
Qed.

Lemma store_same p f s n : node p s = Some n → f n = n → store p f s = Ret tt s.
Proof.
  intros Hn Hf. rewrite (store_poke _ _ _ _ Hn). f_equal. by eapply poke_same.
Qed.

Lemma init_bufs_lookup b j :
  (b ≤ NBUF)%nat →
  init_bufs b !! j =
  if decide (j < b)%nat then Some (set_next (init_next b j) zero_buf)
  else if decide (j < NBUF)%nat then Some zero_buf else None.
Proof.
  intros Hb. unfold init_bufs. case_decide as Hj.
  - rewrite lookup_app_l by (by rewrite length_map, length_seq).
    rewrite list_lookup_fmap, lookup_seq_lt by done. reflexivity.
  - rewrite lookup_app_r by (rewrite length_map, length_seq; lia).
    rewrite length_map, length_seq. case_decide.
    + rewrite lookup_replicate_2 by lia. reflexivity.
    + apply lookup_replicate_None. lia.
Qed.

Lemma boot_chained : boot = chained O.
Proof.
  unfold boot, chained, init_bufs. simpl. by rewrite Nat.sub_0_r.
Qed.

Lemma chained_S b :
  (b < NBUF)%nat →
  poke (match b with O => Head O | S b' => Buf b' end) (set_next (Buf b)) (chained b)
  = chained (S b).
Proof.
  intros Hb. unfold chained. destruct b as [|b']; simpl.
  - unfold with_buckets; simpl. f_equal.
    + unfold init_bufs. simpl. rewrite Nat.sub_0_r.
      destruct NBUF as [|n]; [lia|]. simpl. by rewrite Nat.sub_0_r.
    + apply list_alter_ext; [|done]. intros x Hx.
      by apply lookup_replicate in Hx as [-> _].
  - unfold with_buf; simpl. f_equal.
    apply list_eq. intros j.
    rewrite list_lookup_alter, !init_bufs_lookup by lia.
    unfold init_next.
    repeat case_decide; simpl; try done; try lia; subst; try lia; reflexivity.
Qed.

Lemma binit_bufs_chained :
  NBUK ≠ O →
  ∀ n b, (b + n = NBUF)%nat →
    binit_bufs n b (match b with O => Head O | S b' => Buf b' end) (chained b)
    = Ret tt (chained NBUF).
Proof.
  intros Hk. induction n as [|n IH]; intros b Hb.
  - simpl. replace b with NBUF by lia. reflexivity.
  - cbn [binit_bufs].
    assert (Hzero : node (Buf b) (chained b) = Some zero_buf).
    { simpl. rewrite init_bufs_lookup by lia.
      rewrite decide_False, decide_True by lia. reflexivity. }
    erewrite bind_Ret.
    2:{ instantiate (1 := chained b). instantiate (1 := tt).
        case_decide; [|done]. by eapply store_same. }
    assert (Hprev : is_Some (node (match b with O => Head O | S b' => Buf b' end) (chained b))).
    { destruct b as [|b']; simpl.
      - apply fmap_is_Some, lookup_lt_is_Some. rewrite length_replicate. lia.
      - rewrite init_bufs_lookup by lia. rewrite decide_True by lia. eauto. }
    destruct Hprev as [np Hprev].
    rewrite (bind_Ret _ _ _ _ _ (store_poke _ _ _ _ Hprev)).
    rewrite chained_S by lia.
    unfold get_ticks at 1. erewrite bind_Ret by reflexivity.
    assert (Hzero' : node (Buf b) (chained (S b)) = Some zero_buf).
    { simpl. rewrite init_bufs_lookup by lia.
      rewrite decide_True by lia. unfold init_next.
      rewrite decide_True by lia. reflexivity. }
    erewrite bind_Ret by (by eapply store_same).
    unfold initsleeplock.
    erewrite bind_Ret by (by eapply store_same).
    apply (IH (S b)). lia.
Qed.

Lemma initlock_free lk s :
  spin_get lk s = Some (Spinlock false) → initlock lk s = Ret tt s.
Proof.
  intros H. unfold initlock. rewrite H. f_equal. by apply spin_set_id.
Qed.

Lemma spin_get_bucket i s bk :
  bcache_buckets s !! i = Some bk →
  spin_get (BucketLock (Z.of_nat i)) s = Some (bucket_lock bk).
Proof.
  intros H. simpl. rewrite (proj2 (Z.leb_le _ _)) by lia.
  by rewrite Nat2Z.id, H.
Qed.

Lemma init_buckets_lookup b j :
  (1 ≤ j < NBUK)%nat → init_buckets b !! j = Some zero_bucket.
Proof.
  intros Hj. unfold init_buckets. destruct b.
  - apply lookup_replicate_2. lia.
  - rewrite list_lookup_alter_ne by lia. apply lookup_replicate_2. lia.
Qed.

Lemma binit_buckets_rest :
  ∀ n i, (1 ≤ i)%nat → (i + n = NBUK)%nat →
    binit_buckets n i (chained NBUF) = Ret tt (chained NBUF).
Proof.
  induction n as [|n IH]; intros i Hi Hn; [done|].
  cbn [binit_buckets].
  assert (Hb : bcache_buckets (chained NBUF) !! i = Some zero_bucket).
  { apply init_buckets_lookup. lia. }
  erewrite bind_Ret.
  2:{ apply initlock_free. by rewrite (spin_get_bucket _ _ _ Hb). }
  erewrite bind_Ret.
  2:{ eapply store_same; [cbn [node]; by rewrite Hb|done]. }
  rewrite decide_False by lia. rewrite bind_ret.
  apply IH; lia.
Qed.

(** [binit] turns the zeroed [bcache] into one list of all slots, in
    bucket 0. *)
Lemma binit_boot : NBUK ≠ O → binit boot = Ret tt (chained NBUF).
Proof.
  intros Hk. unfold binit. rewrite boot_chained.
  erewrite bind_Ret by reflexivity.
  change (spin_set BcacheLock {| held := false |} (chained O)) with (chained O).
  destruct NBUK as [|m] eqn:Hm; [done|]. cbn [binit_buckets].
  assert (Hb : bcache_buckets (chained O) !! O = Some zero_bucket).
  { simpl. rewrite Hm. reflexivity. }
  erewrite bind_Ret.
  2:{ apply initlock_free. by rewrite (spin_get_bucket _ _ _ Hb). }
  erewrite bind_Ret.
  2:{ eapply store_same; [cbn [node]; by rewrite Hb|done]. }
  rewrite decide_True by done.
  rewrite (bind_Ret _ _ _ _ _ (binit_bufs_chained ltac:(lia) NBUF O eq_refl)).
  apply binit_buckets_rest; lia.
Qed.

(** The booted state is well formed and every slot is in bucket 0. *)

Lemma chain_init :
  ∀ n j, (j + n = NBUF)%nat →
    chain (init_bufs NBUF) (match n with O => Null | S _ => Buf j end) (seq j n).
Proof.
  induction n as [|n IH]; intros j Hj; simpl.
  - constructor.
  - apply (chain_cons _ j (set_next (init_next NBUF j) zero_buf)).
    + rewrite init_bufs_lookup by lia. by rewrite decide_True by lia.
    + simpl. unfold init_next. specialize (IH (S j) ltac:(lia)).
      destruct n as [|n].
      * by rewrite decide_True by lia.
      * by rewrite decide_False by lia.
Qed.

Lemma concat_init_lists : NBUK ≠ O → concat init_lists = seq 0 NBUF.
Proof.
  intros Hk. unfold init_lists. destruct NBUK as [|m]; [done|]. simpl.
  assert (H : ∀ n, concat (replicate n (@nil nat)) = []) by (induction n; done).
  by rewrite H, app_nil_r.
Qed.

Lemma Wf_chained : NBUK ≠ O → Wf (chained NBUF) init_lists.
Proof.
  intros Hk. unfold init_lists. constructor.
  - simpl. unfold init_bufs. rewrite length_app, length_map, length_seq, length_replicate. lia.
  - simpl. unfold init_buckets. destruct NBUF; rewrite ?length_alter, length_replicate; done.
  - done.
  - by rewrite length_insert, length_replicate.
  - intros i l Hl. destruct i as [|i].
    + rewrite list_lookup_insert_eq in Hl by (rewrite length_replicate; lia).
      injection Hl as <-. simpl. unfold init_buckets.
      pose proof (chain_init NBUF O eq_refl) as Hc.
      destruct NBUF as [|n] eqn:HN.
      * rewrite lookup_replicate_2 by lia. simpl. eauto.
      * rewrite list_lookup_alter_eq, lookup_replicate_2 by lia. simpl. eexists. split; [done|].
        exact Hc.
    + rewrite list_lookup_insert_ne in Hl by done.
      apply lookup_replicate in Hl as [-> Hi].
      simpl. rewrite init_buckets_lookup by lia. simpl. eexists. split; [done|]. constructor.
  - pose proof (concat_init_lists Hk) as Hc. unfold init_lists in Hc.
    rewrite Hc. apply NoDup_seq.
  - intros lk l Hl. destruct lk as [|i]; simpl in Hl.
    + by injection Hl as <-.
    + destruct (0 <=? i); [|done].
      destruct (init_buckets NBUF !! Z.to_nat i) as [bk|] eqn:Hb; [|done].
      injection Hl as <-. unfold init_buckets in Hb. destruct NBUF.
      * by apply lookup_replicate in Hb as [-> _].
      * destruct (decide (Z.to_nat i = O)) as [Heq|Hne].
        -- rewrite Heq, list_lookup_alter_eq in Hb.
           destruct (replicate NBUK zero_bucket !! O) eqn:Hr; [|done].
           apply lookup_replicate in Hr as [-> _]. by injection Hb as <-.
        -- rewrite list_lookup_alter_ne in Hb by done.
           by apply lookup_replicate in Hb as [-> _].
  - simpl. lia.
  - intros k b Hb. simpl in Hb. rewrite init_bufs_lookup in Hb by lia.
    repeat case_decide; try done; injection Hb as <-; simpl; lia.
Qed.

Lemma booted_chained : NBUK ≠ O → booted = Some (chained NBUF).
Proof. intros Hk. unfold booted. by rewrite binit_boot. Qed.

Lemma quiescent_chained : NBUK ≠ O → quiescent (chained NBUF) = true.
Proof.
  intros Hk. apply (Wf_quiescent _ init_lists); [by apply Wf_chained|].
  by rewrite concat_init_lists.
Qed.

Lemma slot_chained k :
  dev (slot (chained NBUF) k) = 0 ∧ blockno (slot (chained NBUF) k) = 0 ∧
  valid (slot (chained NBUF) k) = 0 ∧ refcnt (slot (chained NBUF) k) = 0 ∧
  timestamp (slot (chained NBUF) k) = 0 ∧
  lock (slot (chained NBUF) k) = Sleeplock false 0.
Proof.
  unfold slot. simpl. rewrite init_bufs_lookup by lia.
  repeat case_decide; done.
Qed.

End Binit.

Section ScanFrom.
Context `{cfg : config}.

(** ** The scan taken up at a bucket *)

(** All the buckets from [i] on. *)
Lemma scan_from_spec s ls i :
  Wf s ls → (i ≤ NBUK)%nat →
  bget_scan_from (NBUK - i) i s =
  Ret (scan_all s i (drop i ls) (mkscan 0 (-1) false Null))
      (hold (lru_buk_id (scan_all s i (drop i ls) (mkscan 0 (-1) false Null))) s).
Proof.
  intros W Hi. unfold bget_scan_from.
  apply (bget_scan_buckets_spec s ls W (NBUK - i) i (mkscan 0 (-1) false Null));
    [lia|done|by left].
Qed.

(** Past the last bucket nothing is left to scan. *)
Lemma scan_from_end s i :
  (NBUK ≤ i)%nat →
  (v ← bget_scan_from (NBUK - i) i; bget_steal v) s = Undefined NullDeref.
Proof.
  intros Hi. replace (NBUK - i)%nat with O by lia.
  unfold bget_scan_from. cbn [bget_scan_buckets]. rewrite bind_ret.
  by apply bget_steal_none.
Qed.

(** Bucket [i] alone. *)
Lemma pass_spec s ls i l :
  Wf s ls → ls !! i = Some l →
  bget_scan_from 1 i s =
  Ret (scan_close i (scan_fold s (Head i) l (mkscan 0 (-1) false Null)))
      (hold (lru_buk_id (scan_close i (scan_fold s (Head i) l (mkscan 0 (-1) false Null)))) s).
Proof.
  intros W Hl. unfold bget_scan_from.
  assert (Hi : (i < NBUK)%nat).
  { rewrite <- (wf_lists _ _ W). by eapply lookup_lt_Some. }
  pose proof (bget_scan_prefix_spec s ls W 1 i (mkscan 0 (-1) false Null)) as H.
  rewrite (drop_S _ _ _ Hl) in H. cbn [take scan_all lru_buk_id] in H.
  rewrite hold_none in H. apply H; [lia|done|by left].
Qed.

(** What the scan from bucket [i] settles on. *)
Lemma scan_choice_from s ls i :
  Wf s ls →
  let v := scan_all s i (drop i ls) (mkscan 0 (-1) false Null) in
  ((∀ ik, ik ∈ scan_order_from i (drop i ls) → refcnt (slot s ik.2) ≠ 0) ∧
   v = mkscan 0 (-1) false Null)
  ∨ (∃ pre i0 k post l1 l2,
       scan_order_from i (drop i ls) = pre ++ (i0, k) :: post ∧
       ls !! i0 = Some (l1 ++ k :: l2) ∧
       prev_lru_b v = last_ptr i0 l1 ∧
       lru_buk_id v = Z.of_nat i0 ∧
       refcnt (slot s k) = 0 ∧
       (∀ ik, ik ∈ pre → refcnt (slot s ik.2) = 0 →
              timestamp (slot s ik.2) ≤ timestamp (slot s k)) ∧
       (∀ ik, ik ∈ post → refcnt (slot s ik.2) = 0 →
              timestamp (slot s ik.2) < timestamp (slot s k))).
Proof.
  intros W v.
  assert (Hp0 : picked s ls i [] (mkscan 0 (-1) false Null)).
  { apply picked_none; [|done]. intros ik Hin. by apply elem_of_nil in Hin. }
  pose proof (scan_all_picked s ls W (drop i ls) i [] _ eq_refl Hp0) as Hp.
  simpl in Hp. fold v in Hp.
  destruct Hp as [Hnone Hv|pre i0 k post l1 l2 Hs Hl Hprev Hr Hm Hpre Hpost Hown].
  - left. auto.
  - right. exists pre, i0, k, post, l1, l2. repeat split; try done.
    destruct (is_better v).
    + apply lookup_lt_Some in Hl. rewrite length_drop in Hown. lia.
    + by destruct Hown.
Qed.

(** What one bucket gives. *)
Lemma pass_choice s ls i l :
  Wf s ls → ls !! i = Some l →
  let v := scan_close i (scan_fold s (Head i) l (mkscan 0 (-1) false Null)) in
  ((∀ k, k ∈ l → refcnt (slot s k) ≠ 0) ∧ v = mkscan 0 (-1) false Null)
  ∨ ((∃ k, k ∈ l ∧ refcnt (slot s k) = 0) ∧ lru_buk_id v = Z.of_nat i).
Proof.
  intros W Hl v.
  assert (Hp0 : picked s ls i [] (mkscan 0 (-1) false Null)).
  { apply picked_none; [|done]. intros ik Hin. by apply elem_of_nil in Hin. }
  pose proof (scan_fold_picked s ls i W l [] [] _ Hl Hp0) as Hp.
  simpl in Hp. change (last_ptr i []) with (Head i) in Hp.
  set (v1 := scan_fold s (Head i) l (mkscan 0 (-1) false Null)) in *.
  assert (Hlru : lru_buk_id v1 = -1) by apply scan_fold_lru.
  destruct Hp as [Hnone Hv|pre i0 k post l1 l2 Hs _ _ Hr _ _ _ Hown].
  - left. split.
    + intros k Hk. apply (Hnone (i, k)). apply list_elem_of_fmap. eauto.
    + unfold v. by rewrite Hv.
  - right.
    assert (Hin : (i0, k) ∈ map (pair i) l).
    { rewrite Hs. apply elem_of_app. right. by left. }
    apply list_elem_of_fmap in Hin as (k' & [= -> ->] & Hk').
    split; [eauto|].
    unfold v, scan_close. cbn [lru_buk_id].
    destruct (is_better v1); [done|]. destruct Hown as [Hown _]. lia.
Qed.

Lemma idle_from_nil s ls i :
  idle_from s ls i = [] ↔
  ∀ ik, ik ∈ scan_order_from i (drop i ls) → refcnt (slot s ik.2) ≠ 0.
Proof.
  unfold idle_from. split.
  - intros H ik Hin Hr.
    assert (Hf : ik ∈ filter (λ ik, refcnt (slot s ik.2) = 0)
                        (scan_order_from i (drop i ls))).
    { by apply list_elem_of_filter. }
    rewrite H in Hf. by apply elem_of_nil in Hf.
  - intros H. induction (scan_order_from i (drop i ls)) as [|ik l IH]; [done|].
    rewrite filter_cons. case_decide as Hd.
    + exfalso. apply (H ik); [by left|done].
    + apply IH. intros ik' Hin. apply H. by right.
Qed.

(** Whether bucket [i] can be passed. *)
Lemma do_pass_enabled s ls ts me d bn i :
  Wf s ls →
  is_Some (do_pass me d bn i s ts) ↔
  ∃ l, ls !! i = Some l ∧ ∀ k, k ∈ l → refcnt (slot s k) ≠ 0.
Proof.
  intros W. unfold do_pass.
  destruct (i <? NBUK)%nat eqn:Hi.
  - apply Nat.ltb_lt in Hi.
    assert (Hlt : (i < length ls)%nat) by (by rewrite (wf_lists _ _ W)).
    destruct (lookup_lt_is_Some_2 _ _ Hlt) as [l Hl].
    rewrite (pass_spec s ls i l W Hl).
    destruct (pass_choice s ls i l W Hl) as [[Hbusy Hv]|[(k & Hk & Hr) Hid]].
    + rewrite Hv. cbn [lru_buk_id]. change (-1 =? -1) with true. cbv iota.
      split; [|done]. intros _. by exists l.
    + rewrite Hid. rewrite (proj2 (Z.eqb_neq _ _)) by lia. split.
      * intros [? [=]].
      * intros (l' & Hl' & Hbusy). rewrite Hl in Hl'. injection Hl' as <-.
        by destruct (Hbusy k Hk).
  - apply Nat.ltb_ge in Hi. split.
    + intros [? [=]].
    + intros (l & Hl & _). apply lookup_lt_Some in Hl.
      rewrite (wf_lists _ _ W) in Hl. lia.
Qed.

End ScanFrom.

Section Runs.
Context `{cfg : config}.

(** ** Runs of calls *)

Lemma Wf_read_in b n s ls : Wf s ls → Wf (read_in b n s) ls.
Proof.
  intros W. unfold read_in. destruct (valid n =? 0); [|done].
  apply Wf_poke_field; [|done|done].
  apply Wf_with_io_log. by apply Wf_poke_field.
Qed.

(** Every call keeps a well-formed state well formed and moves no slot
    off the lists. *)
Lemma do_call_Wf c s ls s' :
  Wf s ls → do_call c s = Some s' →
  ∃ ls', Wf s' ls' ∧ concat ls' ≡ₚ concat ls.
Proof.
  intros W Hc. destruct c as [me d bn|me d bn|me b|me b|b|b|]; simpl in Hc.
  - by eapply bget_Wf.
  - destruct (bget me d bn s) as [b s1| | |s1| |] eqn:Hg.
    + destruct (bget_Ret_inv _ _ _ _ _ _ Hg) as (n & Hn & _).
      rewrite (bread_after_bget _ _ _ _ _ _ _ Hg Hn) in Hc. injection Hc as <-.
      destruct (bget_Wf s ls me d bn s1 W) as (ls1 & W1 & Hp); [by rewrite Hg|].
      exists ls1. split; [by apply Wf_read_in|done].
    + unfold bread, bind in Hc. by rewrite Hg in Hc.
    + unfold bread, bind in Hc. by rewrite Hg in Hc.
    + unfold bread, bind in Hc. rewrite Hg in Hc. injection Hc as <-.
      apply (bget_Wf s ls me d bn); [done|by rewrite Hg].
    + unfold bread, bind in Hc. by rewrite Hg in Hc.
    + unfold bread, bind in Hc. by rewrite Hg in Hc.
  - exists ls. split; [|done]. destruct (node b s) as [n|] eqn:Hn.
    + destruct (locked (lock n) && (pid (lock n) =? me)) eqn:Hh.
      * rewrite (bwrite_holding _ _ _ _ Hn Hh) in Hc. injection Hc as <-.
        by apply Wf_with_io_log, Wf_with_disk.
      * by rewrite (bwrite_not_holding _ _ _ _ Hn Hh) in Hc.
    + unfold bwrite, bind in Hc. by rewrite (holdingsleep_none _ _ _ Hn) in Hc.
  - exists ls. split; [|done]. destruct (node b s) as [n|] eqn:Hn.
    + destruct (locked (lock n) && (pid (lock n) =? me)) eqn:Hh.
      * rewrite (brelse_holding _ _ _ _ _ W Hn Hh) in Hc. injection Hc as <-.
        by apply Wf_released.
      * by rewrite (brelse_not_holding _ _ _ _ Hn Hh) in Hc.
    + unfold brelse, bind in Hc. by rewrite (holdingsleep_none _ _ _ Hn) in Hc.
  - exists ls. split; [|done]. destruct (node b s) as [n|] eqn:Hn.
    + rewrite (bpin_run _ _ _ _ W Hn) in Hc. injection Hc as <-.
      apply Wf_poke_field; [done|done|].
      intros x. apply in_range_set_refcnt, to_uint_range.
    + unfold bpin, bind in Hc. by rewrite (load_none _ _ Hn) in Hc.
  - exists ls. split; [|done]. destruct (node b s) as [n|] eqn:Hn.
    + rewrite (bunpin_run _ _ _ _ W Hn) in Hc. injection Hc as <-.
      apply Wf_poke_field; [done|done|].
      intros x. apply in_range_set_refcnt, to_uint_range.
    + unfold bunpin, bind in Hc. by rewrite (load_none _ _ Hn) in Hc.
  - injection Hc as <-. exists ls. split; [|done].
    apply Wf_with_ticks; [apply to_uint_range|done].
Qed.

(** ** Schedules *)

Lemma stage_of_elem me ts g : stage_of me ts = Some g → (me, g) ∈ ts.
Proof.
  induction ts as [|[p g0] ts IH]; simpl; [done|].
  destruct (p =? me) eqn:Hp.
  - apply Z.eqb_eq in Hp as ->. intros [= ->]. by left.
  - intros H. right. by apply IH.
Qed.

Lemma leave_elem me ts x : x ∈ leave me ts → x ∈ ts.
Proof.
  induction ts as [|[p g0] ts IH]; simpl; [done|].
  destruct (p =? me).
  - intros H. by right.
  - intros H. apply elem_of_cons in H as [->|H]; [by left|]. right. by apply IH.
Qed.

Lemma victims_leave me ts g :
  stage_of me ts = Some g →
  victims ts ≡ₚ
  match g with Stolen _ _ (Buf k) => [k] | _ => [] end ++ victims (leave me ts).
Proof.
  induction ts as [|[p g0] ts IH]; simpl; [done|].
  destruct (p =? me) eqn:Hp.
  - intros [= ->]. by destruct g as [| |? ? [| |]].
  - intros H. specialize (IH H).
    destruct g0 as [| |? ? [| |k0]]; simpl; try done.
    rewrite IH. by rewrite Permutation_middle.
Qed.

(** A caller that found no candidate in bucket [i] goes on to the next one;
    nothing has changed. *)
Lemma do_pass_accounted me d bn i s ts s' ts' :
  accounted s ts →
  stage_of me ts = Some (Missed d bn) ∨ stage_of me ts = Some (Scanning d bn i) →
  do_pass me d bn i s ts = Some (s', ts') → accounted s' ts'.
Proof.
  intros [Hsound (ls & W & Hp)] Hst Hd. unfold do_pass in Hd.
  destruct (i <? NBUK)%nat eqn:Hi; [|done]. apply Nat.ltb_lt in Hi.
  assert (Hlt : (i < length ls)%nat) by (by rewrite (wf_lists _ _ W)).
  destruct (lookup_lt_is_Some_2 _ _ Hlt) as [l Hl].
  rewrite (pass_spec s ls i l W Hl) in Hd.
  destruct (pass_choice s ls i l W Hl) as [[_ Hv]|[_ Hid]].
  - rewrite Hv in Hd. cbn [lru_buk_id] in Hd. rewrite hold_none in Hd.
    change (-1 =? -1) with true in Hd. cbv iota in Hd.
    injection Hd as <- <-. split.
    + intros me' d' bn' p Hin. apply elem_of_cons in Hin as [[=]|Hin].
      apply leave_elem in Hin. by eapply Hsound.
    + exists ls. split; [done|]. cbn [victims].
      destruct Hst as [Hst|Hst];
        pose proof (victims_leave me ts _ Hst) as Hv'; simpl in Hv'; by rewrite <- Hv'.
  - rewrite Hid in Hd. rewrite (proj2 (Z.eqb_neq _ _)) in Hd by lia. done.
Qed.

(** Taking a listed slot out of its list moves it among the victims. *)
Lemma steal_accounted s ts ls me d bn g i l1 k l2 :
  (∀ me' d' bn' p, (me', Stolen d' bn' p) ∈ ts → ∃ k', p = Buf k') →
  Wf s ls → concat ls ++ victims ts ≡ₚ seq 0 NBUF →
  stage_of me ts = Some g →
  match g with Stolen _ _ _ => False | _ => True end →
  ls !! i = Some (l1 ++ k :: l2) →
  accounted (unlink (last_ptr i l1) k s) ((me, Stolen d bn (Buf k)) :: leave me ts).
Proof.
  intros Hsound W Hp Hst Hg Hi.
  destruct (Wf_unlink s ls i l1 k l2 W Hi) as [W2 Hnin]. split.
  - intros me' d' bn' p Hin. apply elem_of_cons in Hin as [[= _ _ _ ->]|Hin]; [eauto|].
    apply leave_elem in Hin. by eapply Hsound.
  - exists (<[i := l1 ++ l2]> ls). split; [done|]. simpl.
    rewrite <- Permutation_middle, app_comm_cons.
    rewrite <- (concat_remove_perm ls i l1 k l2 Hi).
    pose proof (victims_leave me ts _ Hst) as Hv.
    destruct g; try done; simpl in Hv; by rewrite <- Hv.
Qed.

Lemma do_move_accounted m s ts s' ts' :
  accounted s ts → do_move m (s, ts) = Some (s', ts') → accounted s' ts'.
Proof.
  intros Ha0 Hm. pose proof Ha0 as [Hsound (ls & W & Hp)].
  destruct m as [me d bn|me|me|me|c]; simpl in Hm.
  - (* a caller enters *)
    destruct (stage_of me ts) eqn:Hst; [done|].
    destruct (hash_bucket d bn s ls W) as [lt Hl].
    destruct (cached s d bn lt) as [m|] eqn:Hc.
    + rewrite (bget_cached_hit s ls me d bn lt m W Hl Hc) in Hm.
      assert (Hn : is_Some (node (Buf m) (bump m s))).
      { apply cached_Some in Hc as (Hin & _).
        destruct (wf_chain _ _ W _ _ Hl) as (h & _ & Hch).
        apply node_Buf_is_Some. rewrite length_buf_bump. by eapply chain_lt. }
      assert (Ha : afterwards ((acquiresleep me (Buf m);; ret (Buf m)) (bump m s))
                   = Some s' ∧ ts' = ts).
      { destruct Hn as [n Hn]. revert Hm. unfold bind, ret.
        rewrite (acquiresleep_cases _ _ _ _ Hn).
        destruct (locked (lock n)); cbn [afterwards]; by intros [= <- <-]. }
      destruct Ha as [Ha ->]. split; [done|]. exists ls. split; [|done].
      exact (afterwards_tail _ _ _ _ _ (Wf_bump _ _ _ W) Hn Ha).
    + rewrite (bget_cached_miss s ls me d bn lt W Hl Hc) in Hm.
      injection Hm as <- <-. split.
      * intros me' d' bn' p Hin. apply elem_of_cons in Hin as [[=]|Hin]. by eapply Hsound.
      * exists ls. by split.
  - (* a caller passes one bucket of its scan *)
    assert (Hpass : ∀ d bn i, stage_of me ts = Some (Missed d bn) ∨
                              stage_of me ts = Some (Scanning d bn i) →
                    do_pass me d bn i s ts = Some (s', ts') → accounted s' ts').
    { intros d bn i Hst Hd. exact (do_pass_accounted me d bn i s ts s' ts' Ha0 Hst Hd). }
    destruct (stage_of me ts) as [[d bn|d bn i|]|] eqn:Hst; try done.
    + apply (Hpass d bn O); auto.
    + apply (Hpass d bn i); auto.
  - (* a caller scans and steals *)
    destruct (stage_of me ts) as [[d bn|d bn i0|]|] eqn:Hst; try done.
    + rewrite (bind_Ret _ _ _ _ _ (bget_scan_spec s ls W)) in Hm.
      destruct (scan_choice s ls W) as
        [[_ Hv]|(pre & i & k & post & l1 & l2 & _ & Hi & Hprev & Hid & _)].
      { rewrite Hv in Hm. done. }
      rewrite (bget_steal_spec s ls _ i l1 k l2 W Hi Hprev Hid) in Hm.
      injection Hm as <- <-.
      by apply (steal_accounted s ts ls me d bn (Missed d bn) i l1 k l2).
    + destruct (decide (i0 ≤ NBUK)%nat) as [Hle|Hgt].
      2:{ rewrite scan_from_end in Hm by lia. done. }
      rewrite (bind_Ret _ _ _ _ _ (scan_from_spec s ls i0 W Hle)) in Hm.
      destruct (scan_choice_from s ls i0 W) as
        [[_ Hv]|(pre & i & k & post & l1 & l2 & _ & Hi & Hprev & Hid & _)].
      { rewrite Hv in Hm. done. }
      rewrite (bget_steal_spec s ls _ i l1 k l2 W Hi Hprev Hid) in Hm.
      injection Hm as <- <-.
      by apply (steal_accounted s ts ls me d bn (Scanning d bn i0) i l1 k l2).
  - (* a caller installs *)
    destruct (stage_of me ts) as [[| |d bn lru_b]|] eqn:Hst; try done.
    destruct (Hsound me d bn lru_b (stage_of_elem _ _ _ Hst)) as [k ->].
    pose proof (victims_leave me ts _ Hst) as Hv. simpl in Hv.
    assert (Hp' : k :: concat ls ++ victims (leave me ts) ≡ₚ seq 0 NBUF).
    { rewrite <- Hp, Hv. by rewrite <- Permutation_middle. }
    assert (Hnd : NoDup (k :: concat ls ++ victims (leave me ts))).
    { rewrite Hp'. apply NoDup_seq. }
    apply NoDup_cons in Hnd as [Hnin _].
    assert (Hk : (k < NBUF)%nat).
    { assert (Hin : k ∈ seq 0 NBUF) by (rewrite <- Hp'; by left).
      apply elem_of_seq in Hin. lia. }
    assert (Hnin' : k ∉ concat ls).
    { intros Hin. apply Hnin, elem_of_app. by left. }
    destruct (hash_bucket d bn s ls W) as [lt Hl].
    rewrite (bget_install_spec s ls me d bn k lt W Hl Hnin' Hk) in Hm.
    destruct (Wf_installed s ls d bn k lt W Hl Hnin' Hk) as [W3 Hn3].
    destruct (afterwards _) as [s3|] eqn:Ha; [|done]. injection Hm as <- <-.
    split.
    + intros me' d' bn' p Hin. apply leave_elem in Hin. by eapply Hsound.
    + eexists. split; [exact (afterwards_tail _ _ _ _ _ W3 Hn3 Ha)|].
      rewrite concat_add_perm by done. done.
  - (* a whole call *)
    destruct (do_call c s) as [s1|] eqn:Hc; [|done]. injection Hm as <- <-.
    destruct (do_call_Wf c s ls s1 W Hc) as (ls' & W' & Hp1).
    split; [done|]. exists ls'. split; [done|]. by rewrite Hp1.
Qed.

Lemma run_moves_accounted ms :
  ∀ s ts s' ts', accounted s ts → run_moves ms (s, ts) = Some (s', ts') →
                 accounted s' ts'.
Proof.
  induction ms as [|m ms IH]; intros s ts s' ts' Ha Hr; cbn [run_moves] in Hr.
  - by injection Hr as <- <-.
  - destruct (do_move m (s, ts)) as [[s1 ts1]|] eqn:Hm; [|done].
    apply (IH s1 ts1); [by eapply do_move_accounted|done].
Qed.

Lemma run_schedule_accounted ms s ts :
  NBUK ≠ O → run_schedule ms = Some (s, ts) → accounted s ts.
Proof.
  intros Hk. unfold run_schedule. rewrite (booted_chained Hk).
  apply run_moves_accounted. split.
  - intros me d bn p Hin. by apply elem_of_nil in Hin.
  - exists init_lists. split; [by apply Wf_chained|].
    simpl. by rewrite app_nil_r, concat_init_lists.
Qed.

(** Calls made one after the other are a schedule. *)
Lemma run_calls_moves cs :
  ∀ s ts, run_moves (map Call cs) (s, ts) =
          (λ s', (s', ts)) <$> run_calls cs s.
Proof.
  induction cs as [|c cs IH]; intros s ts; simpl; [done|].
  destruct (do_call c s) as [s1|]; [|done]. apply IH.
Qed.

Lemma run_from_boot_schedule cs :
  run_schedule (map Call cs) = (λ s', (s', [])) <$> run_from_boot cs.
Proof.
  unfold run_schedule, run_from_boot. destruct booted as [s|]; [|done].
  apply run_calls_moves.
Qed.

End Runs.

Section FirstCall.
Context `{cfg : config}.

(** ** What [binit] leaves alone *)

Lemma same_identity_refl s : same_identity s s.
Proof. done. Qed.

Lemma same_identity_trans s1 s2 s3 :
  same_identity s1 s2 → same_identity s2 s3 → same_identity s1 s3.
Proof.
  intros H12 H23 k. destruct (H12 k) as (<- & <- & <- & <-). apply H23.
Qed.

Lemma same_identity_poke p f s :
  (∀ b, dev (f b) = dev b ∧ blockno (f b) = blockno b ∧
        valid (f b) = valid b ∧ refcnt (f b) = refcnt b) →
  same_identity s (poke p f s).
Proof.
  intros Hf k. unfold slot.
  change (bcache_buf (poke p f s) !! k) with (node (Buf k) (poke p f s)).
  rewrite node_poke. case_decide; [|done].
  simpl. destruct (bcache_buf s !! k); simpl; [apply Hf|done].
Qed.

Lemma same_identity_store p f s u s' :
  (∀ b, dev (f b) = dev b ∧ blockno (f b) = blockno b ∧
        valid (f b) = valid b ∧ refcnt (f b) = refcnt b) →
  store p f s = Ret u s' → same_identity s s'.
Proof.
  intros Hf H. apply store_Ret_inv in H as [_ ->]. by apply same_identity_poke.
Qed.

Lemma same_identity_initlock lk s u s' :
  initlock lk s = Ret u s' → same_identity s s'.
Proof.
  unfold initlock. destruct (spin_get lk s); [|done]. intros [= <- <-] k.
  unfold slot. by rewrite bcache_buf_spin_set.
Qed.


Lemma binit_bufs_same_identity :
  ∀ n b prev_b s u s',
    binit_bufs n b prev_b s = Ret u s' → same_identity s s'.
Proof.
  induction n as [|n IH]; intros b prev_b s u s' H; cbn [binit_bufs] in H.
  - injection H as _ <-. apply same_identity_refl.
  - apply bind_Ret_inv in H as (? & s1 & H1 & H).
    apply bind_Ret_inv in H as (? & s2 & H2 & H).
    apply bind_Ret_inv in H as (t & s3 & H3 & H).
    apply bind_Ret_inv in H as (? & s4 & H4 & H).
    apply bind_Ret_inv in H as (? & s5 & H5 & H).
    injection H3 as <- <-.
    assert (R1 : same_identity s s1).
    { case_decide.
      - eapply same_identity_store; [|eassumption]. keeps.
      - injection H1 as _ <-. apply same_identity_refl. }
    apply same_identity_store in H2; [|keeps].
    apply same_identity_store in H4; [|keeps].
    unfold initsleeplock in H5. apply same_identity_store in H5; [|keeps].
    apply IH in H.
    repeat (eapply same_identity_trans; [eassumption|]). done.
Qed.

Lemma binit_buckets_same_identity :
  ∀ n i s u s', binit_buckets n i s = Ret u s' → same_identity s s'.
Proof.
  induction n as [|n IH]; intros i s u s' H; cbn [binit_buckets] in H.
  - injection H as _ <-. apply same_identity_refl.
  - apply bind_Ret_inv in H as (? & s1 & H1 & H).
    apply bind_Ret_inv in H as (? & s2 & H2 & H).
    apply bind_Ret_inv in H as (? & s3 & H3 & H).
    apply same_identity_initlock in H1.
    apply same_identity_store in H2; [|keeps].
    assert (R3 : same_identity s2 s3).
    { case_decide; [by eapply binit_bufs_same_identity|].
      injection H3 as _ <-. apply same_identity_refl. }
    apply IH in H.
    repeat (eapply same_identity_trans; [eassumption|]). done.
Qed.

(** [binit] writes neither [dev], [blockno], [valid] nor [refcnt]. *)
Lemma binit_same_identity s u s' : binit s = Ret u s' → same_identity s s'.
Proof.
  unfold binit. intros H.
  apply bind_Ret_inv in H as (? & s1 & H1 & H).
  apply same_identity_initlock in H1.
  apply binit_buckets_same_identity in H.
  by eapply same_identity_trans.
Qed.

Lemma hash_0_0 : hash 0 0 = 0.
Proof. unfold hash, to_uint. change (0 * 0) with 0. by rewrite !Zmod_0_l. Qed.

End FirstCall.

Section Tidy.
Context `{cfg : config}.

(** ** Order within a list *)

Lemma before_cons_inv k l y x :
  before (k :: l) y x → (y = k ∧ x ∈ l) ∨ before l y x.
Proof.
  intros (a & b & Heq & Hy). destruct a as [|k' a]; simpl in Heq.
  - by apply elem_of_nil in Hy.
  - injection Heq as <- ->. apply elem_of_cons in Hy as [->|Hy].
    + left. split; [done|]. apply elem_of_app. right. by left.
    + right. by exists a, b.
Qed.

Lemma before_remove l1 k l2 y x :
  before (l1 ++ l2) y x → before (l1 ++ k :: l2) y x.
Proof.
  intros (a & b & Heq & Hy).
  apply app_eq_app in Heq as [l [[-> Heq]|[-> ->]]].
  - destruct l as [|x' l]; simpl in Heq.
    + subst l2. rewrite app_nil_r. exists (a ++ [k]), b. split.
      * by rewrite <- app_assoc.
      * apply elem_of_app. by left.
    + injection Heq as <- ->. exists a, (l ++ k :: l2). split; [|done].
      by rewrite <- app_assoc.
  - exists (l1 ++ k :: l), b. split.
    + by rewrite <- app_assoc.
    + apply elem_of_app in Hy as [Hy|Hy]; apply elem_of_app; [by left|].
      right. by right.
Qed.

Lemma before_elem l y x : before l y x → y ∈ l ∧ x ∈ l.
Proof.
  intros (a & b & -> & Hy). split; apply elem_of_app; [by left|].
  right. by left.
Qed.

Lemma before_total l y x : y ∈ l → x ∈ l → y ≠ x → before l y x ∨ before l x y.
Proof.
  intros Hy Hx Hne.
  apply list_elem_of_split in Hx as (a & b & ->).
  apply elem_of_app in Hy as [Hy|Hy].
  - left. by exists a, b.
  - apply elem_of_cons in Hy as [->|Hy]; [done|].
    apply list_elem_of_split in Hy as (c & e & ->).
    right. exists (a ++ x :: c), e. split.
    + by rewrite <- app_assoc.
    + apply elem_of_app. right. by left.
Qed.

(** ** The first match *)

Lemma cached_None_intro s d bn l :
  (∀ x, x ∈ l → ¬ (dev (slot s x) = d ∧ blockno (slot s x) = bn)) →
  cached s d bn l = None.
Proof.
  intros H. unfold cached.
  destruct (List.find _ l) as [m|] eqn:Hf; [|done].
  apply find_some in Hf as [Hin Hm].
  apply andb_true_iff in Hm as [Hd Hb]. apply Z.eqb_eq in Hd, Hb.
  destruct (H m); [by apply list_elem_of_In|done].
Qed.

Lemma cached_before s d bn l m y :
  NoDup l → cached s d bn l = Some m → before l y m →
  ¬ (dev (slot s y) = d ∧ blockno (slot s y) = bn).
Proof.
  intros Hnd Hc (a & b & -> & Hy) [Hd Hb]. unfold cached in Hc.
  induction a as [|z a IH]; simpl in *.
  - by apply elem_of_nil in Hy.
  - apply NoDup_cons in Hnd as [Hnin Hnd].
    destruct ((dev (slot s z) =? d) && (blockno (slot s z) =? bn)) eqn:Hz.
    + injection Hc as ->. apply Hnin, elem_of_app. right. by left.
    + apply elem_of_cons in Hy as [->|Hy].
      * by rewrite Hd, Hb, !Z.eqb_refl in Hz.
      * by apply IH.
Qed.

(** ** Fields under the updates of [bget] *)

Lemma slot_poke_next p q s k :
  dev (slot (poke p (set_next q) s) k) = dev (slot s k) ∧
  blockno (slot (poke p (set_next q) s) k) = blockno (slot s k) ∧
  refcnt (slot (poke p (set_next q) s) k) = refcnt (slot s k).
Proof.
  unfold slot.
  change (bcache_buf (poke p (set_next q) s) !! k) with (node (Buf k) (poke p (set_next q) s)).
  rewrite node_poke. case_decide; [|done].
  simpl. by destruct (bcache_buf s !! k).
Qed.

Lemma slot_poke_lock p v s k :
  dev (slot (poke p (set_lock v) s) k) = dev (slot s k) ∧
  blockno (slot (poke p (set_lock v) s) k) = blockno (slot s k) ∧
  refcnt (slot (poke p (set_lock v) s) k) = refcnt (slot s k).
Proof.
  unfold slot.
  change (bcache_buf (poke p (set_lock v) s) !! k) with (node (Buf k) (poke p (set_lock v) s)).
  rewrite node_poke. case_decide; [|done].
  simpl. by destruct (bcache_buf s !! k).
Qed.

Lemma slot_bump m s k :
  dev (slot (bump m s) k) = dev (slot s k) ∧
  blockno (slot (bump m s) k) = blockno (slot s k) ∧
  (k ≠ m → refcnt (slot (bump m s) k) = refcnt (slot s k)).
Proof.
  unfold bump, slot.
  change (bcache_buf (poke (Buf m) ?f s) !! k) with (node (Buf k) (poke (Buf m) f s)).
  rewrite node_poke. case_decide as Hd.
  - injection Hd as ->. simpl. destruct (bcache_buf s !! k); done.
  - done.
Qed.

Lemma slot_link t k s x :
  dev (slot (link t k s) x) = dev (slot s x) ∧
  blockno (slot (link t k s) x) = blockno (slot s x) ∧
  refcnt (slot (link t k s) x) = refcnt (slot s x).
Proof.
  unfold link.
  destruct (slot_poke_next (Head t) (Buf k)
              (poke (Buf k) (set_next (next (bucket_head s t))) s) x) as (-> & -> & ->).
  apply slot_poke_next.
Qed.

Lemma slot_rename_ne d bn k s x :
  x ≠ k →
  dev (slot (rename d bn k s) x) = dev (slot s x) ∧
  blockno (slot (rename d bn k s) x) = blockno (slot s x) ∧
  refcnt (slot (rename d bn k s) x) = refcnt (slot s x).
Proof.
  intros Hne. unfold rename. by rewrite !slot_poke_ne by congruence.
Qed.

Lemma slot_rename_eq d bn k s :
  (k < length (bcache_buf s))%nat →
  dev (slot (rename d bn k s) k) = d ∧
  blockno (slot (rename d bn k s) k) = bn ∧
  refcnt (slot (rename d bn k s) k) = 1 ∧
  valid (slot (rename d bn k s) k) = 0.
Proof.
  intros Hk. unfold rename.
  rewrite !slot_poke_eq by (by rewrite ?length_buf_poke). done.
Qed.

(** ** The invariant *)

Lemma tidy_unique s : tidy s → unique_identity s.
Proof.
  intros (ls & W & Hp & I1 & I3) j k Hj Hk Hrj Hrk Hd Hb.
  destruct (decide (j = k)) as [|Hne]; [done|]. exfalso.
  assert (Hinj : j ∈ concat ls) by (rewrite Hp; apply elem_of_seq; lia).
  assert (Hink : k ∈ concat ls) by (rewrite Hp; apply elem_of_seq; lia).
  apply elem_of_concat_lookup in Hinj as (ij & lj & Hlj & Hinj).
  apply elem_of_concat_lookup in Hink as (ik & lk & Hlk & Hink).
  pose proof (I1 _ _ _ Hlj Hinj) as Hij.
  pose proof (I1 _ _ _ Hlk Hink) as Hik.
  rewrite Hd, Hb, Hik in Hij. subst ij. rewrite Hlk in Hlj. injection Hlj as <-.
  destruct (before_total lk j k Hinj Hink Hne) as [Hbf|Hbf].
  - apply (I3 _ _ _ _ Hlk Hbf); [lia|done].
  - apply (I3 _ _ _ _ Hlk Hbf); [lia|done].
Qed.

Lemma tidy_fields s s' ls :
  (∀ k, dev (slot s' k) = dev (slot s k) ∧
        blockno (slot s' k) = blockno (slot s k) ∧
        refcnt (slot s' k) = refcnt (slot s k)) →
  placed s ls → first_pinned s ls →
  placed s' ls ∧ first_pinned s' ls.
Proof.
  intros Hf I1 I3. split.
  - intros i l k Hl Hk. destruct (Hf k) as (-> & -> & _). by eapply I1.
  - intros i l y x Hl Hb Hr.
    destruct (Hf y) as (-> & -> & _). destruct (Hf x) as (-> & -> & Hrx).
    rewrite Hrx in Hr. by eapply I3.
Qed.

(** What is listed once the victim is off its list was listed before,
    in the same order. *)
Lemma unlinked_lists (ls : list (list nat)) i l1 k l2 j l' :
  ls !! i = Some (l1 ++ k :: l2) →
  <[i := l1 ++ l2]> ls !! j = Some l' →
  ∃ l, ls !! j = Some l ∧ (∀ x, x ∈ l' → x ∈ l) ∧
       (∀ y x, before l' y x → before l y x).
Proof.
  intros Hi Hj. destruct (decide (i = j)) as [<-|Hne].
  - rewrite list_lookup_insert_eq in Hj by (by eapply lookup_lt_Some).
    injection Hj as <-. exists (l1 ++ k :: l2). split; [done|]. split.
    + intros x Hx. apply elem_of_app in Hx as [Hx|Hx]; apply elem_of_app; [by left|].
      right. by right.
    + intros y x. apply before_remove.
  - rewrite list_lookup_insert_ne in Hj by done. eauto.
Qed.

Lemma rescan_misses s ls d bn lt i l1 k l2 lt2 :
  placed s ls →
  ls !! Z.to_nat (hash d bn) = Some lt →
  cached s d bn lt = None →
  ls !! i = Some (l1 ++ k :: l2) →
  <[i := l1 ++ l2]> ls !! Z.to_nat (hash d bn) = Some lt2 →
  cached (link (Z.to_nat (hash d bn)) k (unlink (last_ptr i l1) k s)) d bn (k :: lt2)
  = None.
Proof.
  intros I1 Hl Hm Hi Hl2. apply cached_None_intro. intros x Hx.
  destruct (slot_link (Z.to_nat (hash d bn)) k (unlink (last_ptr i l1) k s) x)
    as (-> & -> & _).
  unfold unlink.
  destruct (slot_poke_next (last_ptr i l1) (next (slot s k)) s x) as (-> & -> & _).
  destruct (unlinked_lists ls i l1 k l2 _ lt2 Hi Hl2) as (l & Hl' & Hincl & _).
  rewrite Hl in Hl'. injection Hl' as <-.
  apply elem_of_cons in Hx as [->|Hx].
  - intros [Hd Hb].
    assert (Hk : k ∈ l1 ++ k :: l2) by (apply elem_of_app; right; by left).
    pose proof (I1 _ _ _ Hi Hk) as Hpl. rewrite Hd, Hb in Hpl. subst i.
    rewrite Hl in Hi. injection Hi as ->.
    by apply (cached_None s d bn _ k Hm Hk).
  - apply (cached_None s d bn lt x Hm). by apply Hincl.
Qed.

Lemma tidy_chained : NBUK ≠ O → tidy (chained NBUF).
Proof.
  intros Hk. exists init_lists.
  split; [by apply Wf_chained|]. split; [by rewrite concat_init_lists|]. split.
  - intros i l k Hl Hin.
    destruct (slot_chained k) as (-> & -> & _). rewrite hash_0_0. simpl.
    unfold init_lists in Hl. destruct i as [|i]; [done|].
    rewrite list_lookup_insert_ne in Hl by done.
    apply lookup_replicate in Hl as [-> _]. by apply elem_of_nil in Hin.
  - intros i l y x _ _ Hr. by destruct (slot_chained x) as (_ & _ & _ & ? & _).
Qed.

Lemma bget_tidy s me d bn s' :
  tidy s → afterwards (bget me d bn s) = Some s' → tidy s'.
Proof.
  intros (ls & W & Hp & I1 & I3) Ha.
  destruct (hash_bucket d bn s ls W) as [lt Hl].
  set (t := Z.to_nat (hash d bn)) in *.
  assert (Htail : ∀ b s1 ls1,
            Wf s1 ls1 → concat ls1 ≡ₚ seq 0 NBUF → placed s1 ls1 → first_pinned s1 ls1 →
            is_Some (node b s1) →
            afterwards ((acquiresleep me b;; ret b) s1) = Some s' → tidy s').
  { intros b s1 ls1 W1 Hp1 J1 J3 [n Hn] Ha1.
    pose proof (afterwards_tail _ _ _ _ _ W1 (ex_intro _ n Hn) Ha1) as W'.
    rewrite (afterwards_acquiresleep _ _ _ _ Hn) in Ha1. injection Ha1 as <-.
    exists ls1. split; [done|]. split; [done|].
    destruct (locked (lock n)); [done|].
    apply (tidy_fields s1); [|done|done]. intros k. apply slot_poke_lock. }
  destruct (cached s d bn lt) as [m|] eqn:Hm.
  - (* a hit *)
    rewrite (bget_hit s ls me d bn lt m W Hl Hm) in Ha.
    pose proof (cached_Some _ _ _ _ _ Hm) as (Hin & Hdm & Hbm).
    apply (Htail (Buf m) (bump m s) ls); try done.
    + by apply Wf_bump.
    + intros i l k Hi Hk. destruct (slot_bump m s k) as (-> & -> & _). by eapply I1.
    + intros i l y x Hi Hb Hr.
      destruct (slot_bump m s y) as (-> & -> & _).
      destruct (slot_bump m s x) as (-> & -> & Hrx).
      destruct (decide (x = m)) as [->|Hne].
      * destruct (before_elem _ _ _ Hb) as [_ Hxm].
        assert (i = t) as -> by (eapply (NoDup_concat_unique ls); eauto using wf_nodup).
        rewrite Hl in Hi. injection Hi as <-.
        rewrite Hdm, Hbm. apply (cached_before s d bn lt m y); [|done|done].
        eapply NoDup_concat_lookup; [apply (wf_nodup _ _ W)|done].
      * rewrite Hrx in Hr by done. by eapply I3.
    + destruct (wf_chain _ _ W _ _ Hl) as (h & _ & Hc).
      apply node_Buf_is_Some. rewrite length_buf_bump. by eapply chain_lt.
  - (* a miss *)
    destruct (scan_choice s ls W) as
      [[Hbusy _]|(pre & i & k & post & l1 & l2 & _ & Hi & Hprev & Hid & Hrk & _)].
    { by rewrite (bget_miss_none s ls me d bn lt W Hl Hm Hbusy) in Ha. }
    assert (Hl2 : is_Some (<[i := l1 ++ l2]> ls !! t)).
    { apply lookup_lt_is_Some. rewrite length_insert. by eapply lookup_lt_Some. }
    destruct Hl2 as [lt2 Hl2].
    rewrite (bget_miss_some s ls me d bn lt i k l1 l2 lt2 W Hl Hm Hi Hprev Hid Hl2) in Ha.
    destruct (Wf_unlink s ls i l1 k l2 W Hi) as [W2 Hnin].
    assert (Hk : (k < NBUF)%nat).
    { destruct (pred_node s ls i l1 k l2 W Hi) as (_ & b & _ & _ & Hb & _).
      apply lookup_lt_Some in Hb. by rewrite (wf_buf _ _ W) in Hb. }
    destruct (Wf_installed _ _ d bn k lt2 W2 Hl2 Hnin Hk) as [W3 Hn3].
    fold t in W3.
    pose proof (rescan_misses s ls d bn lt i l1 k l2 lt2 I1 Hl Hm Hi Hl2) as Hre.
    fold t in Hre.
    unfold installed in Ha, W3, Hn3. fold t in Ha, W3, Hn3.
    rewrite Hre in Ha, W3, Hn3. cbn [fst snd] in Ha, W3, Hn3.
    set (s2 := unlink (last_ptr i l1) k s) in *.
    set (s4 := rename d bn k (link t k s2)) in *.
    assert (Hlen : (k < length (bcache_buf (link t k s2)))%nat).
    { unfold link, s2, unlink. by rewrite !length_buf_poke, (wf_buf _ _ W). }
    assert (Hother : ∀ x, x ≠ k →
              dev (slot s4 x) = dev (slot s x) ∧
              blockno (slot s4 x) = blockno (slot s x) ∧
              refcnt (slot s4 x) = refcnt (slot s x)).
    { intros x Hx. unfold s4.
      destruct (slot_rename_ne d bn k (link t k s2) x Hx) as (-> & -> & ->).
      destruct (slot_link t k s2 x) as (-> & -> & ->).
      unfold s2, unlink. apply slot_poke_next. }
    destruct (slot_rename_eq d bn k (link t k s2) Hlen) as (Hkd & Hkb & Hkr & _).
    fold s4 in Hkd, Hkb, Hkr.
    assert (Hlisted : ∀ j l3 x, <[t := k :: lt2]> (<[i := l1 ++ l2]> ls) !! j = Some l3 →
              x ∈ l3 → x ≠ k →
              ∃ l, ls !! j = Some l ∧ x ∈ l).
    { intros j l3 x Hj Hx Hxk. destruct (decide (t = j)) as [<-|Hne].
      - rewrite list_lookup_insert_eq in Hj by (by eapply lookup_lt_Some).
        injection Hj as <-. apply elem_of_cons in Hx as [->|Hx]; [done|].
        destruct (unlinked_lists ls i l1 k l2 _ _ Hi Hl2) as (l & Hll & Hincl & _).
        eauto.
      - rewrite list_lookup_insert_ne in Hj by done.
        destruct (unlinked_lists ls i l1 k l2 _ _ Hi Hj) as (l & Hll & Hincl & _).
        eauto. }
    assert (Hnk : ∀ j l3 x, <[i := l1 ++ l2]> ls !! j = Some l3 → x ∈ l3 → x ≠ k).
    { intros j l3 x Hj Hx ->. apply Hnin. apply elem_of_concat_lookup. eauto. }
    apply (Htail (Buf k) s4 (<[t := k :: lt2]> (<[i := l1 ++ l2]> ls))); try done.
    + rewrite concat_add_perm by done. by rewrite <- concat_remove_perm.
    + (* placed *)
      intros j l3 x Hj Hx. destruct (decide (x = k)) as [->|Hxk].
      * rewrite Hkd, Hkb. fold t.
        destruct (decide (t = j)) as [|Hne]; [done|]. exfalso.
        rewrite list_lookup_insert_ne in Hj by done. by eapply Hnk.
      * destruct (Hother x Hxk) as (-> & -> & _).
        destruct (Hlisted j l3 x Hj Hx Hxk) as (l & Hll & Hxl). by eapply I1.
    + (* first_pinned *)
      intros j l3 y x Hj Hb Hr.
      destruct (decide (t = j)) as [<-|Hne].
      * rewrite list_lookup_insert_eq in Hj by (by eapply lookup_lt_Some).
        injection Hj as <-.
        destruct (unlinked_lists ls i l1 k l2 _ _ Hi Hl2) as (l & Hll & Hincl & Hord).
        rewrite Hl in Hll. injection Hll as <-.
        apply before_cons_inv in Hb as [[-> Hx]|Hb].
        -- pose proof (Hnk _ _ _ Hl2 Hx) as Hxk.
           destruct (Hother x Hxk) as (-> & -> & _). rewrite Hkd, Hkb.
           intros [Hd Hbn]. apply (cached_None s d bn lt x Hm); [by apply Hincl|done].
        -- destruct (before_elem _ _ _ Hb) as [Hy Hx].
           pose proof (Hnk _ _ _ Hl2 Hx) as Hxk.
           pose proof (Hnk _ _ _ Hl2 Hy) as Hyk.
           destruct (Hother x Hxk) as (-> & -> & Hrx).
           destruct (Hother y Hyk) as (-> & -> & _).
           rewrite Hrx in Hr. apply (I3 _ _ _ _ Hl (Hord _ _ Hb) Hr).
      * rewrite list_lookup_insert_ne in Hj by done.
        destruct (unlinked_lists ls i l1 k l2 _ _ Hi Hj) as (l & Hll & Hincl & Hord).
        destruct (before_elem _ _ _ Hb) as [Hy Hx].
        pose proof (Hnk _ _ _ Hj Hx) as Hxk.
        pose proof (Hnk _ _ _ Hj Hy) as Hyk.
        destruct (Hother x Hxk) as (-> & -> & Hrx).
        destruct (Hother y Hyk) as (-> & -> & _).
        rewrite Hrx in Hr. apply (I3 _ _ _ _ Hll (Hord _ _ Hb) Hr).
Qed.

End Tidy.

(** * The claims *)

Section Claims.
Context `{cfg : config}.

Lemma wellformed_Wf s :
  wellformed s = true → ∃ ls, lists_of s = Some ls ∧ Wf s ls.
Proof.
  unfold wellformed. rewrite !andb_true_iff. intros [[[Hs Hu] Ht] Hl].
  by apply linked_Wf.
Qed.

Lemma idle_nil s ls :
  idle s ls = [] ↔ ∀ ik, ik ∈ scan_order ls → refcnt (slot s ik.2) ≠ 0.
Proof.
  unfold idle. split.
  - intros H ik Hin Hr.
    assert (Hf : ik ∈ filter (λ ik, refcnt (slot s ik.2) = 0) (scan_order ls)).
    { by apply list_elem_of_filter. }
    rewrite H in Hf. by apply elem_of_nil in Hf.
  - intros H. induction (scan_order ls) as [|ik l IH]; [done|].
    rewrite filter_cons. case_decide as Hd.
    + exfalso. apply (H ik); [by left|done].
    + apply IH. intros ik' Hin. apply H. by right.
Qed.

(** C2.  On a miss the scan of [bget] settles on an idle slot
    ([refcnt == 0]) whose [timestamp] is the largest among all idle
    slots of all buckets; among several with that stamp it is the one
    met last, in the order bucket 0 .. NBUK-1 and head to tail.  When it
    returns, the lock of that slot's bucket is held and no other bucket
    lock is; with no idle slot anywhere, none is held and [prev_lru_b]
    is still null. *)
Theorem bget_scan_picks_largest_stamp s :
  wellformed s = true →
  ∃ ls v s',
    lists_of s = Some ls ∧
    bget_scan s = Ret v s' ∧
    bcache_buf s' = bcache_buf s ∧
    (∀ j, (j < NBUK)%nat →
          spin_get (BucketLock (Z.of_nat j)) s' =
          Some (Spinlock (bool_decide (Z.of_nat j = lru_buk_id v)))) ∧
    match idle s ls with
    | [] => lru_buk_id v = -1 ∧ prev_lru_b v = Null
    | _ :: _ =>
        ∃ pre i k post p,
          scan_order ls = pre ++ (i, k) :: post ∧
          (i < NBUK)%nat ∧
          lru_buk_id v = Z.of_nat i ∧
          node (prev_lru_b v) s' = Some p ∧ next p = Buf k ∧
          refcnt (slot s k) = 0 ∧
          (∀ ik, ik ∈ pre → refcnt (slot s ik.2) = 0 →
                 timestamp (slot s ik.2) ≤ timestamp (slot s k)) ∧
          (∀ ik, ik ∈ post → refcnt (slot s ik.2) = 0 →
                 timestamp (slot s ik.2) < timestamp (slot s k))
    end.
Proof.
  intros Hwf. destruct (wellformed_Wf s Hwf) as (ls & Hls & W).
  set (v := scan_all s O ls (mkscan 0 (-1) false Null)).
  exists ls, v, (hold (lru_buk_id v) s).
  split; [done|]. split; [by apply bget_scan_spec|].
  split; [apply bcache_buf_hold|].
  assert (Hfree : ∀ j, (j < NBUK)%nat →
            spin_get (BucketLock (Z.of_nat j)) s = Some (Spinlock false)).
  { intros j Hj. apply (Wf_lock_free s ls _ W). lia. }
  destruct (scan_choice s ls W) as
    [[Hbusy Hv]|(pre & i & k & post & l1 & l2 & Hs & Hl & Hp & Hid & Hr & Hpre & Hpost)];
    fold v in Hv || fold v in Hp, Hid.
  - rewrite Hv. simpl lru_buk_id. rewrite hold_none. split.
    + intros j Hj. rewrite (Hfree j Hj). do 2 f_equal.
      symmetry. apply bool_decide_eq_false. lia.
    + apply idle_nil in Hbusy. by rewrite Hbusy.
  - assert (Hi : (i < NBUK)%nat).
    { apply lookup_lt_Some in Hl. by rewrite (wf_lists _ _ W) in Hl. }
    rewrite Hid, hold_some by lia. split.
    + intros j Hj. destruct (decide (j = i)) as [->|Hne].
      * rewrite spin_get_spin_set_eq, (Hfree i Hi). simpl. do 2 f_equal.
        symmetry. by apply bool_decide_eq_true.
      * rewrite spin_get_spin_set_ne, (Hfree j Hj).
        -- do 2 f_equal. symmetry. apply bool_decide_eq_false. lia.
        -- intros [= Heq]. lia.
        -- by rewrite (Hfree i Hi).
    + destruct (idle s ls) as [|ik0 rest] eqn:Hidle.
      * exfalso. apply (proj1 (idle_nil s ls) Hidle (i, k)); [|done].
        rewrite Hs. apply elem_of_app. right. by left.
      * destruct (pred_node s ls i l1 k l2 W Hl) as (p & b & Hnp & Hpn & _).
        exists pre, i, k, post, p. rewrite node_spin_set, Hp.
        repeat split; done.
Qed.

(** C9.  [bread] returns the slot that [bget] returned, with its
    sleep-lock still held by the caller and [valid] set; it reads the
    block from the disk, once, exactly when [valid] was 0 as [bget]
    returned the slot, and then [data] is what the disk holds for the
    slot's block; otherwise it transfers nothing and changes nothing. *)
Theorem bread_reads_once_iff_invalid me d bn s b s1 :
  bget me d bn s = Ret b s1 →
  ∃ n s2 n2,
    node b s1 = Some n ∧
    bread me d bn s = Ret b s2 ∧
    node b s2 = Some n2 ∧
    lock n2 = Sleeplock true me ∧
    valid n2 ≠ 0 ∧
    (valid n = 0 →
       valid n2 = 1 ∧
       data n2 = disk_lookup (dev n) (blockno n) (disk s1) ∧
       io_log s2 = io_log s1 ++ [DiskRead b (dev n) (blockno n)]) ∧
    (valid n ≠ 0 → s2 = s1).
Proof.
  intros Hg. destruct (bget_Ret_inv _ _ _ _ _ _ Hg) as (n & Hn & Hlk).
  exists n, (read_in b n s1).
  pose proof (bread_after_bget _ _ _ _ _ _ _ Hg Hn) as Hb.
  unfold read_in in *. destruct (valid n =? 0) eqn:Hv.
  - apply Z.eqb_eq in Hv. eexists. split; [done|]. split; [done|].
    rewrite node_poke_eq, node_with_io_log, node_poke_eq, Hn. simpl.
    split; [done|]. repeat split; try done.
    by rewrite io_log_poke.
  - apply Z.eqb_neq in Hv. exists n. repeat split; done.
Qed.

(** C7.  [bwrite] and [brelse] on a buffer whose sleep-lock the caller
    does not hold end in [panic]; when the caller holds it neither check
    fires: [bwrite] returns, and [brelse] returns with the sleep-lock
    free and [refcnt] one less (modulo 2^32, so exactly one less when it
    was positive). *)
Theorem flush_release_need_the_sleeplock s me b n :
  wellformed s = true →
  node b s = Some n →
  (locked (lock n) && (pid (lock n) =? me) = false →
     bwrite me b s = Panic "bwrite" ∧ brelse me b s = Panic "brelse") ∧
  (locked (lock n) && (pid (lock n) =? me) = true →
     (∃ s', bwrite me b s = Ret tt s') ∧
     ∃ s' n', brelse me b s = Ret tt s' ∧
              node b s' = Some n' ∧
              locked (lock n') = false ∧
              refcnt n' = to_uint (refcnt n - 1) ∧
              (0 < refcnt n < 2 ^ 32 → refcnt n' = refcnt n - 1)).
Proof.
  intros Hwf Hn. destruct (wellformed_Wf s Hwf) as (ls & _ & W). split.
  - intros Hh. split.
    + by eapply bwrite_not_holding.
    + by eapply brelse_not_holding.
  - intros Hh. split.
    + eexists. by eapply bwrite_holding.
    + exists (released b n s).
      assert (Hn' : ∃ n', node b (released b n s) = Some n' ∧
                          lock n' = Sleeplock false 0 ∧
                          refcnt n' = to_uint (refcnt n - 1)).
      { unfold released. destruct (_ =? 0).
        - rewrite !node_poke_eq, Hn. simpl. eauto.
        - rewrite !node_poke_eq, Hn. simpl. eauto. }
      destruct Hn' as (n' & Hn' & Hl & Hr). exists n'.
      split; [by eapply brelse_holding|]. split; [done|].
      split; [by rewrite Hl|]. split; [done|].
      intros Hpos. rewrite Hr. apply to_uint_id. lia.
Qed.

(** C8.  Membership.  After [binit] and at every point of every
    schedule of whole calls ([bget], [bread], [bwrite], [brelse],
    [bpin], [bunpin], clock ticks) and of overlapping [bget]s (split
    where they hold no spinlock), every list ends in null and each slot
    of the pool is either on the list of one bucket, once, or is the
    victim that one caller carries between its steal and its install.
    So whenever no caller carries a victim, in particular when no call
    is in flight, every slot is on exactly one list and the lists hold
    NBUF slots; the install puts the victim back whatever the second
    search finds. *)
Theorem membership_at_quiescent_points ms s ts :
  NBUK ≠ O →
  run_schedule ms = Some (s, ts) →
  ∃ ls, lists_of s = Some ls ∧
        concat ls ++ victims ts ≡ₚ seq 0 NBUF ∧
        (victims ts = [] → membership s).
Proof.
  intros Hk Hr.
  destruct (run_schedule_accounted ms s ts Hk Hr) as [_ (ls & W & Hp)].
  exists ls. split; [by apply Wf_lists_of|]. split; [done|].
  intros Hv. rewrite Hv, app_nil_r in Hp. by apply (Wf_membership s ls).
Qed.

(** In particular between calls that do not overlap. *)
Lemma membership_between_calls cs s :
  NBUK ≠ O →
  run_from_boot cs = Some s →
  membership s.
Proof.
  intros Hk Hr.
  destruct (run_schedule_accounted (map Call cs) s [] Hk) as [_ (ls & W & Hp)].
  - by rewrite run_from_boot_schedule, Hr.
  - simpl in Hp. rewrite app_nil_r in Hp. by apply (Wf_membership s ls).
Qed.

(** C10.  [binit] writes neither [dev], [blockno], [valid] nor
    [refcnt] of any slot.  On the zeroed [bcache] it therefore leaves
    all NBUF slots with identity (0,0), not valid and unreferenced, all
    of them on the list of bucket 0.  Since [hash(0,0)] is 0, a first
    [bget(0,0)] is a hit of the fast path on the first of these slots,
    which was never populated: no scan runs, no list changes, and the
    other slots keep the identity (0,0). *)
Theorem first_bget_0_0_hits_unpopulated_slot me :
  NBUK ≠ O → (0 < NBUF)%nat →
  (∀ s u s', binit s = Ret u s' → same_identity s s') ∧
  ∃ s0 s1,
    binit boot = Ret tt s0 ∧
    lists_of s0 = Some init_lists ∧
    (∀ k, dev (slot s0 k) = 0 ∧ blockno (slot s0 k) = 0 ∧
          valid (slot s0 k) = 0 ∧ refcnt (slot s0 k) = 0) ∧
    hash 0 0 = 0 ∧
    bget_cached me 0 0 s0 = Ret (Buf 0) s1 ∧
    bget me 0 0 s0 = Ret (Buf 0) s1 ∧
    lists_of s1 = Some init_lists ∧
    io_log s1 = [] ∧
    valid (slot s1 0) = 0 ∧ refcnt (slot s1 0) = 1 ∧
    lock (slot s1 0) = Sleeplock true me ∧
    (∀ k, k ≠ O →
          dev (slot s1 k) = 0 ∧ blockno (slot s1 k) = 0 ∧
          valid (slot s1 k) = 0 ∧ refcnt (slot s1 k) = 0).
Proof.
  intros Hk Hn. split; [apply binit_same_identity|].
  set (s0 := chained NBUF).
  pose proof (Wf_chained Hk) as W. fold s0 in W.
  assert (Hl : init_lists !! Z.to_nat (hash 0 0) = Some (seq 0 NBUF)).
  { rewrite hash_0_0. unfold init_lists. simpl.
    apply list_lookup_insert_eq. rewrite length_replicate. lia. }
  assert (Hc : cached s0 0 0 (seq 0 NBUF) = Some O).
  { destruct NBUF as [|n] eqn:HN; [lia|]. unfold cached. by simpl. }
  assert (Hnode : node (Buf 0) (bump O s0) =
                  Some (set_refcnt 1 (slot s0 O))).
  { unfold bump. rewrite node_poke_eq. simpl.
    unfold slot. simpl. rewrite init_bufs_lookup, decide_True by lia. simpl.
    reflexivity. }
  assert (Htail : (acquiresleep me (Buf 0);; ret (Buf 0)) (bump O s0) =
                  Ret (Buf 0) (poke (Buf 0) (set_lock (Sleeplock true me)) (bump O s0))).
  { unfold bind. rewrite (acquiresleep_cases _ _ _ _ Hnode). simpl.
    destruct (slot_chained O) as (_ & _ & _ & _ & _ & Hlk). fold s0 in Hlk.
    by rewrite Hlk. }
  set (s1 := poke (Buf 0) (set_lock (Sleeplock true me)) (bump O s0)) in *.
  assert (W1 : Wf s1 init_lists) by (by apply Wf_set_lock, Wf_bump).
  exists s0, s1.
  split; [by apply binit_boot|].
  split; [by apply Wf_lists_of|].
  split; [intros k; destruct (slot_chained k) as (? & ? & ? & ? & _); done|].
  split; [apply hash_0_0|].
  split; [by rewrite (bget_cached_hit s0 init_lists me 0 0 _ O W Hl Hc)|].
  split; [by rewrite (bget_hit s0 init_lists me 0 0 _ O W Hl Hc)|].
  split; [by apply Wf_lists_of|].
  split; [done|].
  assert (Hs1 : slot s1 O = set_lock (Sleeplock true me) (set_refcnt 1 (slot s0 O))).
  { unfold s1. rewrite slot_poke_eq.
    - f_equal. change (slot (bump O s0) O) with (default zero_buf (node (Buf 0) (bump O s0))).
      by rewrite Hnode.
    - unfold bump. rewrite length_buf_poke, (wf_buf _ _ W). lia. }
  rewrite Hs1. simpl.
  destruct (slot_chained O) as (_ & _ & Hv & _). fold s0 in Hv.
  repeat split; try done.
  all: unfold s1, bump; rewrite !slot_poke_ne by congruence;
    destruct (slot_chained k) as (? & ? & ? & ? & _); done.
Qed.

Lemma run_bgets_tidy (args : list (Z * Z * Z)) :
  ∀ s s', tidy s →
    run_calls (map (λ a, Bget a.1.1 a.1.2 a.2) args) s = Some s' → tidy s'.
Proof.
  induction args as [|a args IH]; intros s s' Ht Hr; simpl in Hr.
  - by injection Hr as <-.
  - destruct (afterwards (bget a.1.1 a.1.2 a.2 s)) as [s1|] eqn:Ha; [|done].
    apply (IH s1); [by eapply bget_tidy|done].
Qed.

(** Identity uniqueness while calls do not overlap: after [binit] and
    any sequence of [bget] calls made one after the other (by whichever
    processes, for whichever blocks, each returning or leaving its
    caller asleep on the buffer's sleep-lock), no two slots with
    [refcnt > 0] have the same [dev] and [blockno].  The second search
    of [bget] has no part in it: in such runs it finds nothing
    ([rescan_misses]). *)
Lemma identity_unique_after_bgets (args : list (Z * Z * Z)) s :
  NBUK ≠ O →
  run_from_boot (map (λ a, Bget a.1.1 a.1.2 a.2) args) = Some s →
  unique_identity s.
Proof.
  intros Hk Hr. apply tidy_unique.
  unfold run_from_boot in Hr. rewrite (booted_chained Hk) in Hr.
  apply (run_bgets_tidy args (chained NBUF)); [by apply tidy_chained|done].
Qed.

Lemma stolen_Wf s k :
  stolen s k = true →
  ∃ ls, lists_of s = Some ls ∧ Wf s ls ∧ (k < NBUF)%nat ∧ k ∉ concat ls.
Proof.
  unfold stolen. rewrite !andb_true_iff. intros [[Hw Hk] Hn].
  destruct (wellformed_Wf s Hw) as (ls & Hls & W).
  rewrite Hls in Hn. apply bool_decide_eq_true in Hk, Hn. eauto.
Qed.

Lemma cached_same_fields s s' d bn l :
  (∀ x, dev (slot s' x) = dev (slot s x) ∧ blockno (slot s' x) = blockno (slot s x)) →
  cached s' d bn l = cached s d bn l.
Proof.
  intros H. unfold cached. induction l as [|x l IH]; simpl; [done|].
  destruct (H x) as [-> ->]. by rewrite IH.
Qed.

(** X17.  A duplicate found by the second search is taken and the
    victim stays where it was put.  The second half of [bget] is run
    with a victim [k] that is off its list, unreferenced and of
    another identity than the wanted block, on a
    state in which slot [m] of the target bucket caches the wanted
    block already: the second search finds [m], and the call goes on to
    take the sleep-lock of [m] and return it, in a state in which
    [refcnt] of [m] is one more, the victim is the head of the target
    bucket's list, in front of what was there, and has kept its
    identity, its [valid] and its [refcnt] of 0. *)
Theorem duplicate_found_leaves_victim_linked s me d bn k ls lt m :
  stolen s k = true →
  lists_of s = Some ls →
  ls !! Z.to_nat (hash d bn) = Some lt →
  refcnt (slot s k) = 0 →
  caches s k d bn = false →
  cached s d bn lt = Some m →
  ∃ s1,
    bget_install me d bn (Buf k) s = (acquiresleep me (Buf m);; ret (Buf m)) s1 ∧
    (∀ b s2, bget_install me d bn (Buf k) s = Ret b s2 →
             b = Buf m ∧ s2 = poke (Buf m) (set_lock (Sleeplock true me)) s1) ∧
    m ≠ k ∧
    refcnt (slot s1 m) = to_uint (refcnt (slot s m) + 1) ∧
    lists_of s1 = Some (<[Z.to_nat (hash d bn) := k :: lt]> ls) ∧
    next (bucket_head s1 (Z.to_nat (hash d bn))) = Buf k ∧
    next (slot s1 k) = next (bucket_head s (Z.to_nat (hash d bn))) ∧
    dev (slot s1 k) = dev (slot s k) ∧
    blockno (slot s1 k) = blockno (slot s k) ∧
    valid (slot s1 k) = valid (slot s k) ∧
    refcnt (slot s1 k) = 0 ∧
    unlocked s1 = true.
Proof.
  intros Hst Hls Hl Hr Hck Hm.
  destruct (stolen_Wf s k Hst) as (ls' & Hls' & W & Hk & Hnin).
  rewrite Hls in Hls'. injection Hls' as <-.
  set (t := Z.to_nat (hash d bn)) in *.
  pose proof (cached_Some _ _ _ _ _ Hm) as (Hin & Hdm & Hbm).
  assert (Hmk : m ≠ k).
  { intros ->. apply Hnin, elem_of_concat_lookup. eauto. }
  assert (Hre : cached (link t k s) d bn (k :: lt) = Some m).
  { rewrite (cached_same_fields s) by (intros x; destruct (slot_link t k s x) as (? & ? & _); done).
    unfold cached in *. simpl. unfold caches in Hck. by rewrite Hck. }
  pose proof (bget_install_spec s ls me d bn k lt W Hl Hnin Hk) as Hrun.
  unfold installed in Hrun. fold t in Hrun. rewrite Hre in Hrun. cbn [fst snd] in Hrun.
  set (s1 := bump m (link t k s)) in *.
  pose proof (Wf_link s ls t lt k W Hl Hnin Hk) as WL.
  pose proof (Wf_bump m _ _ WL) as W1. fold s1 in W1.
  assert (Hlen : (m < length (bcache_buf (link t k s)))%nat).
  { rewrite length_buf_link.
    destruct (wf_chain _ _ W _ _ Hl) as (h & _ & Hc). by eapply chain_lt. }
  exists s1. split; [done|]. split.
  { intros b s2 Hret. rewrite Hrun in Hret.
    apply tail_Ret_inv in Hret as (-> & n & _ & ->). done. }
  split; [done|]. split.
  { unfold s1, bump. rewrite slot_poke_eq by done. simpl.
    by destruct (slot_link t k s m) as (_ & _ & ->). }
  split; [by apply Wf_lists_of|].
  destruct (wf_chain _ _ W _ _ Hl) as (h & Hh & _).
  assert (Hhead : bucket_head s1 t = set_next (Buf k) h).
  { unfold bucket_head, s1, bump, link.
    rewrite node_poke_ne, node_poke_eq, node_poke_ne, Hh by done. done. }
  assert (Hslot : slot s1 k = set_next (next h) (slot s k)).
  { unfold s1, bump. rewrite slot_poke_ne by congruence.
    unfold link. rewrite slot_poke_ne by done.
    rewrite slot_poke_eq by (by rewrite (wf_buf _ _ W)).
    unfold bucket_head. by rewrite Hh. }
  rewrite Hhead, Hslot. unfold bucket_head. rewrite Hh. simpl.
  repeat split; try done.
  apply unlocked_spec. apply (wf_unlocked _ _ W1).
Qed.

End Claims.

(** * The kernel's configuration and the scenarios *)

(** C1.  Scenario 8.6 on the code: with the pool of the specification
    (two slots, one bucket) and with the kernel's own, [bget(1,30)]
    returns the slot B of block (1,20), which was released at tick 2,
    with identity (1,30), not valid and referenced once, while the slot
    A of block (1,10), released at tick 1, still caches (1,10).  The
    claim has A evicted. *)
Theorem scenario_8_6_evicts_later_release :
  match @scenario_8_6 tiny (@boot tiny) with
  | Ret (a, b, c) s =>
      a = Buf 1 ∧ b = Buf 0 ∧ c = b ∧
      @view tiny s 1 = (1, 10, 0, 0, 1) ∧
      @view tiny s 0 = (1, 30, 0, 1, 2)
  | _ => False
  end ∧
  match @scenario_8_6 xv6 (@boot xv6) with
  | Ret (a, b, c) s =>
      a = Buf 29 ∧ b = Buf 28 ∧ c = b ∧
      @view xv6 s 29 = (1, 10, 0, 0, 1) ∧
      @view xv6 s 28 = (1, 30, 0, 1, 2)
  | _ => False
  end.
Proof. split; vm_compute; repeat split. Qed.

(** With both releases in one tick the two stamps are equal and the
    slot met last by the scan goes, which in the two-slot pool is A. *)
Lemma scenario_8_6_same_tick_evicts_last_scanned :
  match @scenario_8_6_same_tick tiny (@boot tiny) with
  | Ret (a, b, c) s =>
      a = Buf 1 ∧ b = Buf 0 ∧ c = a ∧
      @view tiny s 1 = (1, 30, 0, 1, 1) ∧
      @view tiny s 0 = (1, 20, 0, 0, 1)
  | _ => False
  end.
Proof. vm_compute; repeat split. Qed.

(** C3.  A buffer that is pinned, released at tick 1 and unpinned at
    tick 2 has [refcnt] 0 from tick 2 on, through [bunpin], and its
    [timestamp] is still the 0 that [binit] wrote: [bunpin] does not
    stamp.  [brelse] taking [refcnt] to 0 at tick 2 does stamp, 2. *)
Theorem bunpin_to_zero_leaves_stamp :
  match @pin_release_unpin xv6 (@boot xv6) with
  | Ret a s => a = Buf 29 ∧ ticks s = 2 ∧ @view xv6 s 29 = (1, 10, 0, 0, 0)
  | _ => False
  end ∧
  match @release_at_2 xv6 (@boot xv6) with
  | Ret a s => a = Buf 29 ∧ ticks s = 2 ∧ @view xv6 s 29 = (1, 10, 0, 0, 2)
  | _ => False
  end.
Proof. split; vm_compute; repeat split. Qed.

(** C4.  With all 30 slots referenced, a [bget] for a block that is not
    cached does not reach [panic("bget: no buffers")]: the scan leaves
    [prev_lru_b] null and [lru_b = prev_lru_b->next] dereferences it. *)
Theorem exhausted_pool_dereferences_null :
  match @run_from_boot xv6 (hoard 30) with
  | Some s =>
      (∀ k, (k < 30)%nat → refcnt (@slot xv6 s k) = 1) ∧
      @quiescent xv6 s = true ∧
      @bget_cached xv6 7 1 31 s = Ret Null s ∧
      (∃ v, @bget_scan xv6 s = Ret v s ∧ prev_lru_b v = Null) ∧
      @bget xv6 7 1 31 s = Undefined NullDeref
  | None => False
  end.
Proof.
  vm_compute. split; [|split; [reflexivity|split; [reflexivity|split]]].
  - intros k Hk. do 30 (destruct k as [|k]; [reflexivity|]). lia.
  - eexists. split; reflexivity.
  - reflexivity.
Qed.

(** C5.  Overlapping [bget]s can leave one block cached in two
    referenced slots.  In [reuse_race] slot 29, which cached block (1,2)
    and was left in bucket 3 by a caller that lost the race for block
    (1,3), is stolen by process 4 for block (1,2) while process 5
    installs that block in slot 27; process 4 then links slot 29 in
    front of slot 27, and its second search stops at slot 29 itself,
    whose [dev] and [blockno] are still (1,2).  Both processes return
    with their own slot, each with [refcnt] 1 and its sleep-lock held.
    [double_race] does the same with no call but [bget]: two leftovers
    of a race for block (1,1), still of identity (0,0), are taken by two
    callers that miss on block (0,0). *)
Theorem overlapping_bgets_duplicate_identity :
  (@run_schedule xv6 reuse_race = Some (@schedule_state xv6 reuse_race, []) ∧
   let s := @schedule_state xv6 reuse_race in
   @view xv6 s 29 = (1, 2, 1, 1, 1) ∧ lock (@slot xv6 s 29) = Sleeplock true 4 ∧
   @view xv6 s 27 = (1, 2, 0, 1, 0) ∧ lock (@slot xv6 s 27) = Sleeplock true 5 ∧
   @lists_of xv6 s
   = Some ([seq 0 27; []; [29; 27]; [28]] ++ replicate 9 [])%nat ∧
   ¬ @unique_identity xv6 s) ∧
  (@run_schedule xv6 double_race = Some (@schedule_state xv6 double_race, []) ∧
   let s := @schedule_state xv6 double_race in
   @view xv6 s 0 = (0, 0, 0, 1, 0) ∧ lock (@slot xv6 s 0) = Sleeplock true 5 ∧
   @view xv6 s 1 = (0, 0, 0, 1, 0) ∧ lock (@slot xv6 s 1) = Sleeplock true 4 ∧
   ¬ @unique_identity xv6 s).
Proof.
  split.
  - split; [vm_compute; reflexivity|]. intros s.
    do 5 (split; [vm_compute; reflexivity|]).
    intros H. specialize (H 29%nat 27%nat).
    assert (E : 29%nat = 27%nat); [|discriminate E].
    apply H; vm_compute; (reflexivity || lia).
  - split; [vm_compute; reflexivity|]. intros s.
    do 4 (split; [vm_compute; reflexivity|]).
    intros H. specialize (H 0%nat 1%nat).
    assert (E : 0%nat = 1%nat); [|discriminate E].
    apply H; vm_compute; (reflexivity || lia).
Qed.

(** C6.  The second search does not always find the other slot.  In
    [reuse_race], when process 4 comes to install, its victim, slot 29,
    is off the lists and idle and still carries identity (1,2), the
    block wanted, from an earlier use; slot 27 of the target bucket
    caches block (1,2) already, referenced by process 5.  The victim is
    linked in front of slot 27 before the second search, which stops at
    the victim itself: [bget] returns slot 29 with [refcnt] 1 and the
    sleep-lock taken, and [refcnt] of slot 27 is what it was.  The slot
    that matched beforehand is not the one incremented and returned,
    and the victim does not stay at [refcnt] 0. *)
Theorem rescan_stops_at_the_victim :
  let s := @schedule_state xv6 reuse_race_before_install in
  @stolen xv6 s 29 = true ∧
  refcnt (@slot xv6 s 29) = 0 ∧
  @lists_of xv6 s = Some ([seq 0 27; []; [27]; [28]] ++ replicate 9 [])%nat ∧
  Z.to_nat (@hash xv6 1 2) = 2%nat ∧
  @cached xv6 s 1 2 [27%nat] = Some 27%nat ∧
  ∃ s1,
    @bget_install xv6 4 1 2 (Buf 29) s = Ret (Buf 29) s1 ∧
    refcnt (@slot xv6 s1 29) = 1 ∧
    lock (@slot xv6 s1 29) = Sleeplock true 4 ∧
    refcnt (@slot xv6 s1 27) = refcnt (@slot xv6 s 27) ∧
    ¬ (∃ s2, @bget_install xv6 4 1 2 (Buf 29) s
             = (acquiresleep 4 (Buf 27);; ret (Buf 27)) s2).
Proof.
  intros s. do 5 (split; [vm_compute; reflexivity|]).
  eexists. split; [vm_compute; reflexivity|].
  do 3 (split; [vm_compute; reflexivity|]).
  intros [s2 H].
  assert (E : @bget_install xv6 4 1 2 (Buf 29) s = Ret (Buf 29)
                (@schedule_state xv6 reuse_race)) by (vm_compute; reflexivity).
  rewrite E in H. unfold bind, ret in H.
  destruct (acquiresleep 4 (Buf 27) s2); discriminate H || (injection H; discriminate).
Qed.

(** ** Instances in the kernel's configuration *)

(** The scan after scenario 8.6 up to the two releases: of the idle
    slots, those never used (stamp 0, bucket 0), A (stamp 1, bucket 10)
    and B (stamp 2, bucket 7), it settles on B and holds the lock of
    bucket 7 alone. *)
Lemma bget_scan_picks_largest_stamp_xv6 :
  let s := @state_after xv6
             [Bget 1 1 10; Bget 1 1 20; Tick; Brelse 1 (Buf 29); Tick; Brelse 1 (Buf 28)] in
  @wellformed xv6 s = true ∧
  ∃ v s', @bget_scan xv6 s = Ret v s' ∧
          lru_buk_id v = 7 ∧ prev_lru_b v = Head 7 ∧
          spin_get (BucketLock 7) s' = Some (Spinlock true) ∧
          spin_get (BucketLock 10) s' = Some (Spinlock false).
Proof.
  intros s.
  assert (Hw : @wellformed xv6 s = true) by (vm_compute; reflexivity).
  split; [exact Hw|].
  destruct (@bget_scan_picks_largest_stamp xv6 s Hw) as (ls & v & s' & _ & Hrun & _ & Hlk & _).
  exists v, s'. split; [exact Hrun|].
  assert (Hv : Ret v s' = @bget_scan xv6 s) by (symmetry; exact Hrun).
  vm_compute in Hv. injection Hv as -> ->.
  vm_compute. repeat split; reflexivity.
Defined.

(** Two callers ask for block (1,10), a third for (1,20). *)
Lemma identity_unique_after_bgets_xv6 :
  @NBUK xv6 ≠ O ∧
  @run_from_boot xv6 (map (λ a, Bget a.1.1 a.1.2 a.2) [(1, 1, 10); (2, 1, 10); (1, 1, 20)])
  = Some (@state_after xv6 [Bget 1 1 10; Bget 2 1 10; Bget 1 1 20]) ∧
  @unique_identity xv6 (@state_after xv6 [Bget 1 1 10; Bget 2 1 10; Bget 1 1 20]).
Proof.
  assert (Hk : @NBUK xv6 ≠ O) by (vm_compute; discriminate).
  assert (Hr : @run_from_boot xv6
                 (map (λ a, Bget a.1.1 a.1.2 a.2) [(1, 1, 10); (2, 1, 10); (1, 1, 20)])
               = Some (@state_after xv6 [Bget 1 1 10; Bget 2 1 10; Bget 1 1 20]))
    by (vm_compute; reflexivity).
  split; [exact Hk|]. split; [exact Hr|].
  exact (@identity_unique_after_bgets xv6 _ _ Hk Hr).
Defined.

(** The second caller of [race_for_1_1] installs its victim, slot 28:
    it finds slot 29, which the first caller made block (1,1), and
    leaves slot 28 at the head of bucket 1 with identity (0,0). *)
Lemma duplicate_found_leaves_victim_linked_xv6 :
  let s := @schedule_state xv6 race_for_1_1 in
  @stolen xv6 s 28 = true ∧
  refcnt (@slot xv6 s 28) = 0 ∧
  @caches xv6 s 28 1 1 = false ∧
  ∃ s1,
    @bget_install xv6 2 1 1 (Buf 28) s = (acquiresleep 2 (Buf 29);; ret (Buf 29)) s1 ∧
    refcnt (@slot xv6 s1 29) = 2 ∧
    next (@bucket_head xv6 s1 1) = Buf 28 ∧
    next (@slot xv6 s1 28) = Buf 29 ∧
    dev (@slot xv6 s1 28) = 0 ∧ blockno (@slot xv6 s1 28) = 0 ∧
    valid (@slot xv6 s1 28) = 0 ∧ refcnt (@slot xv6 s1 28) = 0.
Proof.
  intros s.
  assert (H1 : @stolen xv6 s 28 = true) by (vm_compute; reflexivity).
  assert (H2 : @lists_of xv6 s = Some (seq 0 28 :: [29%nat] :: replicate 11 []))
    by (vm_compute; reflexivity).
  assert (H3 : (seq 0 28 :: [29%nat] :: replicate 11 []) !! Z.to_nat (@hash xv6 1 1)
               = Some [29%nat]) by (vm_compute; reflexivity).
  assert (H4 : refcnt (@slot xv6 s 28) = 0) by (vm_compute; reflexivity).
  assert (H5 : @caches xv6 s 28 1 1 = false) by (vm_compute; reflexivity).
  assert (H6 : @cached xv6 s 1 1 [29%nat] = Some 29%nat) by (vm_compute; reflexivity).
  split; [exact H1|]. split; [exact H4|]. split; [exact H5|].
  destruct (@duplicate_found_leaves_victim_linked xv6 s 2 1 1 28 _ _ 29%nat H1 H2 H3 H4 H5 H6)
    as (s1 & Hrun & _ & _ & Hr & _ & Hhead & Hnext & Hd & Hb & Hv & Hr0 & _).
  exists s1. split; [exact Hrun|].
  split; [rewrite Hr; vm_compute; reflexivity|].
  split; [exact Hhead|].
  split; [rewrite Hnext; vm_compute; reflexivity|].
  rewrite Hd, Hb, Hv, Hr0. vm_compute. repeat split; reflexivity.
Defined.

(** Process 1 holds slot 29 after [bget(1,10)]; process 2 does not. *)
Lemma flush_release_need_the_sleeplock_xv6 :
  let s := @state_after xv6 [Bget 1 1 10] in
  @wellformed xv6 s = true ∧
  @bwrite xv6 2 (Buf 29) s = Panic "bwrite" ∧
  @brelse xv6 2 (Buf 29) s = Panic "brelse" ∧
  (∃ s', @bwrite xv6 1 (Buf 29) s = Ret tt s') ∧
  ∃ s' n', @brelse xv6 1 (Buf 29) s = Ret tt s' ∧ node (Buf 29) s' = Some n' ∧
           locked (lock n') = false ∧ refcnt n' = 0.
Proof.
  intros s.
  assert (Hw : @wellformed xv6 s = true) by (vm_compute; reflexivity).
  assert (Hn : node (Buf 29) s = Some (@slot xv6 s 29)) by (vm_compute; reflexivity).
  destruct (@flush_release_need_the_sleeplock xv6 s 2 (Buf 29) _ Hw Hn) as [Hno _].
  destruct (@flush_release_need_the_sleeplock xv6 s 1 (Buf 29) _ Hw Hn) as [_ Hyes].
  destruct (Hno ltac:(vm_compute; reflexivity)) as [Hw2 Hr2].
  destruct (Hyes ltac:(vm_compute; reflexivity)) as [Hw1 (s' & n' & Hr1 & Hn' & Hl & Hr & _)].
  split; [exact Hw|]. split; [exact Hw2|]. split; [exact Hr2|]. split; [exact Hw1|].
  exists s', n'. split; [exact Hr1|]. split; [exact Hn'|]. split; [exact Hl|].
  rewrite Hr. vm_compute. reflexivity.
Defined.

(** A schedule with every kind of call and two overlapping misses on
    block (1,30), the second of which finds the block installed by the
    first: at its end nobody is inside [bget]. *)
Lemma membership_at_quiescent_points_xv6 :
  @NBUK xv6 ≠ O ∧
  @run_schedule xv6 mixed_schedule = Some (@schedule_state xv6 mixed_schedule, []) ∧
  @membership xv6 (@schedule_state xv6 mixed_schedule).
Proof.
  assert (Hk : @NBUK xv6 ≠ O) by (vm_compute; discriminate).
  assert (Hr : @run_schedule xv6 mixed_schedule
               = Some (@schedule_state xv6 mixed_schedule, []))
    by (vm_compute; reflexivity).
  split; [exact Hk|]. split; [exact Hr|].
  destruct (@membership_at_quiescent_points xv6 _ _ _ Hk Hr) as (ls & _ & _ & Hm).
  exact (Hm eq_refl).
Defined.

(** The first [bread(1,10)] after boot reads the block into slot 29. *)
Lemma bread_reads_once_iff_invalid_xv6 :
  let s := @state_after xv6 [] in
  ∃ s1, @bget xv6 1 1 10 s = Ret (Buf 29) s1 ∧
  ∃ s2 n2, @bread xv6 1 1 10 s = Ret (Buf 29) s2 ∧
           node (Buf 29) s2 = Some n2 ∧
           lock n2 = Sleeplock true 1 ∧ valid n2 = 1 ∧
           io_log s2 = [DiskRead (Buf 29) 1 10].
Proof.
  intros s.
  assert (Hg : ∃ s1, @bget xv6 1 1 10 s = Ret (Buf 29) s1)
    by (eexists; vm_compute; reflexivity).
  destruct Hg as [s1 Hg]. exists s1. split; [exact Hg|].
  destruct (@bread_reads_once_iff_invalid xv6 1 1 10 s (Buf 29) s1 Hg)
    as (n & s2 & n2 & Hn & Hb & Hn2 & Hl & _ & Hrd & _).
  assert (Hs1 : Ret (Buf 29) s1 = @bget xv6 1 1 10 s) by (symmetry; exact Hg).
  vm_compute in Hs1. injection Hs1 as ->.
  vm_compute in Hn. injection Hn as <-.
  destruct (Hrd eq_refl) as (Hv & _ & Hio).
  exists s2, n2. split; [exact Hb|]. split; [exact Hn2|]. split; [exact Hl|].
  split; [exact Hv|]. exact Hio.
Defined.

(** The kernel has at least one bucket and one buffer. *)
Lemma first_bget_0_0_hits_unpopulated_slot_xv6 :
  @NBUK xv6 ≠ O ∧ (0 < @NBUF xv6)%nat ∧
  ∃ s0 s1,
    @binit xv6 (@boot xv6) = Ret tt s0 ∧
    @bget_cached xv6 1 0 0 s0 = Ret (Buf 0) s1 ∧
    @bget xv6 1 0 0 s0 = Ret (Buf 0) s1 ∧
    valid (@slot xv6 s1 0) = 0 ∧ refcnt (@slot xv6 s1 0) = 1.
Proof.
  assert (Hk : @NBUK xv6 ≠ O) by (vm_compute; discriminate).
  assert (Hn : (0 < @NBUF xv6)%nat) by (vm_compute; lia).
  split; [exact Hk|]. split; [exact Hn|].
  destruct (@first_bget_0_0_hits_unpopulated_slot xv6 1 Hk Hn)
    as (_ & s0 & s1 & Hb & _ & _ & _ & Hc & Hg & _ & _ & Hv & Hr & _).
  exists s0, s1. repeat split; assumption.
Defined.

(** * Further properties of bio.c *)

Section Further.
Context `{cfg : config}.

(** ** Slots under the state changes *)

Lemma Wf_wellformed s ls : Wf s ls → wellformed s = true.
Proof.
  intros W. unfold wellformed. rewrite !andb_true_iff. repeat split.
  - apply shaped_spec. by destruct W.
  - apply unlocked_spec. by destruct W.
  - apply typed_spec. by destruct W.
  - unfold linked. rewrite (Wf_lists_of _ _ W).
    apply bool_decide_eq_true. by destruct W.
Qed.

Lemma wellformed_lists s ls :
  wellformed s = true → lists_of s = Some ls → Wf s ls.
Proof.
  intros Hw Hl. destruct (wellformed_Wf s Hw) as (ls' & Hl' & W).
  rewrite Hl in Hl'. by injection Hl' as <-.
Qed.

Lemma slot_poke p f s x :
  slot (poke p f s) x = slot s x ∨
  (p = Buf x ∧ (x < length (bcache_buf s))%nat ∧ slot (poke p f s) x = f (slot s x)).
Proof.
  destruct (decide (p = Buf x)) as [->|Hne].
  - destruct (decide (x < length (bcache_buf s))%nat) as [Hlt|Hge].
    + right. split; [done|]. split; [done|]. by apply slot_poke_eq.
    + left. unfold slot, poke. simpl.
      rewrite !lookup_ge_None_2; [done|lia|rewrite length_alter; lia].
  - left. by apply slot_poke_ne.
Qed.

Lemma payload_poke p f s x :
  (∀ b, payload (f b) = payload b) →
  payload (slot (poke p f s) x) = payload (slot s x).
Proof.
  intros Hf. destruct (slot_poke p f s x) as [->|(_ & _ & ->)]; [done|apply Hf].
Qed.

Lemma payload_eq b b' :
  payload b = payload b' →
  dev b = dev b' ∧ blockno b = blockno b' ∧ refcnt b = refcnt b' ∧
  valid b = valid b' ∧ lock b = lock b'.
Proof.
  intros P. split; [exact (f_equal dev P)|]. split; [exact (f_equal blockno P)|].
  split; [exact (f_equal refcnt P)|]. split; [exact (f_equal valid P)|].
  exact (f_equal lock P).
Qed.

Lemma slot_spin_set lk v s x : slot (spin_set lk v s) x = slot s x.
Proof. unfold slot. by rewrite bcache_buf_spin_set. Qed.

Lemma payload_unlink p k s x :
  payload (slot (unlink p k s) x) = payload (slot s x).
Proof. unfold unlink. by apply payload_poke. Qed.

Lemma payload_link t k s x :
  payload (slot (link t k s) x) = payload (slot s x).
Proof.
  unfold link. rewrite payload_poke by done. by apply payload_poke.
Qed.

Lemma io_unlink p k s : io_log (unlink p k s) = io_log s ∧ disk (unlink p k s) = disk s
                        ∧ ticks (unlink p k s) = ticks s.
Proof. unfold unlink. by rewrite io_log_poke, disk_poke, ticks_poke. Qed.

Lemma io_link t k s : io_log (link t k s) = io_log s ∧ disk (link t k s) = disk s
                      ∧ ticks (link t k s) = ticks s.
Proof. unfold link. by rewrite !io_log_poke, !disk_poke, !ticks_poke. Qed.

Lemma io_bump m s : io_log (bump m s) = io_log s ∧ disk (bump m s) = disk s
                    ∧ ticks (bump m s) = ticks s.
Proof. unfold bump. by rewrite io_log_poke, disk_poke, ticks_poke. Qed.

Lemma io_rename d bn k s :
  io_log (rename d bn k s) = io_log s ∧ disk (rename d bn k s) = disk s
  ∧ ticks (rename d bn k s) = ticks s.
Proof. unfold rename. by rewrite !io_log_poke, !disk_poke, !ticks_poke. Qed.

(** The end of both halves of [bget]. *)
Lemma tail_cases me b s n :
  node b s = Some n →
  (acquiresleep me b;; ret b) s =
  if locked (lock n) then Sleeps s
  else Ret b (poke b (set_lock (Sleeplock true me)) s).
Proof.
  intros Hn. unfold bind. rewrite (acquiresleep_cases _ _ _ _ Hn).
  by destruct (locked (lock n)).
Qed.

Lemma node_slot s k : (k < length (bcache_buf s))%nat → node (Buf k) s = Some (slot s k).
Proof.
  intros Hk. destruct (lookup_lt_is_Some_2 _ _ Hk) as [b Hb].
  simpl. by rewrite Hb, (slot_lookup _ _ _ Hb).
Qed.

Lemma Wf_listed_lt s ls i l k :
  Wf s ls → ls !! i = Some l → k ∈ l → (k < NBUF)%nat.
Proof.
  intros W Hl Hin. destruct (wf_chain _ _ W _ _ Hl) as (h & _ & Hc).
  rewrite <- (wf_buf _ _ W). by eapply chain_lt.
Qed.

(** ** The three ways of [bget] *)

Lemma scan_order_from_snd i (ls : list (list nat)) :
  map snd (scan_order_from i ls) = concat ls.
Proof.
  revert i. induction ls as [|l ls IH]; intros i; simpl; [done|].
  rewrite map_app, IH. f_equal. rewrite map_map. simpl. apply map_id.
Qed.

Lemma elem_of_scan_order (ls : list (list nat)) x :
  x ∈ concat ls → ∃ ik, ik ∈ scan_order ls ∧ ik.2 = x.
Proof.
  unfold scan_order. rewrite <- (scan_order_from_snd O ls).
  intros Hx. apply list_elem_of_fmap in Hx as (ik & -> & Hin). eauto.
Qed.

Lemma bget_cases s ls me d bn :
  Wf s ls →
  ∃ lt, ls !! Z.to_nat (hash d bn) = Some lt ∧
  match cached s d bn lt with
  | Some m =>
      m ∈ lt ∧ (m < NBUF)%nat ∧
      bget me d bn s = (acquiresleep me (Buf m);; ret (Buf m)) (bump m s)
  | None =>
      (idle s ls = [] ∧ bget me d bn s = Undefined NullDeref) ∨
      ∃ i k l1 l2 lt2,
        ls !! i = Some (l1 ++ k :: l2) ∧ refcnt (slot s k) = 0 ∧
        (∀ x, x ∈ concat ls → refcnt (slot s x) = 0 →
              timestamp (slot s x) ≤ timestamp (slot s k)) ∧
        <[i := l1 ++ l2]> ls !! Z.to_nat (hash d bn) = Some lt2 ∧
        Wf (unlink (last_ptr i l1) k s) (<[i := l1 ++ l2]> ls) ∧
        (k ∉ concat (<[i := l1 ++ l2]> ls)) ∧ (k < NBUF)%nat ∧
        let r := installed d bn k lt2 (unlink (last_ptr i l1) k s) in
        bget me d bn s = (acquiresleep me (fst r);; ret (fst r)) (snd r)
  end.
Proof.
  intros W. destruct (hash_bucket d bn s ls W) as [lt Hl]. exists lt.
  split; [done|]. destruct (cached s d bn lt) as [m|] eqn:Hm.
  - pose proof (cached_Some _ _ _ _ _ Hm) as (Hin & _).
    split; [done|]. split; [by eapply Wf_listed_lt|]. by eapply bget_hit.
  - destruct (scan_choice s ls W) as
      [[Hbusy _]|(pre & i & k & post & l1 & l2 & Hso & Hi & Hprev & Hid & Hr & Hpre & Hpost)].
    + left. split; [exact (proj2 (idle_nil s ls) Hbusy)|]. by eapply bget_miss_none.
    + right.
      assert (Hl2 : is_Some (<[i := l1 ++ l2]> ls !! Z.to_nat (hash d bn))).
      { apply lookup_lt_is_Some. rewrite length_insert. by eapply lookup_lt_Some. }
      destruct Hl2 as [lt2 Hl2].
      destruct (Wf_unlink s ls i l1 k l2 W Hi) as [W2 Hnin].
      exists i, k, l1, l2, lt2.
      split; [done|]. split; [done|]. split.
      { intros x Hx Hrx. destruct (elem_of_scan_order ls x Hx) as (ik & Hik & <-).
        rewrite Hso in Hik. apply elem_of_app in Hik as [Hik|Hik].
        - by apply Hpre.
        - apply elem_of_cons in Hik as [->|Hik]; [done|].
          apply Z.lt_le_incl. by apply Hpost. }
      split; [done|]. split; [done|].
      split; [done|]. split.
      * apply (Wf_listed_lt s ls i (l1 ++ k :: l2) k W Hi).
        apply elem_of_app. right. by left.
      * by eapply bget_miss_some.
Qed.

(** On a miss nothing on the target bucket's list matches, so the second
    search can only stop at the victim itself. *)
Lemma install_choice s (ls : list (list nat)) d bn lt i k l1 l2 lt2 :
  ls !! Z.to_nat (hash d bn) = Some lt →
  cached s d bn lt = None →
  ls !! i = Some (l1 ++ k :: l2) →
  <[i := l1 ++ l2]> ls !! Z.to_nat (hash d bn) = Some lt2 →
  let s3 := link (Z.to_nat (hash d bn)) k (unlink (last_ptr i l1) k s) in
  installed d bn k lt2 (unlink (last_ptr i l1) k s) =
  if caches s k d bn then (Buf k, bump k s3) else (Buf k, rename d bn k s3).
Proof.
  intros Hl Hm Hi Hl2 s3.
  assert (Hf : ∀ x, dev (slot s3 x) = dev (slot s x) ∧
                    blockno (slot s3 x) = blockno (slot s x)).
  { intros x. unfold s3.
    pose proof (payload_link (Z.to_nat (hash d bn)) k (unlink (last_ptr i l1) k s) x) as H1.
    pose proof (payload_unlink (last_ptr i l1) k s x) as H2.
    rewrite H2 in H1. split.
    - exact (f_equal dev H1).
    - exact (f_equal blockno H1). }
  unfold installed. fold s3. unfold cached, caches. simpl.
  destruct (Hf k) as [-> ->].
  destruct ((dev (slot s k) =? d) && (blockno (slot s k) =? bn)); [done|].
  assert (Hn : cached s3 d bn lt2 = None).
  { apply cached_None_intro. intros x Hx.
    destruct (Hf x) as [-> ->].
    destruct (unlinked_lists ls i l1 k l2 _ _ Hi Hl2) as (l & Hl' & Hsub & _).
    rewrite Hl in Hl'. injection Hl' as <-.
    apply (cached_None _ _ _ _ _ Hm). by apply Hsub. }
  unfold cached in Hn. by rewrite Hn.
Qed.

Lemma slot_bump_eq m s :
  (m < length (bcache_buf s))%nat →
  slot (bump m s) m = set_refcnt (to_uint (refcnt (slot s m) + 1)) (slot s m).
Proof. intros Hm. unfold bump. by apply slot_poke_eq. Qed.

Lemma slot_bump_ne m s x : x ≠ m → slot (bump m s) x = slot s x.
Proof. intros Hx. unfold bump. apply slot_poke_ne. congruence. Qed.

Lemma slot_rename_full d bn k s :
  (k < length (bcache_buf s))%nat →
  slot (rename d bn k s) k
  = set_refcnt 1 (set_valid 0 (set_blockno bn (set_dev d (slot s k)))).
Proof.
  intros Hk. unfold rename.
  rewrite !slot_poke_eq; rewrite ?length_buf_poke; done.
Qed.

Lemma slot_rename_other d bn k s x : x ≠ k → slot (rename d bn k s) x = slot s x.
Proof.
  intros Hx. unfold rename. rewrite !slot_poke_ne; [done|congruence..].
Qed.

(** The state in which the second half of [bget] lets go of the
    spinlocks, on a miss. *)
Lemma miss_state s ls d bn lt i k l1 l2 lt2 :
  Wf s ls →
  ls !! Z.to_nat (hash d bn) = Some lt →
  cached s d bn lt = None →
  ls !! i = Some (l1 ++ k :: l2) →
  <[i := l1 ++ l2]> ls !! Z.to_nat (hash d bn) = Some lt2 →
  refcnt (slot s k) = 0 →
  let r := installed d bn k lt2 (unlink (last_ptr i l1) k s) in
  fst r = Buf k ∧
  Wf (snd r) (<[Z.to_nat (hash d bn) := k :: lt2]> (<[i := l1 ++ l2]> ls)) ∧
  dev (slot (snd r) k) = d ∧ blockno (slot (snd r) k) = bn ∧
  refcnt (slot (snd r) k) = 1 ∧
  valid (slot (snd r) k) = (if caches s k d bn then valid (slot s k) else 0) ∧
  lock (slot (snd r) k) = lock (slot s k) ∧
  data (slot (snd r) k) = data (slot s k) ∧
  timestamp (slot (snd r) k) = timestamp (slot s k) ∧
  (∀ x, x ≠ k → payload (slot (snd r) x) = payload (slot s x)) ∧
  io_log (snd r) = io_log s ∧ disk (snd r) = disk s ∧ ticks (snd r) = ticks s.
Proof.
  intros W Hl Hm Hi Hl2 Hr r.
  destruct (Wf_unlink s ls i l1 k l2 W Hi) as [W2 Hnin].
  assert (Hk : (k < NBUF)%nat).
  { apply (Wf_listed_lt s ls i (l1 ++ k :: l2) k W Hi).
    apply elem_of_app. right. by left. }
  destruct (Wf_installed _ _ d bn k lt2 W2 Hl2 Hnin Hk) as [W3 _]. fold r in W3.
  set (s2 := unlink (last_ptr i l1) k s) in *.
  set (s3 := link (Z.to_nat (hash d bn)) k s2).
  assert (HP : ∀ x, payload (slot s3 x) = payload (slot s x)).
  { intros x. unfold s3, s2. by rewrite payload_link, payload_unlink. }
  assert (Hlen : (k < length (bcache_buf s3))%nat).
  { unfold s3, s2. by rewrite length_buf_link, length_buf_unlink, (wf_buf _ _ W). }
  assert (Hio : io_log s3 = io_log s ∧ disk s3 = disk s ∧ ticks s3 = ticks s).
  { unfold s3, s2. destruct (io_link (Z.to_nat (hash d bn)) k (unlink (last_ptr i l1) k s))
      as (-> & -> & ->). apply io_unlink. }
  destruct Hio as (Hio1 & Hio2 & Hio3).
  assert (Er : r = if caches s k d bn then (Buf k, bump k s3) else (Buf k, rename d bn k s3)).
  { unfold r, s3, s2. exact (install_choice s ls d bn lt i k l1 l2 lt2 Hl Hm Hi Hl2). }
  split; [rewrite Er; by destruct (caches s k d bn)|]. split; [done|].
  clearbody r. subst r.
  pose proof (HP k) as Pk.
  destruct (caches s k d bn) eqn:Hc; cbn [fst snd].
  - unfold caches in Hc. apply andb_true_iff in Hc as [Hd Hb].
    apply Z.eqb_eq in Hd, Hb.
    destruct (io_bump k s3) as (-> & -> & ->).
    rewrite slot_bump_eq by done.
    assert (Hr3 : refcnt (slot s3 k) = 0) by (rewrite <- Hr; exact (f_equal refcnt Pk)).
    rewrite Hr3. simpl.
    split; [rewrite <- Hd; exact (f_equal dev Pk)|].
    split; [rewrite <- Hb; exact (f_equal blockno Pk)|].
    split; [done|].
    split; [exact (f_equal valid Pk)|].
    split; [exact (f_equal lock Pk)|].
    split; [exact (f_equal data Pk)|].
    split; [exact (f_equal timestamp Pk)|].
    split; [intros x Hx; by rewrite slot_bump_ne|].
    done.
  - destruct (io_rename d bn k s3) as (-> & -> & ->).
    rewrite slot_rename_full by done. simpl.
    split; [done|]. split; [done|]. split; [done|]. split; [done|].
    split; [exact (f_equal lock Pk)|].
    split; [exact (f_equal data Pk)|].
    split; [exact (f_equal timestamp Pk)|].
    split; [intros x Hx; by rewrite slot_rename_other|].
    done.
Qed.

Lemma set_lock_same b : set_lock (lock b) b = b.
Proof. by destruct b. Qed.

Lemma tail_effect me k s ls s1 :
  Wf s ls → (k < NBUF)%nat →
  afterwards ((acquiresleep me (Buf k);; ret (Buf k)) s) = Some s1 →
  s1 = poke (Buf k)
            (set_lock (if locked (lock (slot s k)) then lock (slot s k)
                       else Sleeplock true me)) s ∧
  (acquiresleep me (Buf k);; ret (Buf k)) s
  = (if locked (lock (slot s k)) then Sleeps s1 else Ret (Buf k) s1).
Proof.
  intros W Hk Ha.
  assert (Hn : node (Buf k) s = Some (slot s k)).
  { apply node_slot. by rewrite (wf_buf _ _ W). }
  rewrite (tail_cases _ _ _ _ Hn) in Ha |- *.
  destruct (locked (lock (slot s k))); simpl in Ha; injection Ha as <-.
  - split; [|done]. symmetry. apply (poke_same _ _ _ _ Hn), set_lock_same.
  - done.
Qed.

(** What a [bget] that returns or sleeps has done: [m] is the slot it
    settled on. *)
Lemma bget_effect s ls me d bn s1 :
  Wf s ls → afterwards (bget me d bn s) = Some s1 →
  ∃ lt m ls1 lt1,
    ls !! Z.to_nat (hash d bn) = Some lt ∧ (m < NBUF)%nat ∧
    Wf s1 ls1 ∧ ls1 !! Z.to_nat (hash d bn) = Some lt1 ∧
    cached s1 d bn lt1 = Some m ∧
    bget me d bn s = (if locked (lock (slot s m)) then Sleeps s1 else Ret (Buf m) s1) ∧
    lock (slot s1 m) = (if locked (lock (slot s m)) then lock (slot s m)
                        else Sleeplock true me) ∧
    dev (slot s1 m) = d ∧ blockno (slot s1 m) = bn ∧
    data (slot s1 m) = data (slot s m) ∧
    timestamp (slot s1 m) = timestamp (slot s m) ∧
    (∀ x, x ≠ m → payload (slot s1 x) = payload (slot s x)) ∧
    io_log s1 = io_log s ∧ disk s1 = disk s ∧ ticks s1 = ticks s ∧
    ((cached s d bn lt = Some m ∧ ls1 = ls ∧
      refcnt (slot s1 m) = to_uint (refcnt (slot s m) + 1) ∧
      valid (slot s1 m) = valid (slot s m) ∧
      next (slot s1 m) = next (slot s m) ∧
      ∀ x, x ≠ m → slot s1 x = slot s x)
     ∨ (cached s d bn lt = None ∧ refcnt (slot s m) = 0 ∧
        refcnt (slot s1 m) = 1 ∧
        valid (slot s1 m) = (if caches s m d bn then valid (slot s m) else 0) ∧
        (∀ x, x ∈ concat ls → refcnt (slot s x) = 0 →
              timestamp (slot s x) ≤ timestamp (slot s m)) ∧
        ∃ i l1 l2 lt2,
          ls !! i = Some (l1 ++ m :: l2) ∧
          <[i := l1 ++ l2]> ls !! Z.to_nat (hash d bn) = Some lt2 ∧
          ls1 = <[Z.to_nat (hash d bn) := m :: lt2]> (<[i := l1 ++ l2]> ls))).
Proof.
  intros W Ha. destruct (bget_cases s ls me d bn W) as (lt & Hl & Hc).
  destruct (cached s d bn lt) as [m|] eqn:Hm.
  - destruct Hc as (Hin & Hlt & Hrun). rewrite Hrun in Ha |- *.
    assert (Hlen : (m < length (bcache_buf s))%nat) by (by rewrite (wf_buf _ _ W)).
    pose proof (Wf_bump m s ls W) as Wb.
    destruct (tail_effect me m (bump m s) ls s1 Wb Hlt Ha) as [Es Hr].
    rewrite slot_bump_eq in Es, Hr by done. cbn [lock set_refcnt] in Es, Hr.
    set (L := if locked (lock (slot s m)) then lock (slot s m) else Sleeplock true me) in *.
    assert (Hsm : slot s1 m = set_lock L (set_refcnt (to_uint (refcnt (slot s m) + 1)) (slot s m))).
    { rewrite Es, slot_poke_eq by (by rewrite length_buf_bump).
      by rewrite slot_bump_eq. }
    assert (Hsx : ∀ x, x ≠ m → slot s1 x = slot s x).
    { intros x Hx. rewrite Es, slot_poke_ne by congruence. by apply slot_bump_ne. }
    assert (W1 : Wf s1 ls) by (rewrite Es; by apply Wf_set_lock).
    pose proof (cached_Some _ _ _ _ _ Hm) as (_ & Hd & Hb).
    exists lt, m, ls, lt. split; [done|]. split; [done|]. split; [done|].
    split; [done|]. split.
    { rewrite <- Hm. apply cached_same_fields. intros x.
      destruct (decide (x = m)) as [->|Hx]; [by rewrite Hsm|by rewrite Hsx]. }
    split; [done|]. rewrite Hsm. cbn [lock dev blockno data timestamp valid refcnt next set_lock set_refcnt].
    split; [done|]. split; [done|]. split; [done|]. split; [done|]. split; [done|].
    split; [intros x Hx; by rewrite Hsx|].
    split; [rewrite Es, io_log_poke; apply io_bump|].
    split; [rewrite Es, disk_poke; apply io_bump|].
    split; [rewrite Es, ticks_poke; apply io_bump|].
    left. done.
  - destruct Hc as [[_ Hu]|(i & k & l1 & l2 & lt2 & Hi & Hr0 & Hmax & Hl2 & W2 & Hnin & Hk & Hrun)].
    { by rewrite Hu in Ha. }
    cbv zeta in Hrun.
    destruct (miss_state s ls d bn lt i k l1 l2 lt2 W Hl Hm Hi Hl2 Hr0)
      as (E1 & W3 & Hd & Hb & Hr1 & Hv & Hlk & Hdt & Hts & Hpx & Hio1 & Hio2 & Hio3).
    set (r := installed d bn k lt2 (unlink (last_ptr i l1) k s)) in *.
    rewrite E1 in Hrun. rewrite Hrun in Ha |- *.
    destruct (tail_effect me k (snd r) _ s1 W3 Hk Ha) as [Es Hr].
    rewrite Hlk in Es, Hr.
    set (L := if locked (lock (slot s k)) then lock (slot s k) else Sleeplock true me) in *.
    assert (Hlen : (k < length (bcache_buf (snd r)))%nat) by (by rewrite (wf_buf _ _ W3)).
    assert (Hsm : slot s1 k = set_lock L (slot (snd r) k)).
    { by rewrite Es, slot_poke_eq. }
    assert (Hsx : ∀ x, x ≠ k → slot s1 x = slot (snd r) x).
    { intros x Hx. rewrite Es, slot_poke_ne by congruence. done. }
    assert (W1 : Wf s1 (<[Z.to_nat (hash d bn) := k :: lt2]> (<[i := l1 ++ l2]> ls))).
    { rewrite Es. by apply Wf_set_lock. }
    exists lt, k, (<[Z.to_nat (hash d bn) := k :: lt2]> (<[i := l1 ++ l2]> ls)), (k :: lt2).
    split; [done|]. split; [done|]. split; [done|].
    split; [apply list_lookup_insert_eq; by eapply lookup_lt_Some|].
    split.
    { unfold cached. simpl. rewrite Hsm. cbn [dev blockno set_lock].
      by rewrite Hd, Hb, !Z.eqb_refl. }
    split; [done|]. rewrite Hsm. cbn [lock dev blockno data timestamp valid refcnt next set_lock].
    split; [done|]. split; [done|]. split; [done|]. split; [done|]. split; [done|].
    split; [intros x Hx; rewrite Hsx by done; by apply Hpx|].
    split; [by rewrite Es, io_log_poke|].
    split; [by rewrite Es, disk_poke|].
    split; [by rewrite Es, ticks_poke|].
    right. split; [done|]. split; [done|]. split; [done|]. split; [done|].
    split; [done|]. by exists i, l1, l2, lt2.
Qed.

(** ** Reference counts *)

Lemma poke_poke k f g s :
  poke (Buf k) f (poke (Buf k) g s) = poke (Buf k) (λ b, f (g b)) s.
Proof.
  unfold poke. destruct s as [bl bufs bks t dk io]. unfold with_buf. simpl.
  f_equal. apply (list_alter_alter_eq f g).
Qed.

Lemma to_uint_up_down r : 0 ≤ r < 2 ^ 32 → to_uint (to_uint (r + 1) - 1) = r.
Proof.
  intros Hr. unfold to_uint. rewrite Zminus_mod_idemp_l.
  replace (r + 1 - 1) with r by lia. by apply Z.mod_small.
Qed.

Lemma to_uint_down_up r : 0 ≤ r < 2 ^ 32 → to_uint (to_uint (r - 1) + 1) = r.
Proof.
  intros Hr. unfold to_uint. rewrite Zplus_mod_idemp_l.
  replace (r - 1 + 1) with r by lia. by apply Z.mod_small.
Qed.

Lemma set_refcnt_same b v w : v = refcnt b → set_refcnt v (set_refcnt w b) = b.
Proof. intros ->. by destruct b. Qed.

Lemma Wf_slot_range s ls k :
  Wf s ls → (k < NBUF)%nat →
  0 ≤ refcnt (slot s k) < 2 ^ 32 ∧ 0 ≤ timestamp (slot s k) < 2 ^ 32.
Proof.
  intros W Hk. rewrite <- (wf_buf _ _ W) in Hk.
  destruct (lookup_lt_is_Some_2 _ _ Hk) as [b Hb].
  rewrite (slot_lookup _ _ _ Hb). by apply (wf_typed _ _ W k).
Qed.

Lemma Wf_set_refcnt p v s ls :
  Wf s ls → Wf (poke p (set_refcnt (to_uint v)) s) ls.
Proof.
  intros W. apply Wf_poke_field; [done|done|].
  intros x. apply in_range_set_refcnt, to_uint_range.
Qed.

(** The slot [brelse] leaves behind. *)
Lemma slot_released k n s :
  (k < length (bcache_buf s))%nat →
  slot (released (Buf k) n s) k
  = set_timestamp (if to_uint (refcnt n - 1) =? 0 then ticks s
                   else timestamp (slot s k))
      (set_refcnt (to_uint (refcnt n - 1))
         (set_lock (Sleeplock false 0) (slot s k))).
Proof.
  intros Hk. unfold released. destruct (to_uint (refcnt n - 1) =? 0).
  - rewrite !slot_poke_eq; rewrite ?length_buf_poke; done.
  - rewrite !slot_poke_eq; rewrite ?length_buf_poke; [|done..].
    by destruct (slot s k).
Qed.

Lemma slot_released_ne b n s x : b ≠ Buf x → slot (released b n s) x = slot s x.
Proof.
  intros Hx. unfold released. destruct (_ =? 0); by rewrite !slot_poke_ne.
Qed.

Lemma io_released b n s :
  io_log (released b n s) = io_log s ∧ disk (released b n s) = disk s
  ∧ ticks (released b n s) = ticks s.
Proof.
  unfold released. destruct (_ =? 0);
    by rewrite !io_log_poke, !disk_poke, !ticks_poke.
Qed.

(** ** [bread] *)

Lemma bread_Ret_inv me d bn s b s1 :
  bread me d bn s = Ret b s1 →
  ∃ s0 n, bget me d bn s = Ret b s0 ∧ node b s0 = Some n ∧ s1 = read_in b n s0.
Proof.
  intros Hb. pose proof Hb as Hb'. unfold bread in Hb'.
  apply bind_Ret_inv in Hb' as (a & s0 & Hg & _).
  destruct (bget_Ret_inv _ _ _ _ _ _ Hg) as (n & Hn & _).
  rewrite (bread_after_bget _ _ _ _ _ _ _ Hg Hn) in Hb.
  injection Hb as <- <-. eauto.
Qed.

Lemma slot_with_io_log v s x : slot (with_io_log v s) x = slot s x.
Proof. done. Qed.

Lemma slot_read_in k n s :
  (k < length (bcache_buf s))%nat →
  slot (read_in (Buf k) n s) k
  = if valid n =? 0
    then set_valid 1 (set_data (disk_lookup (dev n) (blockno n) (disk s)) (slot s k))
    else slot s k.
Proof.
  intros Hk. unfold read_in. destruct (valid n =? 0); [|done].
  rewrite slot_poke_eq.
  - by rewrite slot_with_io_log, slot_poke_eq.
  - unfold with_io_log. cbn [bcache_buf]. by rewrite length_buf_poke.
Qed.

Lemma slot_read_in_ne b n s x : b ≠ Buf x → slot (read_in b n s) x = slot s x.
Proof.
  intros Hx. unfold read_in. destruct (valid n =? 0); [|done].
  by rewrite slot_poke_ne, slot_with_io_log, slot_poke_ne.
Qed.

(** ** Calls that do not overlap *)

(** A change of slots that keeps identities and references nothing new
    keeps the invariant of such runs. *)
Lemma tidy_step s s' :
  tidy s →
  (∀ ls, Wf s ls → Wf s' ls) →
  (∀ x, dev (slot s' x) = dev (slot s x) ∧
        blockno (slot s' x) = blockno (slot s x) ∧
        (refcnt (slot s' x) ≠ 0 → refcnt (slot s x) ≠ 0)) →
  tidy s'.
Proof.
  intros (ls & W & Hp & I1 & I3) HW Hf. exists ls.
  split; [by apply HW|]. split; [done|]. split.
  - intros i l k Hl Hk. destruct (Hf k) as (-> & -> & _). by eapply I1.
  - intros i l y x Hl Hb Hr.
    destruct (Hf y) as (-> & -> & _). destruct (Hf x) as (-> & -> & Hrx).
    eapply I3; [done|done|by apply Hrx].
Qed.

Lemma poke_fields p f s x :
  (∀ b, dev (f b) = dev b ∧ blockno (f b) = blockno b) →
  dev (slot (poke p f s) x) = dev (slot s x) ∧
  blockno (slot (poke p f s) x) = blockno (slot s x) ∧
  (refcnt (slot (poke p f s) x) = refcnt (slot s x) ∨
   (p = Buf x ∧ refcnt (slot (poke p f s) x) = refcnt (f (slot s x)))).
Proof.
  intros Hf. destruct (slot_poke p f s x) as [->|(-> & _ & ->)].
  - split; [done|]. split; [done|]. by left.
  - destruct (Hf (slot s x)) as [-> ->]. split; [done|]. split; [done|]. by right.
Qed.

Lemma read_in_fields b n s x :
  dev (slot (read_in b n s) x) = dev (slot s x) ∧
  blockno (slot (read_in b n s) x) = blockno (slot s x) ∧
  refcnt (slot (read_in b n s) x) = refcnt (slot s x).
Proof.
  unfold read_in. destruct (valid n =? 0); [|done].
  destruct (slot_poke b (set_valid 1)
              (with_io_log (io_log s ++ [DiskRead b (dev n) (blockno n)])
                 (poke b (set_data (disk_lookup (dev n) (blockno n) (disk s))) s)) x)
    as [->|(_ & _ & ->)];
    rewrite slot_with_io_log;
    destruct (slot_poke b (set_data (disk_lookup (dev n) (blockno n) (disk s))) s x)
      as [->|(_ & _ & ->)]; done.
Qed.

Lemma released_fields b n s x :
  node b s = Some n →
  dev (slot (released b n s) x) = dev (slot s x) ∧
  blockno (slot (released b n s) x) = blockno (slot s x) ∧
  (refcnt (slot (released b n s) x) = refcnt (slot s x) ∨
   (b = Buf x ∧ n = slot s x)).
Proof.
  intros Hn. destruct (decide (b = Buf x)) as [->|Hne].
  - assert (Hx : (x < length (bcache_buf s))%nat) by (by eapply lookup_lt_Some).
    rewrite node_slot in Hn by done. injection Hn as <-.
    rewrite slot_released by done. split; [done|]. split; [done|]. by right.
  - rewrite slot_released_ne by done. split; [done|]. split; [done|]. by left.
Qed.

Lemma do_call_tidy c s s' :
  tidy s → referenced c s = true → do_call c s = Some s' → tidy s'.
Proof.
  intros Ht Hrf Hc. pose proof Ht as (ls0 & W0 & _).
  destruct c as [me d bn|me d bn|me b|me b|b|b|]; simpl in Hc.
  - by eapply bget_tidy.
  - destruct (bget me d bn s) as [b s0| | |s0| |] eqn:Hg;
      try (unfold bread, bind in Hc; by rewrite Hg in Hc).
    + destruct (bget_Ret_inv _ _ _ _ _ _ Hg) as (n & Hn & _).
      rewrite (bread_after_bget _ _ _ _ _ _ _ Hg Hn) in Hc. injection Hc as <-.
      assert (Ht0 : tidy s0) by (apply (bget_tidy s me d bn); [done|by rewrite Hg]).
      apply (tidy_step s0); [done|intros ls; apply Wf_read_in|].
      intros x. destruct (read_in_fields b n s0 x) as (-> & -> & ->). done.
    + unfold bread, bind in Hc. rewrite Hg in Hc. injection Hc as <-.
      apply (bget_tidy s me d bn); [done|by rewrite Hg].
  - destruct (node b s) as [n|] eqn:Hn.
    + destruct (locked (lock n) && (pid (lock n) =? me)) eqn:Hh.
      * rewrite (bwrite_holding _ _ _ _ Hn Hh) in Hc. injection Hc as <-.
        apply (tidy_step s); [done| |done].
        intros ls W. by apply Wf_with_io_log, Wf_with_disk.
      * by rewrite (bwrite_not_holding _ _ _ _ Hn Hh) in Hc.
    + unfold bwrite, bind in Hc. by rewrite (holdingsleep_none _ _ _ Hn) in Hc.
  - destruct (node b s) as [n|] eqn:Hn.
    + destruct (locked (lock n) && (pid (lock n) =? me)) eqn:Hh.
      * rewrite (brelse_holding _ _ _ _ _ W0 Hn Hh) in Hc. injection Hc as <-.
        apply (tidy_step s); [done|intros ls; apply Wf_released|].
        intros x. destruct (released_fields b n s x Hn) as (-> & -> & [->|[-> ->]]).
        -- done.
        -- split; [done|]. split; [done|]. intros _. simpl in Hrf. lia.
      * by rewrite (brelse_not_holding _ _ _ _ Hn Hh) in Hc.
    + unfold brelse, bind in Hc. by rewrite (holdingsleep_none _ _ _ Hn) in Hc.
  - destruct (node b s) as [n|] eqn:Hn.
    + rewrite (bpin_run _ _ _ _ W0 Hn) in Hc. injection Hc as <-.
      apply (tidy_step s); [done|intros ls; apply Wf_set_refcnt|].
      intros x. destruct (poke_fields b (set_refcnt (to_uint (refcnt n + 1))) s x)
        as (-> & -> & [->|[-> _]]); [done|done|].
      split; [done|]. split; [done|]. intros _. simpl in Hrf. lia.
    + unfold bpin, bind in Hc. by rewrite (load_none _ _ Hn) in Hc.
  - destruct (node b s) as [n|] eqn:Hn.
    + rewrite (bunpin_run _ _ _ _ W0 Hn) in Hc. injection Hc as <-.
      apply (tidy_step s); [done|intros ls; apply Wf_set_refcnt|].
      intros x. destruct (poke_fields b (set_refcnt (to_uint (refcnt n - 1))) s x)
        as (-> & -> & [->|[-> _]]); [done|done|].
      split; [done|]. split; [done|]. intros _. simpl in Hrf. lia.
    + unfold bunpin, bind in Hc. by rewrite (load_none _ _ Hn) in Hc.
  - injection Hc as <-. apply (tidy_step s); [done| |done].
    intros ls W. apply Wf_with_ticks; [apply to_uint_range|done].
Qed.

Lemma run_calls_tidy cs :
  ∀ s s', tidy s → careful cs s = true → run_calls cs s = Some s' → tidy s'.
Proof.
  induction cs as [|c cs IH]; intros s s' Ht Hcf Hr; cbn [run_calls careful] in *.
  - by injection Hr as <-.
  - apply andb_true_iff in Hcf as [Hrf Hcf].
    destruct (do_call c s) as [s1|] eqn:Hc; [|done].
    apply (IH s1); [by eapply do_call_tidy|done|done].
Qed.

(** ** The install of a victim that was picked earlier *)

(** What the second half of [bget] does with a victim whose old
    identity is not the block asked for. *)
Lemma install_effect s ls me d bn k lt s1 :
  Wf s ls → ls !! Z.to_nat (hash d bn) = Some lt →
  k ∉ concat ls → (k < NBUF)%nat →
  caches s k d bn = false →
  afterwards (bget_install me d bn (Buf k) s) = Some s1 →
  Wf s1 (<[Z.to_nat (hash d bn) := k :: lt]> ls) ∧
  match cached s d bn lt with
  | Some m =>
      m ≠ k ∧ (m < NBUF)%nat ∧
      dev (slot s1 m) = d ∧ blockno (slot s1 m) = bn ∧
      refcnt (slot s1 m) = to_uint (refcnt (slot s m) + 1) ∧
      valid (slot s1 m) = valid (slot s m) ∧
      lock (slot s1 m) = (if locked (lock (slot s m)) then lock (slot s m)
                          else Sleeplock true me) ∧
      ∀ x, x ≠ m → payload (slot s1 x) = payload (slot s x)
  | None =>
      dev (slot s1 k) = d ∧ blockno (slot s1 k) = bn ∧
      refcnt (slot s1 k) = 1 ∧ valid (slot s1 k) = 0 ∧
      lock (slot s1 k) = (if locked (lock (slot s k)) then lock (slot s k)
                          else Sleeplock true me) ∧
      ∀ x, x ≠ k → payload (slot s1 x) = payload (slot s x)
  end.
Proof.
  intros W Hl Hnin Hk Hck Ha.
  rewrite (bget_install_spec s ls me d bn k lt W Hl Hnin Hk) in Ha.
  destruct (Wf_installed s ls d bn k lt W Hl Hnin Hk) as [W3 _].
  set (t := Z.to_nat (hash d bn)) in *.
  set (s3 := link t k s).
  assert (HP : ∀ x, payload (slot s3 x) = payload (slot s x)).
  { intros x. apply payload_link. }
  assert (Hlen : length (bcache_buf s3) = NBUF).
  { unfold s3. by rewrite length_buf_link, (wf_buf _ _ W). }
  assert (Hre : cached s3 d bn (k :: lt) = cached s d bn lt).
  { transitivity (cached s d bn (k :: lt)).
    - apply cached_same_fields. intros x. pose proof (HP x) as P.
      split; [exact (f_equal dev P)|exact (f_equal blockno P)].
    - unfold cached, caches in *. simpl. by rewrite Hck. }
  assert (Er : installed d bn k lt s =
               match cached s d bn lt with
               | Some m => (Buf m, bump m s3)
               | None => (Buf k, rename d bn k s3)
               end).
  { unfold installed. fold t. fold s3. by rewrite Hre. }
  rewrite Er in Ha, W3. clear Er Hre.
  destruct (cached s d bn lt) as [m|] eqn:Hm; cbn [fst snd] in Ha, W3.
  - pose proof (cached_Some _ _ _ _ _ Hm) as (Hin & Hd & Hb).
    assert (Hmk : m ≠ k).
    { intros ->. apply Hnin, elem_of_concat_lookup. eauto. }
    assert (Hmlt : (m < NBUF)%nat) by (apply (Wf_listed_lt s ls t lt m W Hl Hin)).
    destruct (tail_effect me m _ _ s1 W3 Hmlt Ha) as [Es _].
    assert (W1 : Wf s1 (<[t := k :: lt]> ls)) by (rewrite Es; by apply Wf_set_lock).
    rewrite slot_bump_eq in Es by (by rewrite Hlen).
    cbn [lock set_refcnt] in Es.
    assert (E3 : slot s3 m = slot s m).
    { unfold s3, link. rewrite !slot_poke_ne by congruence. done. }
    rewrite E3 in Es.
    split; [done|]. split; [done|]. split; [done|].
    assert (Hsm : slot s1 m = set_lock (if locked (lock (slot s m)) then lock (slot s m)
                                        else Sleeplock true me)
                                (set_refcnt (to_uint (refcnt (slot s m) + 1)) (slot s m))).
    { rewrite Es, slot_poke_eq by (by rewrite length_buf_bump, Hlen).
      by rewrite slot_bump_eq, E3 by (by rewrite Hlen). }
    rewrite Hsm. cbn [dev blockno refcnt valid lock set_lock set_refcnt].
    split; [done|]. split; [done|]. split; [done|]. split; [done|]. split; [done|].
    intros x Hx. rewrite Es, slot_poke_ne by congruence.
    rewrite slot_bump_ne by done. apply HP.
  - destruct (tail_effect me k _ _ s1 W3 Hk Ha) as [Es _].
    assert (W1 : Wf s1 (<[t := k :: lt]> ls)) by (rewrite Es; by apply Wf_set_lock).
    rewrite slot_rename_full in Es by (by rewrite Hlen).
    cbn [lock set_refcnt set_valid set_blockno set_dev] in Es.
    pose proof (f_equal lock (HP k)) as Hlk3. cbn [lock payload set_next] in Hlk3.
    rewrite Hlk3 in Es.
    split; [done|].
    assert (Hsm : slot s1 k = set_lock (if locked (lock (slot s k)) then lock (slot s k)
                                        else Sleeplock true me)
                                (set_refcnt 1 (set_valid 0 (set_blockno bn
                                   (set_dev d (slot s3 k)))))).
    { rewrite Es, slot_poke_eq by (by rewrite length_buf_rename, Hlen).
      by rewrite slot_rename_full by (by rewrite Hlen). }
    rewrite Hsm. cbn [dev blockno refcnt valid lock set_lock set_refcnt set_valid
                      set_blockno set_dev].
    split; [done|]. split; [done|]. split; [done|]. split; [done|]. split; [done|].
    intros x Hx. rewrite Es, slot_poke_ne by congruence.
    rewrite slot_rename_other by done. apply HP.
Qed.

(** ** Moves *)

Lemma run_moves_cons_inv m ms c r :
  run_moves (m :: ms) c = Some r →
  ∃ c1, do_move m c = Some c1 ∧ run_moves ms c1 = Some r.
Proof.
  cbn [run_moves]. destruct (do_move m c) as [c1|]; [|done]. eauto.
Qed.

Lemma enter_miss s ls ts me d bn lt :
  Wf s ls → ls !! Z.to_nat (hash d bn) = Some lt →
  cached s d bn lt = None → stage_of me ts = None →
  do_move (Enter me d bn) (s, ts) = Some (s, (me, Missed d bn) :: ts).
Proof.
  intros W Hl Hm Hst. cbn [do_move]. rewrite Hst.
  by rewrite (bget_cached_miss s ls me d bn lt W Hl Hm).
Qed.

Lemma scan_move_inv s ls ts me d bn c :
  Wf s ls → stage_of me ts = Some (Missed d bn) →
  do_move (Scan me) (s, ts) = Some c →
  ∃ i k l1 l2,
    ls !! i = Some (l1 ++ k :: l2) ∧ refcnt (slot s k) = 0 ∧
    c = (unlink (last_ptr i l1) k s, (me, Stolen d bn (Buf k)) :: leave me ts).
Proof.
  intros W Hst Hc. cbn [do_move] in Hc. rewrite Hst in Hc.
  rewrite (bind_Ret _ _ _ _ _ (bget_scan_spec s ls W)) in Hc.
  destruct (scan_choice s ls W) as
    [[_ Hv]|(pre & i & k & post & l1 & l2 & _ & Hi & Hprev & Hid & Hr0 & _)].
  - rewrite Hv in Hc. by rewrite bget_steal_none in Hc.
  - rewrite (bget_steal_spec s ls _ i l1 k l2 W Hi Hprev Hid) in Hc.
    injection Hc as <-. by exists i, k, l1, l2.
Qed.

Lemma install_move_inv s ts me d bn p c :
  stage_of me ts = Some (Stolen d bn p) →
  do_move (Install me) (s, ts) = Some c →
  ∃ s1, afterwards (bget_install me d bn p s) = Some s1 ∧ c = (s1, leave me ts).
Proof.
  intros Hst Hc. cbn [do_move] in Hc. rewrite Hst in Hc.
  destruct (afterwards (bget_install me d bn p s)) as [s1|]; [|done].
  injection Hc as <-. eauto.
Qed.

End Further.

Section FurtherProperties.
Context `{cfg : config}.

Lemma bget_total s ls lt me d bn :
  Wf s ls → ls !! Z.to_nat (hash d bn) = Some lt →
  cached s d bn lt ≠ None ∨ idle s ls ≠ [] →
  ∃ s1, afterwards (bget me d bn s) = Some s1.
Proof.
  intros W Hl Hor. destruct (bget_cases s ls me d bn W) as (lt' & Hl' & Hc).
  rewrite Hl in Hl'. injection Hl' as <-.
  destruct (cached s d bn lt) as [m|] eqn:Hm.
  - destruct Hc as (_ & Hlt & ->).
    assert (Hn : node (Buf m) (bump m s) = Some (slot (bump m s) m)).
    { apply node_slot. by rewrite length_buf_bump, (wf_buf _ _ W). }
    rewrite (tail_cases _ _ _ _ Hn). destruct (locked _); simpl; eauto.
  - destruct Hc as [[Hidle _]|(i & k & l1 & l2 & lt2 & Hi & Hr0 & _ & Hl2 & W2 & Hnin & Hk & Hrun)].
    { by destruct Hor. }
    cbv zeta in Hrun. rewrite Hrun.
    destruct (miss_state s ls d bn lt i k l1 l2 lt2 W Hl Hm Hi Hl2 Hr0) as (E1 & W3 & _).
    rewrite E1.
    match goal with |- context [snd ?r] => set (s3 := snd r) in * end.
    assert (Hn : node (Buf k) s3 = Some (slot s3 k)).
    { apply node_slot. by rewrite (wf_buf _ _ W3). }
    rewrite (tail_cases _ _ _ _ Hn). destruct (locked _); simpl; eauto.
Qed.

(** X1.  What [bget] returns.  A [bget(dev, blockno)] that returns, on a
    state in which nobody is inside a critical section, returns a slot
    of the pool whose [dev] and [blockno] are the ones asked for and
    whose sleep-lock, free before, the caller now holds.  That slot is
    the first on the list of bucket [hash(dev, blockno)] that caches the
    block, so the next fast path finds it.  [bget] transfers nothing
    from or to the disk, does not touch the tick counter and leaves no
    spinlock held. *)
Theorem bget_returns_requested_block s me d bn b s1 :
  wellformed s = true →
  bget me d bn s = Ret b s1 →
  ∃ k ls1 lt1,
    b = Buf k ∧ (k < NBUF)%nat ∧
    dev (slot s1 k) = d ∧ blockno (slot s1 k) = bn ∧
    locked (lock (slot s k)) = false ∧
    lock (slot s1 k) = Sleeplock true me ∧
    lists_of s1 = Some ls1 ∧
    ls1 !! Z.to_nat (hash d bn) = Some lt1 ∧
    cached s1 d bn lt1 = Some k ∧
    wellformed s1 = true ∧
    io_log s1 = io_log s ∧ disk s1 = disk s ∧ ticks s1 = ticks s.
Proof.
  intros Hw Hg. destruct (wellformed_Wf s Hw) as (ls & _ & W).
  assert (Ha : afterwards (bget me d bn s) = Some s1) by (by rewrite Hg).
  destruct (bget_effect s ls me d bn s1 W Ha)
    as (lt & m & ls1 & lt1 & _ & Hm & W1 & Hl1 & Hc1 & Hrun & Hlk & Hd & Hb & _ & _ & _
        & Hio1 & Hio2 & Hio3 & _).
  rewrite Hg in Hrun.
  destruct (locked (lock (slot s m))) eqn:Hlocked; [done|].
  injection Hrun as ->.
  exists m, ls1, lt1. repeat split; try done.
  - by apply Wf_lists_of.
  - by eapply Wf_wellformed.
Qed.

(** X2.  The fast path.  When the list of bucket [hash(dev, blockno)]
    has a slot that caches the block, [bget] settles on the first such
    slot [m]: it adds one to its [refcnt] and then takes its sleep-lock
    and returns it, or, when another process holds that lock, leaves the
    caller asleep with the reference already counted ([bread] sleeps
    with it).  No other field of [m], no other slot and no list changes;
    nothing is transferred. *)
Theorem bget_hit_takes_first_match s ls lt m me d bn :
  wellformed s = true →
  lists_of s = Some ls →
  ls !! Z.to_nat (hash d bn) = Some lt →
  cached s d bn lt = Some m →
  ∃ s1,
    bget me d bn s
    = (if locked (lock (slot s m)) then Sleeps s1 else Ret (Buf m) s1) ∧
    (locked (lock (slot s m)) = true → bread me d bn s = Sleeps s1) ∧
    refcnt (slot s1 m) = to_uint (refcnt (slot s m) + 1) ∧
    lock (slot s1 m)
    = (if locked (lock (slot s m)) then lock (slot s m) else Sleeplock true me) ∧
    dev (slot s1 m) = d ∧ blockno (slot s1 m) = bn ∧
    valid (slot s1 m) = valid (slot s m) ∧
    data (slot s1 m) = data (slot s m) ∧
    timestamp (slot s1 m) = timestamp (slot s m) ∧
    (∀ x, x ≠ m → slot s1 x = slot s x) ∧
    lists_of s1 = Some ls ∧
    wellformed s1 = true ∧
    io_log s1 = io_log s ∧ disk s1 = disk s ∧ ticks s1 = ticks s.
Proof.
  intros Hw Hls Hl Hm. pose proof (wellformed_lists s ls Hw Hls) as W.
  destruct (bget_total s ls lt me d bn W Hl) as [s1 Ha]; [left; by rewrite Hm|].
  destruct (bget_effect s ls me d bn s1 W Ha)
    as (lt' & m' & ls1 & lt1 & Hl' & _ & W1 & _ & _ & Hrun & Hlk & Hd & Hb & Hdt & Hts & _
        & Hio1 & Hio2 & Hio3 & Hcase).
  rewrite Hl in Hl'. injection Hl' as <-.
  destruct Hcase as [(Hm' & -> & Hr & Hv & _ & Hx)|(Hm' & _)]; [|by rewrite Hm in Hm'].
  rewrite Hm in Hm'. injection Hm' as <-.
  exists s1. split; [done|]. split.
  { intros Hlocked. rewrite Hlocked in Hrun. unfold bread, bind. by rewrite Hrun. }
  repeat split; try done.
  - by apply Wf_lists_of.
  - by eapply Wf_wellformed.
Qed.

(** X3.  The slow path.  When no slot on the list of bucket
    [hash(dev, blockno)] caches the block and some listed slot is idle,
    [bget] takes an idle slot [k] (its [refcnt] is 0) off its list and
    puts it at the head of the target bucket's list, the other slots
    keeping their order.  Slot [k] comes out with the identity asked
    for and one reference; it is marked not valid, unless its old
    identity was the one asked for; its [data] and [timestamp] are
    untouched.  The caller gets [k] with the sleep-lock taken, or sleeps
    if somebody holds that lock.  Of every other slot only [next] can
    have changed, and nothing is transferred. *)
Theorem bget_miss_recycles_idle_slot s ls lt me d bn :
  wellformed s = true →
  lists_of s = Some ls →
  ls !! Z.to_nat (hash d bn) = Some lt →
  cached s d bn lt = None →
  idle s ls ≠ [] →
  ∃ i k l1 l2 lt2 s1,
    ls !! i = Some (l1 ++ k :: l2) ∧
    refcnt (slot s k) = 0 ∧
    <[i := l1 ++ l2]> ls !! Z.to_nat (hash d bn) = Some lt2 ∧
    bget me d bn s
    = (if locked (lock (slot s k)) then Sleeps s1 else Ret (Buf k) s1) ∧
    lists_of s1
    = Some (<[Z.to_nat (hash d bn) := k :: lt2]> (<[i := l1 ++ l2]> ls)) ∧
    dev (slot s1 k) = d ∧ blockno (slot s1 k) = bn ∧
    refcnt (slot s1 k) = 1 ∧
    valid (slot s1 k) = (if caches s k d bn then valid (slot s k) else 0) ∧
    lock (slot s1 k)
    = (if locked (lock (slot s k)) then lock (slot s k) else Sleeplock true me) ∧
    data (slot s1 k) = data (slot s k) ∧
    timestamp (slot s1 k) = timestamp (slot s k) ∧
    (∀ x, x ≠ k → payload (slot s1 x) = payload (slot s x)) ∧
    wellformed s1 = true ∧
    io_log s1 = io_log s ∧ disk s1 = disk s ∧ ticks s1 = ticks s.
Proof.
  intros Hw Hls Hl Hm Hidle. pose proof (wellformed_lists s ls Hw Hls) as W.
  destruct (bget_total s ls lt me d bn W Hl) as [s1 Ha]; [by right|].
  destruct (bget_effect s ls me d bn s1 W Ha)
    as (lt' & k & ls1 & lt1 & Hl' & _ & W1 & _ & _ & Hrun & Hlk & Hd & Hb & Hdt & Hts & Hpx
        & Hio1 & Hio2 & Hio3 & Hcase).
  rewrite Hl in Hl'. injection Hl' as <-.
  destruct Hcase as [(Hm' & _)|(_ & Hr0 & Hr1 & Hv & _ & i & l1 & l2 & lt2 & Hi & Hl2 & ->)];
    [by rewrite Hm in Hm'|].
  exists i, k, l1, l2, lt2, s1. repeat split; try done.
  - by apply Wf_lists_of.
  - by eapply Wf_wellformed.
Qed.

(** X4.  [bget] never reaches its [panic].  On a state in which nobody
    is inside a critical section, [bget] returns or leaves its caller
    asleep on a sleep-lock, except when the block is not cached and no
    listed slot is idle: then it dereferences the null [prev_lru_b].
    In no case does it end in [panic], spin on a lock or walk a list
    for ever. *)
Theorem bget_never_panics s ls lt me d bn :
  wellformed s = true →
  lists_of s = Some ls →
  ls !! Z.to_nat (hash d bn) = Some lt →
  (cached s d bn lt = None ∧ idle s ls = [] →
     bget me d bn s = Undefined NullDeref) ∧
  (cached s d bn lt ≠ None ∨ idle s ls ≠ [] →
     ∃ s1, afterwards (bget me d bn s) = Some s1) ∧
  (∀ msg, bget me d bn s ≠ Panic msg) ∧
  bget me d bn s ≠ Spins ∧ bget me d bn s ≠ Diverges.
Proof.
  intros Hw Hls Hl. pose proof (wellformed_lists s ls Hw Hls) as W.
  assert (Hnone : cached s d bn lt = None ∧ idle s ls = [] →
                  bget me d bn s = Undefined NullDeref).
  { intros [Hm Hidle]. eapply bget_miss_none; [done|done|done|].
    by apply idle_nil. }
  assert (Hsome : cached s d bn lt ≠ None ∨ idle s ls ≠ [] →
                  ∃ s1, afterwards (bget me d bn s) = Some s1).
  { by apply bget_total. }
  split; [done|]. split; [done|].
  assert (Hdec : (cached s d bn lt = None ∧ idle s ls = []) ∨
                 (cached s d bn lt ≠ None ∨ idle s ls ≠ [])).
  { destruct (cached s d bn lt); [right; by left|].
    destruct (idle s ls); [by left|right; by right]. }
  destruct Hdec as [H|H].
  - rewrite (Hnone H). repeat split; intros; discriminate.
  - destruct (Hsome H) as [s1 Hs1].
    destruct (bget me d bn s); try discriminate Hs1; repeat split; intros; discriminate.
Qed.

(** X5.  [bget] never recycles a slot that is in use.  Whatever block
    is asked for, a slot with [refcnt] other than 0 keeps its [dev],
    [blockno], [valid], [data] and [timestamp], and its [refcnt] stays
    or goes up by one. *)
Theorem bget_spares_referenced_slots s me d bn s1 x :
  wellformed s = true →
  afterwards (bget me d bn s) = Some s1 →
  refcnt (slot s x) ≠ 0 →
  dev (slot s1 x) = dev (slot s x) ∧
  blockno (slot s1 x) = blockno (slot s x) ∧
  valid (slot s1 x) = valid (slot s x) ∧
  data (slot s1 x) = data (slot s x) ∧
  timestamp (slot s1 x) = timestamp (slot s x) ∧
  (refcnt (slot s1 x) = refcnt (slot s x) ∨
   refcnt (slot s1 x) = to_uint (refcnt (slot s x) + 1)).
Proof.
  intros Hw Ha Hr. destruct (wellformed_Wf s Hw) as (ls & _ & W).
  destruct (bget_effect s ls me d bn s1 W Ha)
    as (lt & m & ls1 & lt1 & Hl & _ & _ & _ & _ & _ & _ & Hd & Hb & Hdt & Hts & Hpx
        & _ & _ & _ & Hcase).
  destruct (decide (x = m)) as [->|Hx].
  - destruct Hcase as [(Hm & _ & Hr1 & Hv & _)|(_ & Hr0 & _)]; [|done].
    apply cached_Some in Hm as (_ & Hd0 & Hb0).
    rewrite Hd, Hb, Hd0, Hb0. repeat split; try done. by right.
  - pose proof (Hpx x Hx) as P.
    split; [exact (f_equal dev P)|]. split; [exact (f_equal blockno P)|].
    split; [exact (f_equal valid P)|]. split; [exact (f_equal data P)|].
    split; [exact (f_equal timestamp P)|]. left. exact (f_equal refcnt P).
Qed.

(** X15.  The slot recycled is the idle slot stamped last.  On a miss
    that returns or sleeps, the slot that [bget] gives the new identity
    was listed and idle, and no idle listed slot had a larger
    [timestamp]: of the slots released so far it is one released at the
    latest tick, not one unused for longest.  All other slots keep
    their identity and their [refcnt]. *)
Theorem bget_recycles_largest_stamp s ls lt me d bn s1 :
  wellformed s = true →
  lists_of s = Some ls →
  ls !! Z.to_nat (hash d bn) = Some lt →
  cached s d bn lt = None →
  afterwards (bget me d bn s) = Some s1 →
  ∃ k,
    k ∈ concat ls ∧
    refcnt (slot s k) = 0 ∧
    (∀ x, x ∈ concat ls → refcnt (slot s x) = 0 →
          timestamp (slot s x) ≤ timestamp (slot s k)) ∧
    dev (slot s1 k) = d ∧ blockno (slot s1 k) = bn ∧
    refcnt (slot s1 k) = 1 ∧
    ∀ x, x ≠ k →
         dev (slot s1 x) = dev (slot s x) ∧
         blockno (slot s1 x) = blockno (slot s x) ∧
         refcnt (slot s1 x) = refcnt (slot s x).
Proof.
  intros Hw Hls Hl Hm Ha. pose proof (wellformed_lists s ls Hw Hls) as W.
  destruct (bget_effect s ls me d bn s1 W Ha)
    as (lt' & k & ls1 & lt1 & Hl' & _ & _ & _ & _ & _ & _ & Hd & Hb & _ & _ & Hpx
        & _ & _ & _ & Hcase).
  rewrite Hl in Hl'. injection Hl' as <-.
  destruct Hcase as [(Hm' & _)|(_ & Hr0 & Hr1 & _ & Hmax & i & l1 & l2 & lt2 & Hi & _)];
    [by rewrite Hm in Hm'|].
  exists k. split.
  { apply elem_of_concat_lookup. exists i, (l1 ++ k :: l2). split; [done|].
    apply elem_of_app. right. by left. }
  split; [done|]. split; [done|]. split; [done|]. split; [done|]. split; [done|].
  intros x Hx. pose proof (Hpx x Hx) as P.
  split; [exact (f_equal dev P)|]. split; [exact (f_equal blockno P)|].
  exact (f_equal refcnt P).
Qed.

(** X6.  [bpin] and [bunpin] undo each other.  On a state in which
    nobody is inside a critical section, [bpin] followed by [bunpin] of
    the same pool slot, and [bunpin] followed by [bpin], return in the
    very state they started in, whatever [refcnt] was: the [uint]
    arithmetic wraps one way and back. *)
Theorem bpin_bunpin_round_trip s k :
  wellformed s = true →
  (k < NBUF)%nat →
  (bpin (Buf k);; bunpin (Buf k)) s = Ret tt s ∧
  (bunpin (Buf k);; bpin (Buf k)) s = Ret tt s.
Proof.
  intros Hw Hk. destruct (wellformed_Wf s Hw) as (ls & _ & W).
  assert (Hn : node (Buf k) s = Some (slot s k)).
  { apply node_slot. by rewrite (wf_buf _ _ W). }
  destruct (Wf_slot_range s ls k W Hk) as [Hr _].
  split.
  - rewrite (bind_Ret _ _ _ _ _ (bpin_run s ls _ _ W Hn)).
    pose proof (Wf_set_refcnt (Buf k) (refcnt (slot s k) + 1) s ls W) as W1.
    erewrite (bunpin_run _ ls (Buf k)); [|done|by rewrite node_poke_eq, Hn].
    f_equal. rewrite poke_poke. apply (poke_same _ _ _ _ Hn).
    apply set_refcnt_same. cbn [refcnt set_refcnt]. by apply to_uint_up_down.
  - rewrite (bind_Ret _ _ _ _ _ (bunpin_run s ls _ _ W Hn)).
    pose proof (Wf_set_refcnt (Buf k) (refcnt (slot s k) - 1) s ls W) as W1.
    erewrite (bpin_run _ ls (Buf k)); [|done|by rewrite node_poke_eq, Hn].
    f_equal. rewrite poke_poke. apply (poke_same _ _ _ _ Hn).
    apply set_refcnt_same. cbn [refcnt set_refcnt]. by apply to_uint_down_up.
Qed.

(** X7.  [brelse] stamps the last release only.  When the caller holds
    the sleep-lock of pool slot [k], [brelse] returns with that lock
    free and [refcnt] one less; [timestamp] becomes the current [ticks]
    exactly when [refcnt] has reached 0 and is untouched otherwise.
    Identity, [valid], [data] and [next] of the slot, every other slot,
    the lists, the disk and the tick counter are as before, and no
    spinlock is left held. *)
Theorem brelse_stamps_last_release s me k :
  wellformed s = true →
  (k < NBUF)%nat →
  lock (slot s k) = Sleeplock true me →
  ∃ s1,
    brelse me (Buf k) s = Ret tt s1 ∧
    refcnt (slot s1 k) = to_uint (refcnt (slot s k) - 1) ∧
    timestamp (slot s1 k)
    = (if refcnt (slot s1 k) =? 0 then ticks s else timestamp (slot s k)) ∧
    lock (slot s1 k) = Sleeplock false 0 ∧
    dev (slot s1 k) = dev (slot s k) ∧
    blockno (slot s1 k) = blockno (slot s k) ∧
    valid (slot s1 k) = valid (slot s k) ∧
    data (slot s1 k) = data (slot s k) ∧
    next (slot s1 k) = next (slot s k) ∧
    (∀ x, x ≠ k → slot s1 x = slot s x) ∧
    lists_of s1 = lists_of s ∧
    wellformed s1 = true ∧
    io_log s1 = io_log s ∧ disk s1 = disk s ∧ ticks s1 = ticks s.
Proof.
  intros Hw Hk Hlk. destruct (wellformed_Wf s Hw) as (ls & Hls & W).
  assert (Hlen : (k < length (bcache_buf s))%nat) by (by rewrite (wf_buf _ _ W)).
  pose proof (node_slot s k Hlen) as Hn.
  assert (Hh : locked (lock (slot s k)) && (pid (lock (slot s k)) =? me) = true).
  { rewrite Hlk. simpl. apply Z.eqb_refl. }
  exists (released (Buf k) (slot s k) s).
  split; [by eapply brelse_holding|].
  pose proof (Wf_released (Buf k) (slot s k) s ls W) as W1.
  rewrite slot_released by done.
  cbn [refcnt timestamp lock dev blockno valid data next
       set_timestamp set_refcnt set_lock].
  split; [done|]. split; [done|]. split; [done|]. split; [done|].
  split; [done|]. split; [done|]. split; [done|]. split; [done|].
  split; [intros x Hx; apply slot_released_ne; congruence|].
  split; [by rewrite Hls, (Wf_lists_of _ _ W1)|].
  split; [by eapply Wf_wellformed|]. apply io_released.
Qed.

(** X8.  A block that was read and released is still cached.  After a
    [bread] that returned buffer [b] and the [brelse] of [b] by the same
    process (which returns), a [bread] of the same block by any process
    returns the same buffer [b], locked by that process, with the
    [data] the first [bread] returned and without any transfer from the
    disk. *)
Theorem reread_after_release_hits_cache s me me' d bn b s1 :
  wellformed s = true →
  bread me d bn s = Ret b s1 →
  ∃ k s2 s3,
    b = Buf k ∧
    brelse me b s1 = Ret tt s2 ∧
    bread me' d bn s2 = Ret b s3 ∧
    io_log s2 = io_log s1 ∧ io_log s3 = io_log s1 ∧
    disk s3 = disk s1 ∧
    data (slot s3 k) = data (slot s1 k) ∧
    valid (slot s3 k) ≠ 0 ∧
    dev (slot s3 k) = d ∧ blockno (slot s3 k) = bn ∧
    lock (slot s3 k) = Sleeplock true me' ∧
    refcnt (slot s3 k) = to_uint (to_uint (refcnt (slot s1 k) - 1) + 1).
Proof.
  intros Hw Hb. destruct (wellformed_Wf s Hw) as (ls & _ & W).
  destruct (bread_Ret_inv _ _ _ _ _ _ Hb) as (s0 & n & Hg & Hn & ->).
  assert (Ha : afterwards (bget me d bn s) = Some s0) by (by rewrite Hg).
  destruct (bget_effect s ls me d bn s0 W Ha)
    as (lt & k & ls1 & lt1 & _ & Hk & W0 & Hl1 & Hc0 & Hrun & Hlk & Hd & Hbn & _).
  rewrite Hg in Hrun.
  destruct (locked (lock (slot s k))) eqn:Hlocked; [done|].
  injection Hrun as ->.
  assert (Hlen0 : (k < length (bcache_buf s0))%nat) by (by rewrite (wf_buf _ _ W0)).
  rewrite (node_slot s0 k Hlen0) in Hn. injection Hn as <-.
  set (s1 := read_in (Buf k) (slot s0 k) s0) in *.
  pose proof (Wf_read_in (Buf k) (slot s0 k) s0 ls1 W0) as W1. fold s1 in W1.
  assert (Hlen1 : (k < length (bcache_buf s1))%nat) by (by rewrite (wf_buf _ _ W1)).
  assert (Hs1 : lock (slot s1 k) = Sleeplock true me ∧ valid (slot s1 k) ≠ 0 ∧
                dev (slot s1 k) = d ∧ blockno (slot s1 k) = bn).
  { unfold s1. rewrite slot_read_in by done.
    destruct (valid (slot s0 k) =? 0) eqn:Hv.
    - cbn [lock valid dev blockno set_valid set_data]. by rewrite Hlk, Hd, Hbn.
    - apply Z.eqb_neq in Hv. by rewrite Hlk, Hd, Hbn. }
  destruct Hs1 as (Hlk1 & Hv1 & Hd1 & Hb1).
  assert (Hid1 : ∀ x, dev (slot s1 x) = dev (slot s0 x) ∧
                      blockno (slot s1 x) = blockno (slot s0 x)).
  { intros x. destruct (decide (x = k)) as [->|Hx].
    - by rewrite Hd1, Hb1, Hd, Hbn.
    - unfold s1. rewrite slot_read_in_ne by congruence. done. }
  (* the release *)
  assert (Hh : locked (lock (slot s1 k)) && (pid (lock (slot s1 k)) =? me) = true).
  { rewrite Hlk1. simpl. apply Z.eqb_refl. }
  set (s2 := released (Buf k) (slot s1 k) s1).
  pose proof (brelse_holding s1 ls1 me (Buf k) _ W1 (node_slot s1 k Hlen1) Hh) as Hrel.
  fold s2 in Hrel.
  pose proof (Wf_released (Buf k) (slot s1 k) s1 ls1 W1) as W2. fold s2 in W2.
  assert (Hlen2 : (k < length (bcache_buf s2))%nat) by (by rewrite (wf_buf _ _ W2)).
  pose proof (slot_released k (slot s1 k) s1 Hlen1) as Hs2. fold s2 in Hs2.
  assert (Hid2 : ∀ x, dev (slot s2 x) = dev (slot s0 x) ∧
                      blockno (slot s2 x) = blockno (slot s0 x)).
  { intros x. destruct (Hid1 x) as [<- <-]. destruct (decide (x = k)) as [->|Hx].
    - by rewrite Hs2.
    - unfold s2. rewrite slot_released_ne by congruence. done. }
  assert (Hc2 : cached s2 d bn lt1 = Some k).
  { rewrite <- Hc0. by apply cached_same_fields. }
  (* the second read *)
  pose proof (bget_hit s2 ls1 me' d bn lt1 k W2 Hl1 Hc2) as Hg2.
  assert (Hn2 : node (Buf k) (bump k s2) = Some (slot (bump k s2) k)).
  { apply node_slot. by rewrite length_buf_bump. }
  rewrite (tail_cases _ _ _ _ Hn2) in Hg2.
  rewrite slot_bump_eq, Hs2 in Hg2 by done.
  cbn [lock locked set_refcnt set_timestamp set_lock] in Hg2.
  set (s3 := poke (Buf k) (set_lock (Sleeplock true me')) (bump k s2)) in *.
  assert (Hs3 : slot s3 k = set_lock (Sleeplock true me')
                  (set_refcnt (to_uint (refcnt (slot s2 k) + 1)) (slot s2 k))).
  { unfold s3. rewrite slot_poke_eq by (by rewrite length_buf_bump).
    by rewrite slot_bump_eq. }
  assert (Hn3 : node (Buf k) s3 = Some (slot s3 k)).
  { apply node_slot. unfold s3. by rewrite length_buf_poke, length_buf_bump. }
  pose proof (bread_after_bget _ _ _ _ _ _ _ Hg2 Hn3) as Hb3.
  assert (Hv3 : valid (slot s3 k) = valid (slot s1 k)) by (by rewrite Hs3, Hs2).
  assert (Er : read_in (Buf k) (slot s3 k) s3 = s3).
  { unfold read_in. rewrite Hv3. by destruct (Z.eqb_neq (valid (slot s1 k)) 0) as [_ ->]. }
  rewrite Er in Hb3.
  destruct (io_released (Buf k) (slot s1 k) s1) as (Hio1 & Hio2 & _). fold s2 in Hio1, Hio2.
  assert (Hio3 : io_log s3 = io_log s2 ∧ disk s3 = disk s2).
  { unfold s3. rewrite io_log_poke, disk_poke. destruct (io_bump k s2) as (-> & -> & _). done. }
  destruct Hio3 as [Hio3 Hio4].
  exists k, s2, s3. split; [done|]. split; [done|]. split; [done|].
  split; [done|]. split; [by rewrite Hio3|]. split; [by rewrite Hio4|].
  rewrite Hs3, Hs2.
  cbn [data valid dev blockno lock refcnt set_lock set_refcnt set_timestamp].
  repeat split; done.
Qed.

(** X9.  Only one process at a time uses a buffer.  While the process
    that [bget] returned a buffer to holds it, a [bget] or [bread] of
    the same block by any process (the holder included) does not
    return: the caller sleeps on the buffer's sleep-lock, with its
    reference counted and nothing transferred. *)
Theorem held_buffer_makes_others_sleep s me me' d bn b s1 :
  wellformed s = true →
  bget me d bn s = Ret b s1 →
  ∃ k s2,
    b = Buf k ∧
    bget me' d bn s1 = Sleeps s2 ∧
    bread me' d bn s1 = Sleeps s2 ∧
    refcnt (slot s2 k) = to_uint (refcnt (slot s1 k) + 1) ∧
    lock (slot s2 k) = Sleeplock true me ∧
    io_log s2 = io_log s1 ∧ disk s2 = disk s1.
Proof.
  intros Hw Hg. destruct (wellformed_Wf s Hw) as (ls & _ & W).
  assert (Ha : afterwards (bget me d bn s) = Some s1) by (by rewrite Hg).
  destruct (bget_effect s ls me d bn s1 W Ha)
    as (lt & k & ls1 & lt1 & _ & Hk & W1 & Hl1 & Hc1 & Hrun & Hlk & _).
  rewrite Hg in Hrun.
  destruct (locked (lock (slot s k))) eqn:Hlocked; [done|].
  injection Hrun as ->.
  assert (Hlen : (k < length (bcache_buf s1))%nat) by (by rewrite (wf_buf _ _ W1)).
  pose proof (bget_hit s1 ls1 me' d bn lt1 k W1 Hl1 Hc1) as Hg2.
  assert (Hn2 : node (Buf k) (bump k s1) = Some (slot (bump k s1) k)).
  { apply node_slot. by rewrite length_buf_bump. }
  rewrite (tail_cases _ _ _ _ Hn2) in Hg2.
  rewrite slot_bump_eq in Hg2 by done. cbn [lock set_refcnt] in Hg2.
  rewrite Hlk in Hg2. cbn [locked] in Hg2.
  exists k, (bump k s1). split; [done|]. split; [done|].
  split; [unfold bread, bind; by rewrite Hg2|].
  rewrite slot_bump_eq by done. cbn [refcnt lock set_refcnt].
  split; [done|]. split; [done|].
  destruct (io_bump k s1) as (-> & -> & _). done.
Qed.

(** X10.  No spinlock is held where a schedule lets another caller
    act.  After [binit] and any schedule of whole calls and of [bget]
    calls that overlap, taken apart after a missed fast path, between
    any two buckets of a scan that has no candidate yet, and between
    the steal and the install: at every point of the schedule, callers
    having returned, gone to sleep on a sleep-lock or stopped at one of
    these places, [bcache.lock] and every bucket lock are free, the
    arrays have their sizes, every list ends in null without meeting a
    slot twice, and [ticks], [refcnt] and [timestamp] hold [uint]
    values. *)
Theorem schedules_hold_no_spinlock ms s ts :
  NBUK ≠ O →
  run_schedule ms = Some (s, ts) →
  wellformed s = true ∧
  bcache_lock s = Spinlock false ∧
  ∀ i bk, bcache_buckets s !! i = Some bk → bucket_lock bk = Spinlock false.
Proof.
  intros Hk Hr.
  destruct (run_schedule_accounted ms s ts Hk Hr) as [_ (ls & W & _)].
  split; [by eapply Wf_wellformed|]. split.
  - by apply (wf_unlocked _ _ W BcacheLock).
  - intros i bk Hbk. apply (wf_unlocked _ _ W (BucketLock (Z.of_nat i))).
    unfold spin_get. rewrite Nat2Z.id, Hbk.
    by destruct (Z.leb_spec 0 (Z.of_nat i)); [|lia].
Qed.

(** X11.  Every call keeps a state between calls one.  From any state
    in which no spinlock is held, the [uint] fields are in range and the
    lists hold every slot of the pool once, each of [bget], [bread],
    [bwrite], [brelse], [bpin], [bunpin] and the clock tick, when it
    returns or leaves its caller asleep, leaves such a state again. *)
Theorem calls_keep_quiescent c s s' :
  quiescent s = true →
  do_call c s = Some s' →
  quiescent s' = true.
Proof.
  intros Hq Hc. destruct (quiescent_Wf s Hq) as (ls & _ & W & Hp).
  destruct (do_call_Wf c s ls s' W Hc) as (ls' & W' & Hp').
  apply (Wf_quiescent s' ls' W'). by rewrite Hp'.
Qed.

(** X12.  Calls that do not overlap never cache a block twice.  After
    [binit] and any sequence of calls of any kind made one after the
    other, in which [brelse], [bpin] and [bunpin] are used on referenced
    buffers only, no two slots with [refcnt > 0] have the same [dev] and
    [blockno]. *)
Theorem careful_calls_keep_identity_unique cs s0 s :
  NBUK ≠ O →
  booted = Some s0 →
  careful cs s0 = true →
  run_calls cs s0 = Some s →
  unique_identity s.
Proof.
  intros Hk Hb Hcf Hr. rewrite (booted_chained Hk) in Hb. injection Hb as <-.
  apply tidy_unique.
  apply (run_calls_tidy cs (chained NBUF)); [by apply tidy_chained|done|done].
Qed.

(** [bget] is its three phases run back to back.  A whole
    [bget] leaves the state that its fast path leaves on a hit, and on
    a miss the state that the scan with the steal, followed by the
    install, leave; it halts exactly when one of them does. *)
Lemma bget_is_its_phases s ts me d bn :
  wellformed s = true →
  stage_of me ts = None →
  do_move (Call (Bget me d bn)) (s, ts) =
  match do_move (Enter me d bn) (s, ts) with
  | Some (s1, ts1) =>
      match stage_of me ts1 with
      | None => Some (s1, ts1)
      | Some _ => run_moves [Scan me; Install me] (s1, ts1)
      end
  | None => None
  end.
Proof.
  intros Hw Hst. destruct (wellformed_Wf s Hw) as (ls & _ & W).
  destruct (hash_bucket d bn s ls W) as [lt Hl].
  cbn [do_move do_call run_moves]. rewrite Hst.
  destruct (cached s d bn lt) as [m|] eqn:Hm.
  - rewrite (bget_hit s ls me d bn lt m W Hl Hm).
    rewrite (bget_cached_hit s ls me d bn lt m W Hl Hm).
    assert (Hn : node (Buf m) (bump m s) = Some (slot (bump m s) m)).
    { apply node_slot. rewrite length_buf_bump, (wf_buf _ _ W).
      apply cached_Some in Hm as (Hin & _). by eapply Wf_listed_lt. }
    rewrite (tail_cases _ _ _ _ Hn).
    destruct (locked (lock (slot (bump m s) m))); cbn [afterwards]; by rewrite Hst.
  - rewrite (bget_cached_miss s ls me d bn lt W Hl Hm).
    cbn [stage_of]. rewrite Z.eqb_refl. cbn [leave]. rewrite Z.eqb_refl.
    rewrite (bget_miss s ls me d bn lt W Hl Hm).
    rewrite !(bind_Ret _ _ _ _ _ (bget_scan_spec s ls W)).
    destruct (scan_choice s ls W) as
      [[_ Hv]|(pre & i & k & post & l1 & l2 & _ & Hi & Hprev & Hid & _)].
    + rewrite Hv. unfold bind. by rewrite bget_steal_none.
    + rewrite (bget_steal_spec s ls _ i l1 k l2 W Hi Hprev Hid).
      rewrite (bind_Ret _ _ _ _ _ (bget_steal_spec s ls _ i l1 k l2 W Hi Hprev Hid)).
      cbn [do_move stage_of]. rewrite Z.eqb_refl. cbn [leave]. rewrite Z.eqb_refl.
      by destruct (afterwards _).
Qed.

(** X13.  [binit] builds a pool between calls.  On the zeroed
    [bcache], whatever NBUF is, [binit] returns in a state in which no
    spinlock and no sleep-lock is held, every slot carries the stamp 0
    that [ticks] has at boot, slot [k] is followed by slot [k+1] and the
    last by null, so that the list of bucket 0 is the whole pool in
    order and every other list is empty; nothing has been
    transferred. *)
Theorem binit_builds_quiescent_pool :
  NBUK ≠ O →
  ∃ s0,
    binit boot = Ret tt s0 ∧
    quiescent s0 = true ∧
    lists_of s0 = Some init_lists ∧
    concat init_lists = seq 0 NBUF ∧
    (∀ k, (k < NBUF)%nat →
          timestamp (slot s0 k) = 0 ∧
          lock (slot s0 k) = Sleeplock false 0 ∧
          next (slot s0 k) = (if decide (S k = NBUF) then Null else Buf (S k))) ∧
    ticks s0 = 0 ∧ io_log s0 = [].
Proof.
  intros Hk. exists (chained NBUF).
  split; [by apply binit_boot|]. split; [by apply quiescent_chained|].
  split; [apply Wf_lists_of; by apply Wf_chained|].
  split; [by apply concat_init_lists|].
  split; [|done].
  intros k Hlt. unfold slot. cbn [bcache_buf chained].
  rewrite init_bufs_lookup, decide_True by lia. done.
Qed.

(** X14.  No phase of [bget] gets stuck on what other callers did,
    but a scan can be overtaken.  At every point of every schedule run
    after [binit], a caller that is not inside [bget] can enter it, and
    a caller that carries a victim can install it: the install never
    finds [lru_b] null, so [panic("bget: no buffers")] is not reached,
    and neither phase faults, spins or walks a list for ever.  A caller
    whose scan is at bucket [i] with no candidate yet (after its miss
    [i] is 0) goes on to bucket [i + 1] without a lock exactly when no
    slot listed in bucket [i] is idle.  If it runs the rest of its scan
    and the steal with nobody in between, it gets a victim exactly when
    some slot listed in the buckets from [i] on is idle; otherwise the
    scan ends in the null dereference.  Idle slots in the buckets it
    has passed do not count: what others release there meanwhile is
    not seen. *)
Theorem phases_always_complete ms s ts me :
  NBUK ≠ O →
  run_schedule ms = Some (s, ts) →
  (∀ d bn, stage_of me ts = None →
           is_Some (do_move (Enter me d bn) (s, ts))) ∧
  (∀ d bn p, stage_of me ts = Some (Stolen d bn p) →
             is_Some (do_move (Install me) (s, ts))) ∧
  (∀ d bn i, stage_of me ts = Some (Scanning d bn i) ∨
             stage_of me ts = Some (Missed d bn) ∧ i = O →
             ∃ ls, lists_of s = Some ls ∧
                   (is_Some (do_move (Pass me) (s, ts)) ↔
                    ∃ l, ls !! i = Some l ∧ ∀ k, k ∈ l → refcnt (slot s k) ≠ 0) ∧
                   (idle_from s ls i ≠ [] → is_Some (do_move (Scan me) (s, ts))) ∧
                   (idle_from s ls i = [] →
                    do_move (Scan me) (s, ts) = None ∧
                    (v ← bget_scan_from (NBUK - i) i; bget_steal v) s
                    = Undefined NullDeref)).
Proof.
  intros Hk Hr.
  destruct (run_schedule_accounted ms s ts Hk Hr) as [Hsound (ls & W & Hp)].
  split; [|split].
  - intros d bn Hst. cbn [do_move]. rewrite Hst.
    destruct (hash_bucket d bn s ls W) as [lt Hl].
    destruct (cached s d bn lt) as [m|] eqn:Hm.
    + rewrite (bget_cached_hit s ls me d bn lt m W Hl Hm).
      assert (Hn : node (Buf m) (bump m s) = Some (slot (bump m s) m)).
      { apply node_slot. rewrite length_buf_bump, (wf_buf _ _ W).
        apply cached_Some in Hm as (Hin & _). by eapply Wf_listed_lt. }
      rewrite (tail_cases _ _ _ _ Hn).
      by destruct (locked (lock (slot (bump m s) m))).
    + by rewrite (bget_cached_miss s ls me d bn lt W Hl Hm).
  - intros d bn p Hst. cbn [do_move]. rewrite Hst.
    destruct (Hsound me d bn p (stage_of_elem _ _ _ Hst)) as [k ->].
    pose proof (victims_leave me ts _ Hst) as Hv. simpl in Hv.
    assert (Hp' : k :: concat ls ++ victims (leave me ts) ≡ₚ seq 0 NBUF).
    { rewrite <- Hp, Hv. by rewrite <- Permutation_middle. }
    assert (Hnd : NoDup (k :: concat ls ++ victims (leave me ts))).
    { rewrite Hp'. apply NoDup_seq. }
    apply NoDup_cons in Hnd as [Hnin _].
    assert (Hlt : (k < NBUF)%nat).
    { assert (Hin : k ∈ seq 0 NBUF) by (rewrite <- Hp'; by left).
      apply elem_of_seq in Hin. lia. }
    assert (Hnin' : k ∉ concat ls).
    { intros Hin. apply Hnin, elem_of_app. by left. }
    destruct (hash_bucket d bn s ls W) as [lt Hl].
    rewrite (bget_install_spec s ls me d bn k lt W Hl Hnin' Hlt).
    destruct (Wf_installed s ls d bn k lt W Hl Hnin' Hlt) as [_ [n Hn]].
    rewrite (tail_cases _ _ _ _ Hn). by destruct (locked (lock n)).
  - intros d bn i Hst. exists ls. split; [by apply Wf_lists_of|].
    assert (Hpass : do_move (Pass me) (s, ts) = do_pass me d bn i s ts).
    { cbn [do_move]. by destruct Hst as [->|[-> ->]]. }
    assert (Hscan : do_move (Scan me) (s, ts) =
                    match (v ← bget_scan_from (NBUK - i) i; bget_steal v) s with
                    | Ret lru_b s' => Some (s', (me, Stolen d bn lru_b) :: leave me ts)
                    | _ => None
                    end).
    { cbn [do_move]. destruct Hst as [->|[-> ->]]; [done|].
      by rewrite Nat.sub_0_r. }
    rewrite Hpass, Hscan. split; [by apply do_pass_enabled|].
    destruct (decide (i ≤ NBUK)%nat) as [Hle|Hgt].
    2:{ rewrite scan_from_end by lia. split; [|done].
        intros Hidle. exfalso. apply Hidle, idle_from_nil.
        rewrite drop_ge by (rewrite (wf_lists _ _ W); lia).
        intros ik Hin. by apply elem_of_nil in Hin. }
    rewrite !(bind_Ret _ _ _ _ _ (scan_from_spec s ls i W Hle)).
    destruct (scan_choice_from s ls i W) as
      [[Hbusy Hv]|(pre & i0 & k & post & l1 & l2 & Hso & Hi & Hprev & Hid & Hr0 & _)].
    + pose proof (proj2 (idle_from_nil s ls i) Hbusy) as Hidle. split; [done|].
      intros _. rewrite Hv. by rewrite bget_steal_none.
    + rewrite (bget_steal_spec s ls _ i0 l1 k l2 W Hi Hprev Hid). split; [done|].
      intros Hidle. exfalso.
      apply (proj1 (idle_from_nil s ls i) Hidle (i0, k)); [|done].
      rewrite Hso. apply elem_of_app. right. by left.
Qed.

(** The scan can be taken bucket by bucket.  At a point of a schedule,
    a caller that passes a bucket and then runs the rest of its scan
    and the steal, with nobody in between, ends as if it had run them
    in one go from where it was: the bucket passed has left the locals
    of the scan as they were. *)
Lemma pass_then_scan ms s ts me c :
  NBUK ≠ O →
  run_schedule ms = Some (s, ts) →
  do_move (Pass me) (s, ts) = Some c →
  do_move (Scan me) c = do_move (Scan me) (s, ts).
Proof.
  intros Hk Hr Hp.
  destruct (run_schedule_accounted ms s ts Hk Hr) as [_ (ls & W & _)].
  assert (Hst : ∃ d bn i,
             (stage_of me ts = Some (Scanning d bn i) ∨
              stage_of me ts = Some (Missed d bn) ∧ i = O) ∧
             do_pass me d bn i s ts = Some c).
  { cbn [do_move] in Hp.
    destruct (stage_of me ts) as [[d bn|d bn i|]|]; try done; eauto 10. }
  destruct Hst as (d & bn & i & Hst & Hd).
  assert (Hscan : do_move (Scan me) (s, ts) =
                  match (v ← bget_scan_from (NBUK - i) i; bget_steal v) s with
                  | Ret lru_b s' => Some (s', (me, Stolen d bn lru_b) :: leave me ts)
                  | _ => None
                  end).
  { cbn [do_move]. destruct Hst as [->|[-> ->]]; [done|].
    by rewrite Nat.sub_0_r. }
  rewrite Hscan. clear Hscan Hp Hst.
  unfold do_pass in Hd. destruct (i <? NBUK)%nat eqn:Hi; [|done].
  apply Nat.ltb_lt in Hi.
  assert (Hlt : (i < length ls)%nat) by (by rewrite (wf_lists _ _ W)).
  destruct (lookup_lt_is_Some_2 _ _ Hlt) as [l Hl].
  rewrite (pass_spec s ls i l W Hl) in Hd.
  destruct (pass_choice s ls i l W Hl) as [[_ Hv]|[_ Hid]].
  2:{ rewrite Hid in Hd. rewrite (proj2 (Z.eqb_neq _ _)) in Hd by lia. done. }
  rewrite Hv in Hd. cbn [lru_buk_id] in Hd. rewrite hold_none in Hd.
  change (-1 =? -1) with true in Hd. cbv iota in Hd. injection Hd as <-.
  cbn [do_move stage_of leave]. rewrite Z.eqb_refl.
  rewrite !(bind_Ret _ _ _ _ _ (scan_from_spec s ls (S i) W Hi)).
  rewrite !(bind_Ret _ _ _ _ _ (scan_from_spec s ls i W (Nat.lt_le_incl _ _ Hi))).
  rewrite (drop_S _ _ _ Hl). cbn [scan_all]. by rewrite Hv.
Qed.

(** X16.  A first race for a block is settled by the second search.
    In a state reached by calls that did not overlap, two processes ask
    for the same block, which is not cached; both miss, both steal a
    victim, and they install one after the other.  Then the block ends
    up in one slot only, the victim [k1] of the caller that installs
    first, with [refcnt] 2 and not valid; the other caller's second
    search finds it, and that caller's victim [k2] is left at the head
    of the target bucket's list, idle and with its old identity.  No
    block is cached in two referenced slots and every slot is on
    exactly one list. *)
Theorem first_race_shares_one_slot cs s0 s ls lt a b d bn s' ts' :
  NBUK ≠ O →
  booted = Some s0 →
  careful cs s0 = true →
  run_calls cs s0 = Some s →
  a ≠ b →
  lists_of s = Some ls →
  ls !! Z.to_nat (hash d bn) = Some lt →
  cached s d bn lt = None →
  run_moves [Enter a d bn; Enter b d bn; Scan a; Scan b; Install a; Install b] (s, [])
  = Some (s', ts') →
  ts' = [] ∧
  ∃ k1 k2,
    k1 ≠ k2 ∧ (k1 < NBUF)%nat ∧ (k2 < NBUF)%nat ∧
    refcnt (slot s k1) = 0 ∧ refcnt (slot s k2) = 0 ∧
    dev (slot s' k1) = d ∧ blockno (slot s' k1) = bn ∧
    valid (slot s' k1) = 0 ∧ refcnt (slot s' k1) = 2 ∧
    lock (slot s' k1)
    = (if locked (lock (slot s k1)) then lock (slot s k1) else Sleeplock true a) ∧
    (∀ x, x ≠ k1 → payload (slot s' x) = payload (slot s x)) ∧
    (∃ ls' lt', lists_of s' = Some ls' ∧
                ls' !! Z.to_nat (hash d bn) = Some (k2 :: k1 :: lt')) ∧
    unique_identity s' ∧ membership s'.
Proof.
  intros Hk Hb Hcf Hrun Hab Hls Hl Hm Hr.
  rewrite (booted_chained Hk) in Hb. injection Hb as <-.
  assert (Ht : tidy s).
  { apply (run_calls_tidy cs (chained NBUF)); [by apply tidy_chained|done|done]. }
  pose proof (tidy_unique s Ht) as Hu.
  destruct Ht as (ls0 & W & Hp & I1 & I3).
  rewrite (Wf_lists_of _ _ W) in Hls. injection Hls as ->.
  set (t := Z.to_nat (hash d bn)) in *.
  assert (Hab1 : (a =? b) = false) by (by apply Z.eqb_neq).
  assert (Hab2 : (b =? a) = false) by (apply Z.eqb_neq; congruence).
  assert (Hnone : ∀ x, x ∈ concat ls → caches s x d bn = false).
  { intros x Hx. apply elem_of_concat_lookup in Hx as (j & l & Hj & Hin).
    unfold caches.
    destruct ((dev (slot s x) =? d) && (blockno (slot s x) =? bn)) eqn:E; [|done].
    apply andb_true_iff in E as [Ed Eb]. apply Z.eqb_eq in Ed, Eb.
    pose proof (I1 j l x Hj Hin) as Hpl. rewrite Ed, Eb in Hpl. fold t in Hpl. subst j.
    rewrite Hl in Hj. injection Hj as <-.
    exfalso. by apply (cached_None _ _ _ _ x Hm Hin). }
  (* the six moves *)
  apply run_moves_cons_inv in Hr as (c1 & E1 & Hr).
  rewrite (enter_miss s ls [] a d bn lt W Hl Hm eq_refl) in E1. injection E1 as <-.
  apply run_moves_cons_inv in Hr as (c2 & E2 & Hr).
  rewrite (enter_miss s ls _ b d bn lt W Hl Hm) in E2
    by (cbn [stage_of]; by rewrite Hab1).
  injection E2 as <-.
  apply run_moves_cons_inv in Hr as (c3 & E3 & Hr).
  apply (scan_move_inv s ls _ a d bn) in E3 as (i1 & k1 & l1 & l1' & Hi1 & Hr1 & ->);
    [|done|cbn [stage_of]; by rewrite Hab2, Z.eqb_refl].
  cbn [leave] in Hr. rewrite Hab2, Z.eqb_refl in Hr.
  destruct (Wf_unlink s ls i1 l1 k1 l1' W Hi1) as [W2 Hnin1].
  set (s2 := unlink (last_ptr i1 l1) k1 s) in *.
  set (ls2 := <[i1 := l1 ++ l1']> ls) in *.
  apply run_moves_cons_inv in Hr as (c4 & E4 & Hr).
  apply (scan_move_inv s2 ls2 _ b d bn) in E4 as (i2 & k2 & l2 & l2' & Hi2 & Hr2 & ->);
    [|done|cbn [stage_of]; by rewrite Hab1, Z.eqb_refl].
  cbn [leave] in Hr. rewrite Hab1, Z.eqb_refl in Hr.
  destruct (Wf_unlink s2 ls2 i2 l2 k2 l2' W2 Hi2) as [W3 Hnin2].
  set (s3 := unlink (last_ptr i2 l2) k2 s2) in *.
  set (ls3 := <[i2 := l2 ++ l2']> ls2) in *.
  apply run_moves_cons_inv in Hr as (c5 & E5 & Hr).
  apply (install_move_inv s3 _ a d bn (Buf k1)) in E5 as (s4 & Ha5 & ->);
    [|cbn [stage_of]; by rewrite Hab2, Z.eqb_refl].
  cbn [leave] in Hr. rewrite Hab2, Z.eqb_refl in Hr.
  apply run_moves_cons_inv in Hr as (c6 & E6 & Hr).
  apply (install_move_inv s4 _ b d bn (Buf k2)) in E6 as (s5 & Ha6 & ->);
    [|cbn [stage_of]; by rewrite Z.eqb_refl].
  cbn [leave run_moves] in Hr. rewrite Z.eqb_refl in Hr. injection Hr as <- <-.
  split; [done|].
  (* the two victims *)
  pose proof (concat_remove_perm ls i1 l1 k1 l1' Hi1) as Hp1. fold ls2 in Hp1.
  pose proof (concat_remove_perm ls2 i2 l2 k2 l2' Hi2) as Hp2. fold ls3 in Hp2.
  assert (Hk1in : k1 ∈ concat ls) by (rewrite Hp1; by left).
  assert (Hk2in2 : k2 ∈ concat ls2) by (rewrite Hp2; by left).
  assert (Hk2in : k2 ∈ concat ls) by (rewrite Hp1; by right).
  assert (Hne : k1 ≠ k2) by (intros ->; done).
  assert (Hk1 : (k1 < NBUF)%nat).
  { assert (H : k1 ∈ seq 0 NBUF) by (by rewrite <- Hp).
    apply elem_of_seq in H. lia. }
  assert (Hk2 : (k2 < NBUF)%nat).
  { assert (H : k2 ∈ seq 0 NBUF) by (by rewrite <- Hp).
    apply elem_of_seq in H. lia. }
  assert (Hsub3 : ∀ x, x ∈ concat ls3 → x ∈ concat ls).
  { intros x Hx. rewrite Hp1, Hp2. right. by right. }
  assert (P2 : ∀ x, payload (slot s2 x) = payload (slot s x)).
  { intros x. apply payload_unlink. }
  assert (P3 : ∀ x, payload (slot s3 x) = payload (slot s x)).
  { intros x. unfold s3. by rewrite payload_unlink. }
  assert (Hr2' : refcnt (slot s k2) = 0).
  { rewrite <- Hr2. symmetry. exact (f_equal refcnt (P2 k2)). }
  assert (Hcaches : ∀ (u : state) x,
            payload (slot u x) = payload (slot s x) → x ∈ concat ls →
            caches u x d bn = false).
  { intros u x P Hx. rewrite <- (Hnone x Hx). unfold caches.
    destruct (payload_eq _ _ P) as (-> & -> & _). done. }
  (* the first install *)
  assert (Hl3 : is_Some (ls3 !! t)).
  { apply lookup_lt_is_Some. rewrite (wf_lists _ _ W3), <- (wf_lists _ _ W).
    by eapply lookup_lt_Some. }
  destruct Hl3 as [lt3 Hl3].
  assert (Hc3 : cached s3 d bn lt3 = None).
  { apply cached_None_intro. intros x Hx [Hd Hbn].
    assert (Hin : x ∈ concat ls).
    { apply Hsub3, elem_of_concat_lookup. eauto. }
    pose proof (Hcaches s3 x (P3 x) Hin) as Hf. unfold caches in Hf.
    rewrite Hd, Hbn, !Z.eqb_refl in Hf. done. }
  assert (Hnin13 : k1 ∉ concat ls3).
  { intros Hin. apply Hnin1. rewrite Hp2. by right. }
  destruct (install_effect s3 ls3 a d bn k1 lt3 s4 W3 Hl3 Hnin13 Hk1
              (Hcaches s3 k1 (P3 k1) Hk1in) Ha5) as [W4 F4].
  fold t in W4. rewrite Hc3 in F4.
  destruct F4 as (Hd4 & Hb4 & Hr4 & Hv4 & Hlk4 & P4).
  destruct (payload_eq _ _ (P3 k1)) as (_ & _ & _ & _ & E). rewrite E in Hlk4. clear E.
  set (ls4 := <[t := k1 :: lt3]> ls3) in *.
  assert (Hl4 : ls4 !! t = Some (k1 :: lt3)).
  { apply list_lookup_insert_eq. by eapply lookup_lt_Some. }
  pose proof (concat_add_perm ls3 t lt3 k1 Hl3) as Hp4. fold ls4 in Hp4.
  (* the second install *)
  assert (Hnin24 : k2 ∉ concat ls4).
  { rewrite Hp4. intros Hin. apply elem_of_cons in Hin as [->|Hin]; done. }
  assert (P42 : payload (slot s4 k2) = payload (slot s k2)).
  { rewrite P4 by done. apply P3. }
  assert (Hc4 : cached s4 d bn (k1 :: lt3) = Some k1).
  { unfold cached. simpl. by rewrite Hd4, Hb4, !Z.eqb_refl. }
  destruct (install_effect s4 ls4 b d bn k2 (k1 :: lt3) s5 W4 Hl4 Hnin24 Hk2
              (Hcaches s4 k2 P42 Hk2in) Ha6) as [W5 F5].
  fold t in W5. rewrite Hc4 in F5.
  destruct F5 as (_ & _ & Hd5 & Hb5 & Hr5 & Hv5 & Hlk5 & P5).
  assert (P5s : ∀ x, x ≠ k1 → payload (slot s5 x) = payload (slot s x)).
  { intros x Hx. rewrite P5, P4 by done. apply P3. }
  set (ls5 := <[t := k2 :: k1 :: lt3]> ls4) in *.
  assert (Hp5 : concat ls5 ≡ₚ seq 0 NBUF).
  { unfold ls5. rewrite (concat_add_perm ls4 t (k1 :: lt3) k2 Hl4), Hp4.
    rewrite <- Hp, Hp1, Hp2. apply perm_swap. }
  exists k1, k2. split; [done|]. split; [done|]. split; [done|].
  split; [done|]. split; [done|]. split; [done|]. split; [done|].
  split; [by rewrite Hv5|]. split; [by rewrite Hr5, Hr4|].
  split.
  { rewrite Hlk5, Hlk4.
    destruct (locked (lock (slot s k1))) eqn:E; cbn [locked]; by rewrite ?E. }
  split; [done|]. split.
  { exists ls5, lt3. split; [by apply Wf_lists_of|].
    apply list_lookup_insert_eq. by eapply lookup_lt_Some. }
  split; [|by apply (Wf_membership s5 ls5)].
  (* uniqueness *)
  assert (Hother : ∀ x, (x < NBUF)%nat → x ≠ k1 →
            ¬ (dev (slot s5 x) = d ∧ blockno (slot s5 x) = bn)).
  { intros x Hx Hxk [Hd Hbn].
    assert (Hin : x ∈ concat ls) by (rewrite Hp; apply elem_of_seq; lia).
    pose proof (Hcaches s5 x (P5s x Hxk) Hin) as Hf. unfold caches in Hf.
    by rewrite Hd, Hbn, !Z.eqb_refl in Hf. }
  intros j k Hj Hkk Hrj Hrk Hd Hbn.
  destruct (decide (j = k1)) as [->|Hj1]; destruct (decide (k = k1)) as [->|Hk1'].
  - done.
  - exfalso. apply (Hother k Hkk Hk1'). by rewrite <- Hd, <- Hbn.
  - exfalso. apply (Hother j Hj Hj1). by rewrite Hd, Hbn.
  - destruct (payload_eq _ _ (P5s j Hj1)) as (Dj & Bj & Rj & _).
    destruct (payload_eq _ _ (P5s k Hk1')) as (Dk & Bk & Rk & _).
    apply Hu; try done; congruence.
Qed.

End FurtherProperties.

(** ** Instances of the further properties in the kernel's configuration *)

(** The first [bget(1,10)] after boot returns slot 29 as block (1,10),
    locked by process 1. *)
Lemma bget_returns_requested_block_xv6 :
  let s := @state_after xv6 [] in
  let s1 := @state_after xv6 [Bget 1 1 10] in
  @wellformed xv6 s = true ∧
  @bget xv6 1 1 10 s = Ret (Buf 29) s1 ∧
  dev (@slot xv6 s1 29) = 1 ∧ blockno (@slot xv6 s1 29) = 10 ∧
  lock (@slot xv6 s1 29) = Sleeplock true 1 ∧
  @wellformed xv6 s1 = true.
Proof.
  intros s s1.
  assert (Hw : @wellformed xv6 s = true) by (vm_compute; reflexivity).
  assert (Hg : @bget xv6 1 1 10 s = Ret (Buf 29) s1) by (vm_compute; reflexivity).
  split; [exact Hw|]. split; [exact Hg|].
  destruct (@bget_returns_requested_block xv6 s 1 1 10 _ _ Hw Hg)
    as (k & ls1 & lt1 & Hb & _ & Hd & Hbn & _ & Hlk & _ & _ & _ & Hw1 & _).
  injection Hb as <-. repeat split; assumption.
Defined.

(** Process 2 asks for block (1,10) while process 1 holds its buffer,
    slot 29: it goes to sleep with [refcnt] at 2. *)
Lemma bget_hit_takes_first_match_xv6 :
  let s := @state_after xv6 [Bget 1 1 10] in
  @wellformed xv6 s = true ∧
  @cached xv6 s 1 10 [29%nat] = Some 29%nat ∧
  ∃ s1, @bget xv6 2 1 10 s = Sleeps s1 ∧
        refcnt (@slot xv6 s1 29) = 2 ∧
        lock (@slot xv6 s1 29) = Sleeplock true 1.
Proof.
  intros s.
  assert (Hw : @wellformed xv6 s = true) by (vm_compute; reflexivity).
  assert (Hls : @lists_of xv6 s
                = Some (seq 0 29 :: replicate 9 [] ++ [[29%nat]] ++ replicate 2 []))
    by (vm_compute; reflexivity).
  assert (Hl : (seq 0 29 :: replicate 9 [] ++ [[29%nat]] ++ replicate 2 [])
               !! Z.to_nat (@hash xv6 1 10) = Some [29%nat])
    by (vm_compute; reflexivity).
  assert (Hc : @cached xv6 s 1 10 [29%nat] = Some 29%nat) by (vm_compute; reflexivity).
  split; [exact Hw|]. split; [exact Hc|].
  destruct (@bget_hit_takes_first_match xv6 s _ _ _ 2 1 10 Hw Hls Hl Hc)
    as (s1 & Hrun & _ & Hr & Hlk & _).
  assert (Hlocked : locked (lock (@slot xv6 s 29)) = true) by (vm_compute; reflexivity).
  rewrite Hlocked in Hrun, Hlk.
  exists s1. split; [exact Hrun|].
  split; [rewrite Hr; vm_compute; reflexivity|].
  rewrite Hlk. vm_compute. reflexivity.
Defined.

(** The first [bget(1,10)] after boot is a miss, bucket 10 being
    empty, with 30 idle slots in bucket 0: one of them becomes block
    (1,10). *)
Lemma bget_miss_recycles_idle_slot_xv6 :
  let s := @state_after xv6 [] in
  @wellformed xv6 s = true ∧
  @cached xv6 s 1 10 [] = None ∧
  @idle xv6 s (seq 0 30 :: replicate 12 []) ≠ [] ∧
  ∃ k s1, @bget xv6 1 1 10 s = Ret (Buf k) s1 ∧
          dev (@slot xv6 s1 k) = 1 ∧ blockno (@slot xv6 s1 k) = 10 ∧
          refcnt (@slot xv6 s1 k) = 1 ∧ valid (@slot xv6 s1 k) = 0.
Proof.
  intros s.
  assert (Hw : @wellformed xv6 s = true) by (vm_compute; reflexivity).
  assert (Hls : @lists_of xv6 s = Some (seq 0 30 :: replicate 12 []))
    by (vm_compute; reflexivity).
  assert (Hl : (seq 0 30 :: replicate 12 []) !! Z.to_nat (@hash xv6 1 10)
               = Some []) by (vm_compute; reflexivity).
  assert (Hc : @cached xv6 s 1 10 [] = None) by (vm_compute; reflexivity).
  assert (Hi : @idle xv6 s (seq 0 30 :: replicate 12 []) ≠ [])
    by (vm_compute; discriminate).
  split; [exact Hw|]. split; [exact Hc|]. split; [exact Hi|].
  destruct (@bget_miss_recycles_idle_slot xv6 s _ _ 1 1 10 Hw Hls Hl Hc Hi)
    as (i & k & l1 & l2 & lt2 & s1 & _ & _ & _ & Hrun & _ & Hd & Hb & Hr & Hv & _).
  assert (Es : @state_after xv6 [] = @chained xv6 (@NBUF xv6))
    by (vm_compute; reflexivity).
  assert (Hfree : ∀ x, locked (lock (@slot xv6 s x)) = false).
  { intros x. unfold s. rewrite Es.
    destruct (@slot_chained xv6 x) as (_ & _ & _ & _ & _ & Hlk). by rewrite Hlk. }
  assert (Hnc : ∀ x, @caches xv6 s x 1 10 = false).
  { intros x. unfold s, caches. rewrite Es.
    destruct (@slot_chained xv6 x) as (Hd0 & _). by rewrite Hd0. }
  rewrite Hfree in Hrun. rewrite Hnc in Hv.
  exists k, s1. repeat split; assumption.
Defined.

(** With all 30 slots referenced, [bget(1,31)] for a block that is not
    cached is the null dereference; with an idle slot it returns. *)
Lemma bget_never_panics_xv6 :
  let s := @state_after xv6 (hoard 30) in
  @wellformed xv6 s = true ∧
  @bget xv6 7 1 31 s = Undefined NullDeref ∧
  ∃ s1, afterwards (@bget xv6 7 1 31 (@state_after xv6 [])) = Some s1.
Proof.
  intros s.
  assert (Hw : @wellformed xv6 s = true) by (vm_compute; reflexivity).
  pose (ls := default [] (@lists_of xv6 s)).
  assert (Hls : @lists_of xv6 s = Some ls) by (vm_compute; reflexivity).
  pose (lt := default [] (ls !! Z.to_nat (@hash xv6 1 31))).
  assert (Hl : ls !! Z.to_nat (@hash xv6 1 31) = Some lt) by (vm_compute; reflexivity).
  split; [exact Hw|]. split.
  - destruct (@bget_never_panics xv6 s ls lt 7 1 31 Hw Hls Hl) as (Hnone & _).
    apply Hnone. split; vm_compute; reflexivity.
  - assert (Hw0 : @wellformed xv6 (@state_after xv6 []) = true)
      by (vm_compute; reflexivity).
    assert (Hls0 : @lists_of xv6 (@state_after xv6 []) = Some (seq 0 30 :: replicate 12 []))
      by (vm_compute; reflexivity).
    assert (Hl0 : (seq 0 30 :: replicate 12 []) !! Z.to_nat (@hash xv6 1 31) = Some [])
      by (vm_compute; reflexivity).
    destruct (@bget_never_panics xv6 _ _ _ 7 1 31 Hw0 Hls0 Hl0) as (_ & Hsome & _).
    apply Hsome. right. vm_compute. discriminate.
Defined.

(** While process 1 holds block (1,10) in slot 29, a [bget(1,20)] by
    process 2 leaves slot 29 as it is. *)
Lemma bget_spares_referenced_slots_xv6 :
  let s := @state_after xv6 [Bget 1 1 10] in
  let s1 := @state_after xv6 [Bget 1 1 10; Bget 2 1 20] in
  @wellformed xv6 s = true ∧
  afterwards (@bget xv6 2 1 20 s) = Some s1 ∧
  refcnt (@slot xv6 s 29) ≠ 0 ∧
  dev (@slot xv6 s1 29) = 1 ∧ blockno (@slot xv6 s1 29) = 10.
Proof.
  intros s s1.
  assert (Hw : @wellformed xv6 s = true) by (vm_compute; reflexivity).
  assert (Ha : afterwards (@bget xv6 2 1 20 s) = Some s1) by (vm_compute; reflexivity).
  assert (Hr : refcnt (@slot xv6 s 29) ≠ 0) by (vm_compute; discriminate).
  split; [exact Hw|]. split; [exact Ha|]. split; [exact Hr|].
  destruct (@bget_spares_referenced_slots xv6 s 2 1 20 s1 29 Hw Ha Hr)
    as (Hd & Hb & _).
  rewrite Hd, Hb. vm_compute. split; reflexivity.
Defined.

(** Pinning and unpinning slot 29 while process 1 holds it. *)
Lemma bpin_bunpin_round_trip_xv6 :
  let s := @state_after xv6 [Bget 1 1 10] in
  @wellformed xv6 s = true ∧ (29 < @NBUF xv6)%nat ∧
  (@bpin xv6 (Buf 29);; @bunpin xv6 (Buf 29)) s = Ret tt s ∧
  (@bunpin xv6 (Buf 29);; @bpin xv6 (Buf 29)) s = Ret tt s.
Proof.
  intros s.
  assert (Hw : @wellformed xv6 s = true) by (vm_compute; reflexivity).
  assert (Hk : (29 < @NBUF xv6)%nat) by (vm_compute; lia).
  split; [exact Hw|]. split; [exact Hk|].
  exact (@bpin_bunpin_round_trip xv6 s 29 Hw Hk).
Defined.

(** Process 1 releases block (1,10) at tick 1: slot 29 gets stamp 1. *)
Lemma brelse_stamps_last_release_xv6 :
  let s := @state_after xv6 [Bget 1 1 10; Tick] in
  @wellformed xv6 s = true ∧ (29 < @NBUF xv6)%nat ∧
  lock (@slot xv6 s 29) = Sleeplock true 1 ∧
  ∃ s1, @brelse xv6 1 (Buf 29) s = Ret tt s1 ∧
        refcnt (@slot xv6 s1 29) = 0 ∧ timestamp (@slot xv6 s1 29) = 1 ∧
        lock (@slot xv6 s1 29) = Sleeplock false 0.
Proof.
  intros s.
  assert (Hw : @wellformed xv6 s = true) by (vm_compute; reflexivity).
  assert (Hk : (29 < @NBUF xv6)%nat) by (vm_compute; lia).
  assert (Hlk : lock (@slot xv6 s 29) = Sleeplock true 1) by (vm_compute; reflexivity).
  split; [exact Hw|]. split; [exact Hk|]. split; [exact Hlk|].
  destruct (@brelse_stamps_last_release xv6 s 1 29 Hw Hk Hlk)
    as (s1 & Hrun & Hr & Hts & Hl1 & _).
  exists s1. split; [exact Hrun|].
  assert (Hr0 : refcnt (@slot xv6 s1 29) = 0) by (rewrite Hr; vm_compute; reflexivity).
  split; [exact Hr0|]. split; [|exact Hl1].
  rewrite Hts, Hr0. vm_compute. reflexivity.
Defined.

(** Block (1,10) is read by process 1, released, and read again by
    process 2: one transfer in all. *)
Lemma reread_after_release_hits_cache_xv6 :
  let s := @state_after xv6 [] in
  let s1 := @state_after xv6 [Bread 1 1 10] in
  @wellformed xv6 s = true ∧
  @bread xv6 1 1 10 s = Ret (Buf 29) s1 ∧
  ∃ s2 s3,
    @brelse xv6 1 (Buf 29) s1 = Ret tt s2 ∧
    @bread xv6 2 1 10 s2 = Ret (Buf 29) s3 ∧
    io_log s3 = [DiskRead (Buf 29) 1 10].
Proof.
  intros s s1.
  assert (Hw : @wellformed xv6 s = true) by (vm_compute; reflexivity).
  assert (Hb : @bread xv6 1 1 10 s = Ret (Buf 29) s1) by (vm_compute; reflexivity).
  split; [exact Hw|]. split; [exact Hb|].
  destruct (@reread_after_release_hits_cache xv6 s 1 2 1 10 _ _ Hw Hb)
    as (k & s2 & s3 & _ & Hrel & Hb2 & _ & Hio & _).
  exists s2, s3. split; [exact Hrel|]. split; [exact Hb2|].
  rewrite Hio. vm_compute. reflexivity.
Defined.

(** Process 2 asks for block (1,10) while process 1 holds it. *)
Lemma held_buffer_makes_others_sleep_xv6 :
  let s := @state_after xv6 [] in
  let s1 := @state_after xv6 [Bget 1 1 10] in
  @wellformed xv6 s = true ∧
  @bget xv6 1 1 10 s = Ret (Buf 29) s1 ∧
  ∃ s2, @bread xv6 2 1 10 s1 = Sleeps s2 ∧ io_log s2 = [].
Proof.
  intros s s1.
  assert (Hw : @wellformed xv6 s = true) by (vm_compute; reflexivity).
  assert (Hg : @bget xv6 1 1 10 s = Ret (Buf 29) s1) by (vm_compute; reflexivity).
  split; [exact Hw|]. split; [exact Hg|].
  destruct (@held_buffer_makes_others_sleep xv6 s 1 2 1 10 _ _ Hw Hg)
    as (k & s2 & _ & _ & Hb & _ & _ & Hio & _).
  exists s2. split; [exact Hb|]. rewrite Hio. vm_compute. reflexivity.
Defined.

(** In the middle of [race_for_1_1] a caller carries slot 28, and at
    the end of [overtaken_scan] a caller is at bucket 1 of its scan; no
    spinlock is held. *)
Lemma schedules_hold_no_spinlock_xv6 :
  @NBUK xv6 ≠ O ∧
  (∃ ts, @run_schedule xv6 race_for_1_1
         = Some (@schedule_state xv6 race_for_1_1, ts) ∧ victims ts = [28%nat]) ∧
  @wellformed xv6 (@schedule_state xv6 race_for_1_1) = true ∧
  @run_schedule xv6 overtaken_scan
  = Some (@schedule_state xv6 overtaken_scan, [(1, Scanning 1 31 1)]) ∧
  @wellformed xv6 (@schedule_state xv6 overtaken_scan) = true ∧
  bcache_lock (@schedule_state xv6 overtaken_scan) = Spinlock false.
Proof.
  assert (Hk : @NBUK xv6 ≠ O) by (vm_compute; discriminate).
  assert (Hr : @run_schedule xv6 race_for_1_1
               = Some (@schedule_state xv6 race_for_1_1, [(2, Stolen 1 1 (Buf 28))]))
    by (vm_compute; reflexivity).
  assert (Hr2 : @run_schedule xv6 overtaken_scan
                = Some (@schedule_state xv6 overtaken_scan, [(1, Scanning 1 31 1)]))
    by (vm_compute; reflexivity).
  split; [exact Hk|]. split; [eexists; split; [exact Hr|reflexivity]|].
  split; [exact (proj1 (@schedules_hold_no_spinlock xv6 _ _ _ Hk Hr))|].
  split; [exact Hr2|].
  destruct (@schedules_hold_no_spinlock xv6 _ _ _ Hk Hr2) as (Hw & Hl & _).
  split; [exact Hw|exact Hl].
Defined.

(** A [bread] from the booted state. *)
Lemma calls_keep_quiescent_xv6 :
  @quiescent xv6 (@state_after xv6 []) = true ∧
  @do_call xv6 (Bread 1 1 10) (@state_after xv6 [])
  = Some (@state_after xv6 [Bread 1 1 10]) ∧
  @quiescent xv6 (@state_after xv6 [Bread 1 1 10]) = true.
Proof.
  assert (Hq : @quiescent xv6 (@state_after xv6 []) = true) by (vm_compute; reflexivity).
  assert (Hc : @do_call xv6 (Bread 1 1 10) (@state_after xv6 [])
               = Some (@state_after xv6 [Bread 1 1 10])) by (vm_compute; reflexivity).
  split; [exact Hq|]. split; [exact Hc|].
  exact (@calls_keep_quiescent xv6 _ _ _ Hq Hc).
Defined.

(** A run with every kind of call, in which block (1,10) is read,
    pinned, released, evicted from nowhere and read again. *)
Lemma careful_calls_keep_identity_unique_xv6 :
  let cs := [Bread 1 1 10; Bpin (Buf 29); Tick; Bwrite 1 (Buf 29); Brelse 1 (Buf 29);
             Bget 2 1 23; Bunpin (Buf 29); Bread 3 1 10] in
  @NBUK xv6 ≠ O ∧
  @booted xv6 = Some (@state_after xv6 []) ∧
  @careful xv6 cs (@state_after xv6 []) = true ∧
  @run_calls xv6 cs (@state_after xv6 []) = Some (@state_after xv6 cs) ∧
  @unique_identity xv6 (@state_after xv6 cs).
Proof.
  intros cs.
  assert (Hk : @NBUK xv6 ≠ O) by (vm_compute; discriminate).
  assert (Hb : @booted xv6 = Some (@state_after xv6 [])) by (vm_compute; reflexivity).
  assert (Hcf : @careful xv6 cs (@state_after xv6 []) = true) by (vm_compute; reflexivity).
  assert (Hr : @run_calls xv6 cs (@state_after xv6 []) = Some (@state_after xv6 cs))
    by (vm_compute; reflexivity).
  split; [exact Hk|]. split; [exact Hb|]. split; [exact Hcf|]. split; [exact Hr|].
  exact (@careful_calls_keep_identity_unique xv6 cs _ _ Hk Hb Hcf Hr).
Defined.

(** The first [bget(1,10)] after boot, whole and in three moves: both
    end with slot 29 as block (1,10). *)
Lemma bget_is_its_phases_xv6 :
  let s := @state_after xv6 [] in
  @wellformed xv6 s = true ∧
  stage_of 1 [] = None ∧
  @do_move xv6 (Call (Bget 1 1 10)) (s, []) =
  match @do_move xv6 (Enter 1 1 10) (s, []) with
  | Some (s1, ts1) =>
      match stage_of 1 ts1 with
      | None => Some (s1, ts1)
      | Some _ => @run_moves xv6 [Scan 1; Install 1] (s1, ts1)
      end
  | None => None
  end ∧
  @run_moves xv6 [Enter 1 1 10; Scan 1; Install 1] (s, [])
  = Some (@state_after xv6 [Bget 1 1 10], []).
Proof.
  intros s.
  assert (Hw : @wellformed xv6 s = true) by (vm_compute; reflexivity).
  split; [exact Hw|]. split; [reflexivity|].
  split; [exact (@bget_is_its_phases xv6 s [] 1 1 10 Hw eq_refl)|].
  vm_compute. reflexivity.
Defined.

(** The kernel's pool after [binit]. *)
Lemma binit_builds_quiescent_pool_xv6 :
  @NBUK xv6 ≠ O ∧
  ∃ s0, @binit xv6 (@boot xv6) = Ret tt s0 ∧
        @quiescent xv6 s0 = true ∧
        @lists_of xv6 s0 = Some (@init_lists xv6).
Proof.
  assert (Hk : @NBUK xv6 ≠ O) by (vm_compute; discriminate).
  split; [exact Hk|].
  destruct (@binit_builds_quiescent_pool xv6 Hk) as (s0 & Hrun & Hq & Hls & _).
  exists s0. split; [exact Hrun|]. split; [exact Hq|exact Hls].
Defined.

(** In the middle of [race_for_1_1] the second caller can install, and
    a third can enter.  At the end of [overtaken_scan] process 1 is at
    bucket 1 of its scan: slot 4, of bucket 0, is idle and no slot from
    bucket 1 on is, so the caller passes bucket 1, and the rest of its
    scan run in one go ends in the null dereference. *)
Lemma phases_always_complete_xv6 :
  @NBUK xv6 ≠ O ∧
  (@run_schedule xv6 race_for_1_1
   = Some (@schedule_state xv6 race_for_1_1, [(2, Stolen 1 1 (Buf 28))]) ∧
   is_Some (@do_move xv6 (Install 2)
              (@schedule_state xv6 race_for_1_1, [(2, Stolen 1 1 (Buf 28))])) ∧
   is_Some (@do_move xv6 (Enter 3 1 1)
              (@schedule_state xv6 race_for_1_1, [(2, Stolen 1 1 (Buf 28))]))) ∧
  (@run_schedule xv6 overtaken_scan
   = Some (@schedule_state xv6 overtaken_scan, [(1, Scanning 1 31 1)]) ∧
   ∃ ls, @lists_of xv6 (@schedule_state xv6 overtaken_scan) = Some ls ∧
         ls !! 0%nat = Some [4; 17]%nat ∧
         @idle xv6 (@schedule_state xv6 overtaken_scan) ls = [(0, 4)]%nat ∧
         @idle_from xv6 (@schedule_state xv6 overtaken_scan) ls 1 = [] ∧
         is_Some (@do_move xv6 (Pass 1)
                    (@schedule_state xv6 overtaken_scan, [(1, Scanning 1 31 1)])) ∧
         @do_move xv6 (Scan 1)
           (@schedule_state xv6 overtaken_scan, [(1, Scanning 1 31 1)]) = None ∧
         (v ← @bget_scan_from xv6 (@NBUK xv6 - 1) 1; bget_steal v)
           (@schedule_state xv6 overtaken_scan) = Undefined NullDeref).
Proof.
  assert (Hk : @NBUK xv6 ≠ O) by (vm_compute; discriminate).
  assert (Hr : @run_schedule xv6 race_for_1_1
               = Some (@schedule_state xv6 race_for_1_1, [(2, Stolen 1 1 (Buf 28))]))
    by (vm_compute; reflexivity).
  assert (Hr2 : @run_schedule xv6 overtaken_scan
                = Some (@schedule_state xv6 overtaken_scan, [(1, Scanning 1 31 1)]))
    by (vm_compute; reflexivity).
  split; [exact Hk|]. split; [split; [exact Hr|split]|split; [exact Hr2|]].
  - destruct (@phases_always_complete xv6 _ _ _ 2 Hk Hr) as (_ & Hinst & _).
    exact (Hinst 1 1 (Buf 28) eq_refl).
  - destruct (@phases_always_complete xv6 _ _ _ 3 Hk Hr) as (Henter & _).
    exact (Henter 1 1 eq_refl).
  - destruct (@phases_always_complete xv6 _ _ _ 1 Hk Hr2) as (_ & _ & Hscan).
    destruct (Hscan 1 31 1%nat (or_introl eq_refl))
      as (ls & Hls & Hpass & _ & Hnone).
    assert (E : ls = default [] (@lists_of xv6 (@schedule_state xv6 overtaken_scan)))
      by (by rewrite Hls).
    assert (Hb0 : default [] (@lists_of xv6 (@schedule_state xv6 overtaken_scan))
                    !! 0%nat = Some [4; 17]%nat) by (vm_compute; reflexivity).
    assert (Hb1 : default [] (@lists_of xv6 (@schedule_state xv6 overtaken_scan))
                    !! 1%nat = Some [3; 16; 29]%nat) by (vm_compute; reflexivity).
    assert (Hi0 : @idle xv6 (@schedule_state xv6 overtaken_scan)
                    (default [] (@lists_of xv6 (@schedule_state xv6 overtaken_scan)))
                  = [(0, 4)]%nat) by (vm_compute; reflexivity).
    assert (Hi1 : @idle_from xv6 (@schedule_state xv6 overtaken_scan)
                    (default [] (@lists_of xv6 (@schedule_state xv6 overtaken_scan))) 1
                  = []) by (vm_compute; reflexivity).
    rewrite <- E in Hb0, Hb1, Hi0, Hi1.
    exists ls. split; [exact Hls|]. split; [exact Hb0|]. split; [exact Hi0|].
    split; [exact Hi1|]. split; [|exact (Hnone Hi1)].
    apply (proj2 Hpass). exists [3; 16; 29]%nat. split; [exact Hb1|].
    intros k Hin.
    assert (Hbusy : Forall (λ k, refcnt (@slot xv6 (@schedule_state xv6 overtaken_scan) k) ≠ 0)
                      [3; 16; 29]%nat).
    { repeat constructor; vm_compute; discriminate. }
    exact (proj1 (Forall_forall _ _) Hbusy k Hin).
Defined.

(** Blocks (1,10) and (1,20) are released at ticks 1 and 2; the miss on
    (1,30) recycles a slot stamped 2, the one of block (1,20). *)
Lemma bget_recycles_largest_stamp_xv6 :
  let s := @state_after xv6
             [Bget 1 1 10; Bget 1 1 20; Tick; Brelse 1 (Buf 29); Tick; Brelse 1 (Buf 28)] in
  @wellformed xv6 s = true ∧
  ∃ s1 k, afterwards (@bget xv6 1 1 30 s) = Some s1 ∧
          timestamp (@slot xv6 s 28) ≤ timestamp (@slot xv6 s k) ∧
          timestamp (@slot xv6 s 28) = 2 ∧
          dev (@slot xv6 s1 k) = 1 ∧ blockno (@slot xv6 s1 k) = 30.
Proof.
  intros s.
  assert (Hw : @wellformed xv6 s = true) by (vm_compute; reflexivity).
  pose (ls := default [] (@lists_of xv6 s)).
  assert (Hls : @lists_of xv6 s = Some ls) by (vm_compute; reflexivity).
  pose (lt := default [] (ls !! Z.to_nat (@hash xv6 1 30))).
  assert (Hl : ls !! Z.to_nat (@hash xv6 1 30) = Some lt) by (vm_compute; reflexivity).
  assert (Hc : @cached xv6 s 1 30 lt = None) by (vm_compute; reflexivity).
  pose (s1 := default (@boot xv6) (afterwards (@bget xv6 1 1 30 s))).
  assert (Ha : afterwards (@bget xv6 1 1 30 s) = Some s1) by (vm_compute; reflexivity).
  split; [exact Hw|].
  destruct (@bget_recycles_largest_stamp xv6 s ls lt 1 1 30 s1 Hw Hls Hl Hc Ha)
    as (k & _ & _ & Hmax & Hd & Hb & _).
  exists s1, k. split; [exact Ha|]. split.
  - apply Hmax; [|vm_compute; reflexivity].
    apply (bool_decide_eq_true_1 _). vm_compute. reflexivity.
  - split; [vm_compute; reflexivity|]. split; [exact Hd|exact Hb].
Defined.

(** Right after boot processes 1 and 2 race for block (1,1): the block
    ends up in one slot, referenced twice. *)
Lemma first_race_shares_one_slot_xv6 :
  let s := @state_after xv6 [] in
  let ms := [Enter 1 1 1; Enter 2 1 1; Scan 1; Scan 2; Install 1; Install 2] in
  let r := default (s, []) (@run_moves xv6 ms (s, [])) in
  @NBUK xv6 ≠ O ∧
  @booted xv6 = Some s ∧
  @run_moves xv6 ms (s, []) = Some (fst r, snd r) ∧
  snd r = [] ∧
  @unique_identity xv6 (fst r) ∧
  @membership xv6 (fst r) ∧
  @view xv6 (fst r) 29 = (1, 1, 0, 2, 0) ∧
  @view xv6 (fst r) 28 = (0, 0, 0, 0, 0).
Proof.
  intros s ms r.
  assert (Hk : @NBUK xv6 ≠ O) by (vm_compute; discriminate).
  assert (Hb : @booted xv6 = Some s) by (vm_compute; reflexivity).
  assert (Hcf : @careful xv6 [] s = true) by reflexivity.
  assert (Hrun : @run_calls xv6 [] s = Some s) by reflexivity.
  assert (Hab : (1 : Z) ≠ 2) by discriminate.
  assert (Hls : @lists_of xv6 s = Some (seq 0 30 :: replicate 12 []))
    by (vm_compute; reflexivity).
  assert (Hl : (seq 0 30 :: replicate 12 []) !! Z.to_nat (@hash xv6 1 1) = Some [])
    by (vm_compute; reflexivity).
  assert (Hc : @cached xv6 s 1 1 [] = None) by reflexivity.
  assert (Hr : @run_moves xv6 ms (s, []) = Some (fst r, snd r))
    by (vm_compute; reflexivity).
  split; [exact Hk|]. split; [exact Hb|]. split; [exact Hr|].
  destruct (@first_race_shares_one_slot xv6 [] s s _ _ 1 2 1 1 (fst r) (snd r)
              Hk Hb Hcf Hrun Hab Hls Hl Hc Hr)
    as (Hts & k1 & k2 & _ & _ & _ & _ & _ & _ & _ & _ & _ & _ & _ & _ & Hu & Hmem).
  split; [exact Hts|]. split; [exact Hu|]. split; [exact Hmem|].
  split; vm_compute; reflexivity.
Defined.
